(** * WordSearch: a shallow embedding of [WordSearchEnv] and its properties

    The development follows [textarena/envs/single_player/WordSearch/env.py].
    Python values are modelled as follows.
    - [int] is [Z]; [//] is [Z.div] (floor division), [abs], [min] and [max]
      are [Z.abs], [Z.min] and [Z.max].
    - [str] is [string]; one grid cell is one [ascii] character.
    - a [list] is a [list]; subscripting follows Python: a negative index
      counts from the end and an index outside the list raises [IndexError].
    - an exception is the result [None] of a computation in [option].
    - a [dict] is an association list that keeps insertion order and holds each
      key once; a [set] is a [gset].
    - the [random] module is an interface ([RandomSource]) whose operations
      thread an explicit generator state. *)

From Stdlib Require Import ZArith Ascii String.
From stdpp Require Import gmap strings list pretty sorting.

#[local] Set Warnings "-clear-no-such-hyp".

Local Open Scope Z_scope.

(** ** Python sequences *)

Module Py.

(** Position denoted by subscript [i] in a sequence of [n] items. *)
Definition norm (n : nat) (i : Z) : option nat :=
  if decide (0 <= i < Z.of_nat n) then Some (Z.to_nat i)
  else if decide (- Z.of_nat n <= i < 0) then Some (Z.to_nat (Z.of_nat n + i))
  else None.

(** [l[i]] *)
Definition index {A} (l : list A) (i : Z) : option A :=
  k ← norm (length l) i; l !! k.

(** [l[i] = x] *)
Definition setitem {A} (l : list A) (i : Z) (x : A) : option (list A) :=
  k ← norm (length l) i; Some (<[k:=x]> l).

(** [len(l)] and [len(s)] *)
Definition len {A} (l : list A) : Z := Z.of_nat (length l).
Definition slen (s : string) : Z := Z.of_nat (String.length s).

(** [range(n)] and [range(a, b)] *)
Definition range2 (a b : Z) : list Z := map (λ k, a + Z.of_nat k) (seq 0 (Z.to_nat (b - a))).
Definition range (n : Z) : list Z := range2 0 n.

(** [enumerate(s)] for a string [s] *)
Fixpoint enumerate_from (i : Z) (s : string) : list (Z * ascii) :=
  match s with
  | EmptyString => []
  | String c s' => (i, c) :: enumerate_from (i + 1) s'
  end.
Definition enumerate (s : string) : list (Z * ascii) := enumerate_from 0 s.

(** ["".join(cs)] for a sequence of one-character strings *)
Fixpoint join (cs : list ascii) : string :=
  match cs with
  | [] => EmptyString
  | c :: cs' => String c (join cs')
  end.

(** [max(xs)]; [ValueError] on an empty sequence *)
Definition max (xs : list Z) : option Z :=
  match xs with
  | [] => None
  | x :: xs' => Some (foldl Z.max x xs')
  end.

(** [round(m * 1.5)] for an [int] [m].  The product is the float [3m/2],
    exact in binary64 for every length a string can have, and Python 3
    rounds a float that lies halfway between two integers to the even one. *)
Definition round_three_halves (m : Z) : Z :=
  let q := (3 * m) / 2 in
  if Z.even (3 * m) then q else if Z.even q then q else q + 1.

(** A loop whose body may raise: the first exception ends it. *)
Fixpoint for_each {A S} (body : S → A → option S) (s : S) (l : list A) : option S :=
  match l with
  | [] => Some s
  | x :: l' => s' ← body s x; for_each body s' l'
  end.

(** ** Dictionaries keyed by strings *)

Definition dict (V : Type) : Type := list (string * V).

(** [d[k]]; [KeyError] when [k] is absent *)
Fixpoint get {V} (d : dict V) (k : string) : option V :=
  match d with
  | [] => None
  | (k', v) :: d' => if decide (k' = k) then Some v else get d' k
  end.

(** [d[k] = v]: a present key keeps its place, a new key goes last *)
Fixpoint set {V} (d : dict V) (k : string) (v : V) : dict V :=
  match d with
  | [] => [(k, v)]
  | (k', v') :: d' => if decide (k' = k) then (k', v) :: d' else (k', v') :: set d' k v
  end.

End Py.

(** ** Data of the environment *)

Inductive Direction : Type := across | down.

#[global] Instance Direction_eq_dec : EqDecision Direction.
Proof. solve_decision. Defined.

Abbreviation Grid := (list (list ascii)).

(** Value stored in [placed_words]: [(row, col, direction)]. *)
Abbreviation Placement := (Z * Z * Direction)%type.

(** A guess [(start_row, start_col, end_row, end_col)]. *)
Abbreviation Span := (Z * Z * Z * Z)%type.

(** The empty marker ["."] and [string.ascii_uppercase]. *)
Definition empty_marker : ascii := "."%char.
Definition ascii_uppercase : list ascii :=
  list_ascii_of_string "ABCDEFGHIJKLMNOPQRSTUVWXYZ".

(** [grid[r][c]] and [grid[r][c] = x].  The rows of a grid are distinct list
    objects, so an assignment changes one row only. *)
Definition grid_get (grid : Grid) (r c : Z) : option ascii :=
  line ← Py.index grid r; Py.index line c.

Definition grid_set (grid : Grid) (r c : Z) (x : ascii) : option Grid :=
  line ← Py.index grid r;
  line' ← Py.setitem line c x;
  Py.setitem grid r line'.

(** [len(grid[0])] where the source evaluates it behind a test that
    implies the grid has a first row. *)
Definition width (grid : Grid) : Z :=
  match grid with
  | [] => 0
  | line :: _ => Py.len line
  end.

(** The cells a word covers from [(row, col)], with the letter of each:
    [(row, col + i)] when across, [(row + i, col)] when down. *)
Definition word_cells (direction : Direction) (row col : Z) (word : string)
  : list (Z * Z * ascii) :=
  map (λ il : Z * ascii,
         match direction with
         | across => (row, col + il.1, il.2)
         | down => (row + il.1, col, il.2)
         end) (Py.enumerate word).

(** ** Grid generation *)

Definition _determine_initial_grid_size (words : list string) : option Z :=
  max_length ← Py.max (map Py.slen words);
  Some (Py.round_three_halves max_length).

Definition _create_empty_grid (size : Z) : Grid :=
  replicate (Z.to_nat size) (replicate (Z.to_nat size) empty_marker).

(** The loop of [_can_place_word]: [false] at the first cell that holds
    neither the empty marker nor the letter to be placed. *)
Fixpoint cells_free (grid : Grid) (cells : list (Z * Z * ascii)) : option bool :=
  match cells with
  | [] => Some true
  | (r, c, letter) :: rest =>
      current_cell ← grid_get grid r c;
      if bool_decide (current_cell ≠ empty_marker) && bool_decide (current_cell ≠ letter)
      then Some false
      else cells_free grid rest
  end.

Definition _can_place_word (grid : Grid) (word : string) (direction : Direction)
    (row col : Z) : option bool :=
  match direction with
  | across =>
      line0 ← Py.index grid 0;
      if bool_decide (col + Py.slen word > Py.len line0) then Some false
      else cells_free grid (word_cells across row col word)
  | down =>
      if bool_decide (row + Py.slen word > Py.len grid) then Some false
      else cells_free grid (word_cells down row col word)
  end.

Definition _place_word_on_grid (grid : Grid) (word : string) (direction : Direction)
    (row col : Z) : option Grid :=
  Py.for_each (λ (g : Grid) (cell : Z * Z * ascii),
                 let '(r, c, letter) := cell in grid_set g r c letter)
              grid (word_cells direction row col word).

(** The body of the innermost loop of [_find_overlaps] once the letters at
    [i] and [j] are equal: a placed word donates only anchors of the
    orthogonal direction. *)
Definition overlap_at (word : string) (grid : Grid) (directions : Py.dict Direction)
    (p_row p_col : Z) (p_direction : Direction) (i j : Z)
    (overlaps : list Placement) : option (list Placement) :=
  match p_direction with
  | across =>
      let row := p_row - i in
      let col := p_col + j in
      d ← Py.get directions word;
      if bool_decide (d = down)
         && bool_decide (0 <= row < Py.len grid)
         && bool_decide (0 <= col < width grid)
      then
        ok ← _can_place_word grid word down row col;
        Some (if ok : bool then overlaps ++ [(row, col, down)] else overlaps)
      else Some overlaps
  | down =>
      let row := p_row + j in
      let col := p_col - i in
      d ← Py.get directions word;
      if bool_decide (d = across)
         && bool_decide (0 <= row < Py.len grid)
         && bool_decide (0 <= col < width grid)
      then
        ok ← _can_place_word grid word across row col;
        Some (if ok : bool then overlaps ++ [(row, col, across)] else overlaps)
      else Some overlaps
  end.

Definition _find_overlaps (placed_words : Py.dict Placement) (word : string)
    (grid : Grid) (directions : Py.dict Direction) : option (list Placement) :=
  Py.for_each (λ (overlaps : list Placement) (entry : string * Placement),
    let '(placed_word, (p_row, p_col, p_direction)) := entry in
    Py.for_each (λ (overlaps : list Placement) (il : Z * ascii),
      Py.for_each (λ (overlaps : list Placement) (jl : Z * ascii),
        if bool_decide (il.2 = jl.2)
        then overlap_at word grid directions p_row p_col p_direction il.1 jl.1 overlaps
        else Some overlaps)
      overlaps (Py.enumerate placed_word))
    overlaps (Py.enumerate word))
  [] placed_words.

(** ** The [random] module

    The generator is ambient state in Python; here every operation takes the
    state and returns the next one.  The laws are the contracts of the library
    functions the environment calls. *)

Class RandomSource (R : Type) : Type := {
  (** [random.choice(seq)]; [IndexError] on an empty sequence *)
  rand_choice : ∀ {A : Type}, R → list A → option (A * R);
  (** [random.shuffle(l)] *)
  rand_shuffle : ∀ {A : Type}, R → list A → list A * R;
  (** [random.sample(population, k)]; [ValueError] when [k] exceeds the population *)
  rand_sample : ∀ {A : Type}, R → list A → nat → option (list A * R);
}.

(** The contracts of the three library functions: a choice from a sequence
    that is not empty is one of its items, a shuffle is a permutation, and a
    sample of [k] items exists when the population has [k] items and then
    consists of [k] of them. *)
Class RandomLaws (R : Type) `{!RandomSource R} : Prop := {
  rand_choice_elem : ∀ (A : Type) (r : R) (x : A) (xs : list A),
    ∃ y r', rand_choice r (x :: xs) = Some (y, r') ∧ y ∈ x :: xs;
  rand_shuffle_perm : ∀ (A : Type) (r : R) (l : list A), (rand_shuffle r l).1 ≡ₚ l;
  rand_sample_sub : ∀ (A : Type) (r r' : R) (l s : list A) (k : nat),
    rand_sample r l k = Some (s, r') → length s = k ∧ s ⊆+ l;
  rand_sample_total : ∀ (A : Type) (r : R) (l : list A) (k : nat),
    (k ≤ length l)%nat → is_Some (rand_sample r l k);
}.

(** [str.upper] on ASCII text. *)
Definition upper_char (c : ascii) : ascii :=
  let n := nat_of_ascii c in
  if bool_decide (97 ≤ n ≤ 122)%nat then ascii_of_nat (n - 32) else c.

Fixpoint upper (s : string) : string :=
  match s with
  | EmptyString => EmptyString
  | String c s' => String (upper_char c) (upper s')
  end.

(** [sorted(ws, key=len, reverse=True)]: longest first, and words of equal
    length keep their order (the sort is stable also when reversed). *)
Fixpoint insert_by_length (w : string) (ws : list string) : list string :=
  match ws with
  | [] => [w]
  | v :: ws' =>
      if bool_decide (Py.slen v <= Py.slen w) then w :: v :: ws'
      else v :: insert_by_length w ws'
  end.

Definition sorted_longest_first (ws : list string) : list string :=
  foldr insert_by_length [] ws.

Section Generation.
Context {R : Type} `{!RandomSource R}.

(** A loop over candidate anchors that places the word at the first legal
    one and stops ([break]). *)
Fixpoint place_first (grid : Grid) (word : string) (candidates : list Placement)
  : option (option (Grid * Placement)) :=
  match candidates with
  | [] => Some None
  | (row, col, direction) :: rest =>
      ok ← _can_place_word grid word direction row col;
      if ok : bool then
        grid' ← _place_word_on_grid grid word direction row col;
        Some (Some (grid', (row, col, direction)))
      else place_first grid word rest
  end.

(** The exhaustive scan, rows then columns.  [self.directions[word]] is
    looked up at every visited cell and gives the same answer each time, so
    it is looked up once when there is a cell to visit. *)
Definition scan_first (grid : Grid) (word : string) (directions : Py.dict Direction)
    (grid_size : Z) : option (option (Grid * Placement)) :=
  match Py.range grid_size with
  | [] => Some None
  | _ =>
      d ← Py.get directions word;
      place_first grid word
        (row ← Py.range grid_size; col ← Py.range grid_size; [(row, col, d)])
  end.

(** One iteration of [for word in self.words]. *)
Definition place_word (grid_size : Z) (directions : Py.dict Direction)
    (st : Grid * Py.dict Placement * R) (word : string)
  : option (Grid * Py.dict Placement * R) :=
  let '(grid, placed_words, rng) := st in
  '(attempt, rng) ←
    match placed_words with
    | [] =>
        d ← Py.get directions word;
        let '(row, col) :=
          match d with
          | across => (grid_size / 2, (grid_size - Py.slen word) / 2)
          | down => ((grid_size - Py.slen word) / 2, grid_size / 2)
          end in
        attempt ← place_first grid word [(row, col, d)];
        Some (attempt, rng)
    | _ =>
        possible_positions ← _find_overlaps placed_words word grid directions;
        let '(possible_positions, rng) := rand_shuffle rng possible_positions in
        attempt ← place_first grid word possible_positions;
        Some (attempt, rng)
    end;
  attempt ←
    match attempt with
    | Some a => Some (Some a)
    | None => scan_first grid word directions grid_size
    end;
  match attempt with
  | Some (grid', position) => Some (grid', Py.set placed_words word position, rng)
  | None => Some (grid, placed_words, rng)
  end.

(** The body of the inner loop of [_fill_empty_cells]. *)
Definition fill_cell (row col : Z) (st : Grid * R) : option (Grid * R) :=
  let '(grid, rng) := st in
  cell ← grid_get grid row col;
  if bool_decide (cell = empty_marker) then
    '(letter, rng) ← rand_choice rng ascii_uppercase;
    grid ← grid_set grid row col letter;
    Some (grid, rng)
  else Some (grid, rng).

Definition _fill_empty_cells (grid : Grid) (rng : R) : option (Grid * R) :=
  Py.for_each (λ (st : Grid * R) (row : Z),
    Py.for_each (λ (st : Grid * R) (col : Z), fill_cell row col st)
                st (Py.range (width st.1)))
  (grid, rng) (Py.range (Py.len grid)).

(** [_generate_word_search] from the computation of the grid size on:
    the words and their directions are given. *)
Definition generate (words : list string) (directions : Py.dict Direction) (rng : R)
  : option (Grid * Py.dict Placement * R) :=
  grid_size ← _determine_initial_grid_size words;
  let grid := _create_empty_grid grid_size in
  '(grid, placed_words, rng) ←
    Py.for_each (place_word grid_size directions) (grid, [], rng) words;
  '(grid, rng) ← _fill_empty_cells grid rng;
  Some (grid, placed_words, rng).

(** [{word: random.choice(["across", "down"]) for word in words}] *)
Definition choose_directions (words : list string) (rng : R)
  : option (Py.dict Direction * R) :=
  Py.for_each (λ (st : Py.dict Direction * R) (word : string),
    '(d, rng) ← rand_choice st.2 [across; down];
    Some (Py.set st.1 word d, rng))
  ([], rng) words.

End Generation.

(** ** The environment object

    The attributes of [self] that the game logic reads or writes.  [board] is
    [self.state.game_state["board"]], the deep copy of [game_board] that
    [reset] hands to the framework.  Attributes that [__init__] does not
    create hold an empty value until [reset] assigns them. *)

Record Env : Type := mkEnv {
  word_list : list string;
  num_words : nat;
  num_incorrect_tries : Z;
  words : list string;
  directions : Py.dict Direction;
  highlighted_positions : gset (Z * Z);
  correct_words : gset string;
  incorrect_attempts : list Span;
  game_board : Grid;
  placed_words : Py.dict Placement;
  board : Grid;
}.

(** Calls on the framework object [self.state] that decide the episode:
    [set_invalid_move], [set_draw] and [set_winners]. *)
Inductive StateCall : Type := set_invalid_move | set_draw | set_winners.

#[global] Instance StateCall_eq_dec : EqDecision StateCall.
Proof. solve_decision. Defined.

(** [__init__]: the word list is the corpus chosen by [hardcore]. *)
Definition __init__ (corpus : list string) : Env :=
  {| word_list := corpus;
     num_words := 5;
     num_incorrect_tries := 20;
     words := [];
     directions := [];
     highlighted_positions := ∅;
     correct_words := ∅;
     incorrect_attempts := [];
     game_board := [];
     placed_words := [];
     board := [] |}.

Section Episode.
Context {R : Type} `{!RandomSource R}.

Definition _generate_word_search (self : Env) (rng : R)
  : option (Grid * Py.dict Placement * Env * R) :=
  '(sampled, rng) ← rand_sample rng (word_list self) (num_words self);
  let ws := sorted_longest_first (map upper sampled) in
  '(dirs, rng) ← choose_directions ws rng;
  '(grid, placed, rng) ← generate ws dirs rng;
  Some (grid, placed,
        {| word_list := word_list self;
           num_words := num_words self;
           num_incorrect_tries := num_incorrect_tries self;
           words := ws;
           directions := dirs;
           highlighted_positions := ∅;
           correct_words := ∅;
           incorrect_attempts := [];
           game_board := game_board self;
           placed_words := placed;
           board := board self |},
        rng).

(** [reset]: [rng] is the generator as [random.seed] leaves it. *)
Definition reset (self : Env) (rng : R) : option (Env * R) :=
  '(grid, placed, self, rng) ← _generate_word_search self rng;
  Some ({| word_list := word_list self;
           num_words := num_words self;
           num_incorrect_tries := num_incorrect_tries self;
           words := words self;
           directions := directions self;
           highlighted_positions := highlighted_positions self;
           correct_words := correct_words self;
           incorrect_attempts := incorrect_attempts self;
           game_board := grid;
           placed_words := placed;
           board := grid |},
        rng).

End Episode.

(** ** Guess verification *)

Definition _extract_word (grid : Grid) (start_row start_col end_row end_col : Z)
  : option string :=
  if bool_decide (start_row = end_row) then
    Py.join <$> mapM (λ col, grid_get grid start_row col)
                     (Py.range2 (Z.min start_col end_col) (Z.max start_col end_col + 1))
  else if bool_decide (start_col = end_col) then
    Py.join <$> mapM (λ row, grid_get grid row start_col)
                     (Py.range2 (Z.min start_row end_row) (Z.max start_row end_row + 1))
  else Some EmptyString.

Definition _matches_position (word : string) (row col : Z) (direction : Direction)
    (start_row start_col end_row end_col : Z) : bool :=
  if bool_decide (direction = across) && bool_decide (row = start_row)
     && bool_decide (col = Z.min start_col end_col)
  then bool_decide (Py.slen word = Z.abs (end_col - start_col) + 1)
  else if bool_decide (direction = down) && bool_decide (col = start_col)
          && bool_decide (row = Z.min start_row end_row)
  then bool_decide (Py.slen word = Z.abs (end_row - start_row) + 1)
  else false.

Definition _highlight_word (highlighted : gset (Z * Z))
    (start_row start_col end_row end_col : Z) : gset (Z * Z) :=
  if bool_decide (start_row = end_row) then
    foldl (λ h col, {[ (start_row, col) ]} ∪ h) highlighted
          (Py.range2 (Z.min start_col end_col) (Z.max start_col end_col + 1))
  else if bool_decide (start_col = end_col) then
    foldl (λ h row, {[ (row, start_col) ]} ∪ h) highlighted
          (Py.range2 (Z.min start_row end_row) (Z.max start_row end_row + 1))
  else highlighted.

(** The first entry of [placed_words], in the order of the dictionary, whose
    position the span matches. *)
Definition first_match (placed : Py.dict Placement) (word : string)
    (start_row start_col end_row end_col : Z) : option (string * Placement) :=
  List.find (λ entry : string * Placement,
               let '(_, (row, col, direction)) := entry in
               _matches_position word row col direction
                                 start_row start_col end_row end_col) placed.

(** [self.correct_words.add(placed_word)] followed by [self._highlight_word(...)]. *)
Definition record_found (self : Env) (placed_word : string)
    (start_row start_col end_row end_col : Z) : Env :=
  {| word_list := word_list self;
     num_words := num_words self;
     num_incorrect_tries := num_incorrect_tries self;
     words := words self;
     directions := directions self;
     highlighted_positions :=
       _highlight_word (highlighted_positions self) start_row start_col end_row end_col;
     correct_words := {[ placed_word ]} ∪ correct_words self;
     incorrect_attempts := incorrect_attempts self;
     game_board := game_board self;
     placed_words := placed_words self;
     board := board self |}.

(** [self.incorrect_attempts.append((start_row, start_col, end_row, end_col))]. *)
Definition record_incorrect (self : Env) (start_row start_col end_row end_col : Z) : Env :=
  {| word_list := word_list self;
     num_words := num_words self;
     num_incorrect_tries := num_incorrect_tries self;
     words := words self;
     directions := directions self;
     highlighted_positions := highlighted_positions self;
     correct_words := correct_words self;
     incorrect_attempts :=
       incorrect_attempts self ++ [(start_row, start_col, end_row, end_col)];
     game_board := game_board self;
     placed_words := placed_words self;
     board := board self |}.

Definition _check_word (self : Env) (grid : Grid)
    (start_row start_col end_row end_col : Z) : option (bool * Env) :=
  word ← _extract_word grid start_row start_col end_row end_col;
  match first_match (placed_words self) word start_row start_col end_row end_col with
  | Some (placed_word, _) =>
      Some (true, record_found self placed_word start_row start_col end_row end_col)
  | None =>
      Some (false, record_incorrect self start_row start_col end_row end_col)
  end.

Definition _is_game_over (self : Env) : bool :=
  bool_decide (size (correct_words self) = length (placed_words self)).

(** ** One turn *)

Definition decrement_tries (self : Env) : Env :=
  {| word_list := word_list self;
     num_words := num_words self;
     num_incorrect_tries := num_incorrect_tries self - 1;
     words := words self;
     directions := directions self;
     highlighted_positions := highlighted_positions self;
     correct_words := correct_words self;
     incorrect_attempts := incorrect_attempts self;
     game_board := game_board self;
     placed_words := placed_words self;
     board := board self |}.

(** The bounds test of [step] on the board held by the framework. *)
Definition in_bounds (grid : Grid) (g : Span) : bool :=
  let '(start_row, start_col, end_row, end_col) := g in
  bool_decide (0 <= start_row < Py.len grid)
  && bool_decide (0 <= start_col < width grid)
  && bool_decide (0 <= end_row < Py.len grid)
  && bool_decide (0 <= end_col < width grid).

(** The call [self._check_word(self.state.game_state["board"], ...)] of [step]. *)
Definition check_guess (self : Env) (g : Span) : option (bool * Env) :=
  let '(start_row, start_col, end_row, end_col) := g in
  _check_word self (board self) start_row start_col end_row end_col.

(** What the body of [for match in matches] did with one guess. *)
Inductive Verdict : Type :=
  | out_of_bounds      (* invalid move, [break] *)
  | already_attempted  (* invalid move, [break] *)
  | incorrect          (* a try is spent, [break] *)
  | correct.           (* the loop goes on *)

#[global] Instance Verdict_eq_dec : EqDecision Verdict.
Proof. solve_decision. Defined.

(** The body of the loop over the matches of one action: the environment
    after it, the calls made on [self.state], and the branch taken. *)
Definition process_match (self : Env) (g : Span)
  : option (Env * list StateCall * Verdict) :=
  if negb (in_bounds (board self) g) then
    Some (self, [set_invalid_move], out_of_bounds)
  else if bool_decide (g ∈ incorrect_attempts self) then
    Some (self, [set_invalid_move], already_attempted)
  else
    '(found, self) ← check_guess self g;
    if found : bool then Some (self, [], correct)
    else
      let self := decrement_tries self in
      Some (self,
            if bool_decide (num_incorrect_tries self = 0) then [set_draw] else [],
            incorrect).

Fixpoint process_matches (self : Env) (matches : list Span)
  : option (Env * list StateCall) :=
  match matches with
  | [] => Some (self, [])
  | g :: rest =>
      '(self, calls, verdict) ← process_match self g;
      match verdict with
      | correct =>
          '(self, calls') ← process_matches self rest;
          Some (self, calls ++ calls')
      | _ => Some (self, calls)
      end
  end.

(** [step]: [matches] are the spans found in the action by the pattern
    [\[(\d+)\s(\d+)\s(\d+)\s(\d+)\]], converted with [int], in the order in
    which the set built from them is iterated. *)
Definition step (self : Env) (matches : list Span) : option (Env * list StateCall) :=
  match matches with
  | [] => Some (self, [set_invalid_move])
  | _ =>
      '(self, calls) ← process_matches self matches;
      Some (self, calls ++ (if _is_game_over self then [set_winners] else []))
  end.

(** ** A concrete generator

    A small deterministic instance of [RandomSource], used to run the
    environment on concrete inputs: the state is a counter, a choice takes
    the item at the counter modulo the length, a shuffle reverses the list
    on odd counters, and a sample takes the first [k] items. *)

Module Lcg.

Definition next (r : nat) : nat := (r * 7 + 3) `mod` 101.

Definition choice {A} (r : nat) (l : list A) : option (A * nat) :=
  x ← l !! (r `mod` length l)%nat; Some (x, next r).

Definition shuffle {A} (r : nat) (l : list A) : list A * nat :=
  (if Nat.odd r then reverse l else l, next r).

Definition sample {A} (r : nat) (l : list A) (k : nat) : option (list A * nat) :=
  if bool_decide (k ≤ length l)%nat then Some (take k l, next r) else None.

#[global] Instance source : RandomSource nat :=
  {| rand_choice := @choice;
     rand_shuffle := @shuffle;
     rand_sample := @sample |}.

End Lcg.

(** ** Reading the grid *)

(** The text read from [(row, col)] along [direction] over [n] cells. *)
Definition read_word (grid : Grid) (direction : Direction) (row col n : Z)
  : option string :=
  Py.join <$> mapM (λ i, match direction with
                         | across => grid_get grid row (col + i)
                         | down => grid_get grid (row + i) col
                         end) (Py.range n).

(** The row lengths of a grid; a square grid of side [n] has [n] rows of
    length [n]. *)
Definition shape (grid : Grid) : list nat := map length grid.

Definition square (n : Z) (grid : Grid) : Prop :=
  Py.len grid = n ∧ ∀ line, line ∈ grid → Py.len line = n.

(** Every row is as long as the first one. *)
Definition rectangular (grid : Grid) : Prop :=
  ∀ line, line ∈ grid → Py.len line = width grid.

(** Cell [(i, j)] counted from the top left corner. *)
Definition cell (grid : Grid) (i j : nat) : option ascii :=
  grid !! i ≫= (.!! j).

(** What filling makes of a cell that held [x]. *)
Definition filled_from (x y : ascii) : Prop :=
  (x ≠ empty_marker ∧ y = x) ∨ (x = empty_marker ∧ y ∈ ascii_uppercase).

(** A word made of letters of [string.ascii_uppercase]. *)
Definition letters_only (word : string) : Prop :=
  Forall (λ il : Z * ascii, il.2 ∈ ascii_uppercase) (Py.enumerate word).

(** A word without the empty marker among its letters. *)
Definition marker_free (word : string) : Prop :=
  Forall (λ il : Z * ascii, il.2 ≠ empty_marker) (Py.enumerate word).

(** ** The vocabulary of the properties *)

(** The grid while the loops of [_fill_empty_cells] run on [grid0]: the cells
    in [P] are filled, the others are as they were. *)
Definition fill_inv {R : Type} (grid0 : Grid) (P : nat → nat → Prop)
    (st : Grid * R) : Prop :=
  shape st.1 = shape grid0
  ∧ ∀ i j x, cell grid0 i j = Some x →
      ∃ y, cell st.1 i j = Some y ∧ (P i j → filled_from x y) ∧ (¬ P i j → y = x).

(** [fits grid w pos]: the anchor is a proper position and the grid holds
    the letters of [w] on the cells [w] covers from it. *)
Definition fits (grid : Grid) (w : string) (pos : Placement) : Prop :=
  0 <= pos.1.1 ∧ 0 <= pos.1.2
  ∧ ∀ r c l, (r, c, l) ∈ word_cells pos.2 pos.1.1 pos.1.2 w →
             grid_get grid r c = Some l.

Definition consistent (grid : Grid) (placed : Py.dict Placement) : Prop :=
  ∀ w pos, (w, pos) ∈ placed → marker_free w ∧ fits grid w pos.

Definition proper_anchor (pos : Placement) : Prop := 0 <= pos.1.1 ∧ 0 <= pos.1.2.

Definition on_grid (grid : Grid) (pos : Placement) : Prop :=
  0 <= pos.1.1 < Py.len grid ∧ 0 <= pos.1.2 < width grid.

(** The number of cells of an axis-aligned span, [0] for any other span. *)
Definition span_length (g : Span) : Z :=
  let '(sr, sc, er, ec) := g in
  if bool_decide (sr = er) then Z.abs (ec - sc) + 1
  else if bool_decide (sc = ec) then Z.abs (er - sr) + 1
  else 0.

(** The cells of a span as [_highlight_word] adds them. *)
Definition span_cells (g : Span) : gset (Z * Z) :=
  let '(sr, sc, er, ec) := g in _highlight_word ∅ sr sc er ec.

(** [run s calls s']: some turns lead from [s] to [s'], and [calls] are the
    calls they made on [self.state], in order. *)
Inductive run : Env → list StateCall → Env → Prop :=
  | run_nil (s : Env) : run s [] s
  | run_step (s s1 s2 : Env) (calls calls1 : list StateCall) (matches : list Span) :
      run s calls s1 → step s1 matches = Some (s2, calls1) →
      run s (calls ++ calls1) s2.

(** [hit grid placed g pw]: on [grid], the span [g] is accepted as the
    entry [pw] of the index [placed]. *)
Definition hit (grid : Grid) (placed : Py.dict Placement) (g : Span) (pw : string) : Prop :=
  let '(sr, sc, er, ec) := g in
  ∃ w pos, _extract_word grid sr sc er ec = Some w
           ∧ first_match placed w sr sc er ec = Some (pw, pos).

(** What stays true of a guess [g] accepted as [pw] on board [b] with index
    [p]: the board and the index are the same, [g] is not logged as
    incorrect, [pw] is found and the cells of [g] are highlighted. *)
Definition accepted (b : Grid) (p : Py.dict Placement) (g : Span) (pw : string)
    (s : Env) : Prop :=
  board s = b ∧ placed_words s = p
  ∧ (g ∉ incorrect_attempts s)
  ∧ pw ∈ correct_words s
  ∧ span_cells g ⊆ highlighted_positions s.

(** Every found word is a key of the index, and the keys are distinct. *)
Definition index_ok (s : Env) : Prop :=
  NoDup (placed_words s).*1
  ∧ correct_words s ⊆ list_to_set (placed_words s).*1.

(** The rounding that the specification names for the side of the grid:
    a half is rounded up. *)
Definition round_half_up_three_halves (m : Z) : Z := (3 * m + 1) / 2.

(** A malformed guess as the specification defines it: coordinates out of
    the bounds of the grid, or a span that is neither purely horizontal nor
    purely vertical. *)
Definition spec_malformed_guess (grid : Grid) (g : Span) : Prop :=
  let '(start_row, start_col, end_row, end_col) := g in
  in_bounds grid g = false ∨ (start_row ≠ end_row ∧ start_col ≠ end_col).

(** ** The remaining methods of the environment *)

(** [_get_positions]: the cells covered by the placed words. *)
Definition _get_positions (self : Env) : gset (Z * Z) :=
  foldl (λ (positions : gset (Z * Z)) (entry : string * Placement),
           let '(word, (row, col, direction)) := entry in
           match direction with
           | across =>
               foldl (λ ps i, {[ (row, col + i) ]} ∪ ps) positions
                     (Py.range (Py.slen word))
           | down =>
               foldl (λ ps i, {[ (row + i, col) ]} ∪ ps) positions
                     (Py.range (Py.slen word))
           end)
        ∅ (placed_words self).

(** [f"{i:02}"] for an index [i]: decimal digits, a zero in front of a single
    digit. *)
Definition fmt02 (i : nat) : string :=
  let digits := pretty i in
  if bool_decide (String.length digits < 2)%nat then "0" +:+ digits else digits.

(** What the inner loop of [_render_board] appends for the cell [(i, j)]. *)
Definition render_cell (highlighted : gset (Z * Z)) (show_words : bool)
    (i j : nat) (val : ascii) : string :=
  if bool_decide ((Z.of_nat i, Z.of_nat j) ∈ highlighted) then
    if show_words then "[" +:+ String val "] " else " " +:+ String val "  "
  else " " +:+ String val "  ".

(** The line of [_render_board] for row [i]. *)
Definition render_row (highlighted : gset (Z * Z)) (show_words : bool)
    (i : nat) (line : list ascii) : string :=
  foldl (λ (row_str : string) (jv : nat * ascii),
           row_str +:+ render_cell highlighted show_words i jv.1 jv.2)
        ("R" +:+ fmt02 i +:+ " ") (imap (λ j val, (j, val)) line).

Definition render_lines (self : Env) (grid : Grid) (show_words : bool) : list string :=
  ("   " +:+ String.concat " " (map (λ i, "C" +:+ fmt02 i) (seq 0 (length grid))))
  :: imap (λ i line, render_row (highlighted_positions self) show_words i line) grid.

Definition newline : string := String (ascii_of_nat 10) EmptyString.

Definition _render_board (self : Env) (grid : Grid) (show_words : bool) : string :=
  String.concat newline (render_lines self grid show_words).

(** A guess with its two ends exchanged. *)
Definition reversed (g : Span) : Span :=
  let '(start_row, start_col, end_row, end_col) := g in
  (end_row, end_col, start_row, start_col).

(** The exact span of a word placed at [(row, col)] along [direction]. *)
Definition word_span (word : string) (pos : Placement) : Span :=
  let '(row, col, direction) := pos in
  match direction with
  | across => (row, col, row, col + Py.slen word - 1)
  | down => (row, col, row + Py.slen word - 1, col)
  end.

(** Longest first. *)
Definition longest_first (ws : list string) : Prop :=
  StronglySorted (λ v w, Py.slen w <= Py.slen v) ws.

(** The bounds test of [_can_place_word]. *)
Definition within (grid : Grid) (w : string) (d : Direction) (row col : Z) : Prop :=
  match d with
  | across => ∃ line0, Py.index grid 0 = Some line0 ∧ col + Py.slen w <= Py.len line0
  | down => row + Py.slen w <= Py.len grid
  end.

(** A cell that does not stand in the way of a letter. *)
Definition free_for (grid : Grid) (cl : Z * Z * ascii) : Prop :=
  grid_get grid cl.1.1 cl.1.2 = Some empty_marker
  ∨ grid_get grid cl.1.1 cl.1.2 = Some cl.2.

(** [stand ws dirs n placed]: every entry of the index [placed] is a word of
    [ws] with the direction that [dirs] assigns to it, anchored at a proper
    position, and all its cells are cells of the square of side [n]. *)
Definition stand (ws : list string) (dirs : Py.dict Direction) (n : Z)
    (placed : Py.dict Placement) : Prop :=
  ∀ w pos, (w, pos) ∈ placed →
    w ∈ ws ∧ Py.get dirs w = Some pos.2 ∧ proper_anchor pos
    ∧ ∀ r c l, (r, c, l) ∈ word_cells pos.2 pos.1.1 pos.1.2 w →
               0 <= r < n ∧ 0 <= c < n.

(** The anchor that [_generate_word_search] computes for the first word:
    the middle row (column) of the grid, the word centred in it. *)
Definition centre (grid_size : Z) (word : string) (direction : Direction) : Placement :=
  match direction with
  | across => (grid_size / 2, (grid_size - Py.slen word) / 2, across)
  | down => ((grid_size - Py.slen word) / 2, grid_size / 2, down)
  end.

(** The log of incorrect attempts of [s] is sound for the board [b] and the
    index [p]: no span is logged twice, and every logged span lies on the
    board and is accepted as no word. *)
Definition log_sound (b : Grid) (p : Py.dict Placement) (s : Env) : Prop :=
  board s = b ∧ placed_words s = p
  ∧ NoDup (incorrect_attempts s)
  ∧ Forall (λ g, in_bounds b g = true ∧ ∀ pw, ¬ hit b p g pw) (incorrect_attempts s).

(** The highlighted cell [(r, c)] lies on the line of the index entry
    [(row, col, d)], at its anchor or behind it. *)
Definition behind_anchor (r c : Z) (pos : Placement) : Prop :=
  match pos.2 with
  | across => r = pos.1.1 ∧ pos.1.2 <= c
  | down => c = pos.1.2 ∧ pos.1.1 <= r
  end.

(** Every highlighted cell of [s] lies on the board [b] and behind the
    anchor of a found word of the index [p]. *)
Definition highlights_sound (b : Grid) (p : Py.dict Placement) (s : Env) : Prop :=
  board s = b ∧ placed_words s = p
  ∧ ∀ r c, (r, c) ∈ highlighted_positions s →
      0 <= r < Py.len b ∧ 0 <= c < width b
      ∧ ∃ pw pos, (pw, pos) ∈ p ∧ pw ∈ correct_words s ∧ behind_anchor r c pos.

(** [shadowed p w]: the word [w] stands in the index [p] behind another key
    that has the same anchor and the same direction. *)
Definition shadowed (p : Py.dict Placement) (w : string) : Prop :=
  ∃ (i j : nat) (w1 : string) (pos : Placement),
    (i < j)%nat ∧ p !! i = Some (w1, pos) ∧ p !! j = Some (w, pos).

(** ** Concrete inputs

    The corpus below, the generator [Lcg] and the generator state [0] give
    [demo_env]: an 8 x 8 board with the five words QUEEN (down from row 1,
    column 4), CAT, DOG and AT (across in row 0, from columns 0, 3 and 1) and
    TOE (down from row 0, column 2).  [demo_found] is [demo_env] after the
    guess from (0, 0) to (0, 2), and [demo_later] is [demo_found] after a turn
    with the guesses from (0, 3) to (0, 5) and from (7, 7) to (7, 7).
    [demo_generated] is the 4 x 4 grid and the index generated for CAT
    (across) and DOG (down). *)

Definition demo_corpus : list string :=
  ["cat"; "dog"; "queen"; "at"; "toe"; "snow"]%string.

Definition demo_env : Env :=
  Eval vm_compute in
    match reset (__init__ demo_corpus) 0%nat with
    | Some (e, _) => e
    | None => __init__ []
    end.

Definition demo_words : list string := ["CAT"; "DOG"]%string.
Definition demo_directions : Py.dict Direction := [("CAT", across); ("DOG", down)]%string.

Definition demo_generated : Grid * Py.dict Placement * nat :=
  Eval vm_compute in
    match generate demo_words demo_directions 0%nat with
    | Some x => x
    | None => ([], [], 0%nat)
    end.

Definition demo_found : Env :=
  Eval vm_compute in record_found demo_env "CAT" 0 0 0 2.

Definition demo_later : Env :=
  Eval vm_compute in
    match step demo_found [(0, 3, 0, 5); (7, 7, 7, 7)] with
    | Some (e, _) => e
    | None => demo_found
    end.

(** A corpus and a generator state for which AT is placed across on the
    anchor of ATE. *)
Definition demo_shadow_corpus : list string := ["ate"; "to"; "at"; "on"; "in"]%string.

Definition demo_shadow_env : Env :=
  Eval vm_compute in
    match reset (__init__ demo_shadow_corpus) 5%nat with
    | Some (e, _) => e
    | None => __init__ []
    end.

Definition demo_shadow_later : Env :=
  Eval vm_compute in
    match step demo_shadow_env [(2, 0, 2, 1)] with
    | Some (e, _) => e
    | None => demo_shadow_env
    end.

(** ** The concrete generator keeps the contracts *)

Lemma lcg_choice_elem (A : Type) (r : nat) (x : A) (xs : list A) :
  ∃ y r', Lcg.choice r (x :: xs) = Some (y, r') ∧ y ∈ x :: xs.
Proof.
  unfold Lcg.choice.
  destruct (lookup_lt_is_Some_2 (x :: xs) (r `mod` length (x :: xs))%nat) as [y Hy].
  { apply Nat.mod_upper_bound. simpl. lia. }
  exists y, (Lcg.next r). rewrite Hy. split; [done|].
  by eapply list_elem_of_lookup_2.
Qed.

Lemma lcg_shuffle_perm (A : Type) (r : nat) (l : list A) : (Lcg.shuffle r l).1 ≡ₚ l.
Proof.
  unfold Lcg.shuffle. simpl. destruct (Nat.odd r); [apply reverse_Permutation | done].
Qed.

Lemma lcg_sample_sub (A : Type) (r r' : nat) (l s : list A) (k : nat) :
  Lcg.sample r l k = Some (s, r') → length s = k ∧ s ⊆+ l.
Proof.
  unfold Lcg.sample. case_bool_decide; [|done]. intros [= <- <-]. split.
  - rewrite length_take. lia.
  - apply sublist_submseteq, sublist_take.
Qed.

Lemma lcg_sample_total (A : Type) (r : nat) (l : list A) (k : nat) :
  (k ≤ length l)%nat → is_Some (Lcg.sample r l k).
Proof. intros Hk. unfold Lcg.sample. by rewrite bool_decide_eq_true_2. Qed.

#[global] Instance lcg_laws : RandomLaws nat.
Proof.
  split.
  - apply lcg_choice_elem.
  - apply lcg_shuffle_perm.
  - apply lcg_sample_sub.
  - apply lcg_sample_total.
Qed.

(** ** Python sequences: lemmas *)

Lemma norm_nonneg (n : nat) (i : Z) :
  0 <= i → Py.norm n i = if decide (i < Z.of_nat n) then Some (Z.to_nat i) else None.
Proof.
  intros Hi. unfold Py.norm. repeat case_decide; try done; lia.
Qed.

Lemma index_nonneg {A} (l : list A) (i : Z) :
  0 <= i → Py.index l i = l !! Z.to_nat i.
Proof.
  intros Hi. unfold Py.index. rewrite norm_nonneg by done.
  case_decide; simpl; [done|].
  symmetry. apply lookup_ge_None. lia.
Qed.

Lemma setitem_nonneg {A} (l : list A) (i : Z) (x : A) :
  0 <= i →
  Py.setitem l i x =
    if decide (i < Py.len l) then Some (<[Z.to_nat i := x]> l) else None.
Proof.
  intros Hi. unfold Py.setitem, Py.len. rewrite norm_nonneg by done.
  by case_decide.
Qed.

Lemma range2_nil (a b : Z) : b <= a → Py.range2 a b = [].
Proof. intros H. unfold Py.range2. by replace (Z.to_nat (b - a)) with 0%nat by lia. Qed.

Lemma range2_cons (a b : Z) : a < b → Py.range2 a b = a :: Py.range2 (a + 1) b.
Proof.
  intros H. unfold Py.range2.
  replace (Z.to_nat (b - a)) with (S (Z.to_nat (b - (a + 1)))) by lia.
  simpl. f_equal; [lia|].
  rewrite <- seq_shift, map_map. apply map_ext. intros k. lia.
Qed.

Lemma elem_of_range2 (a b k : Z) : k ∈ Py.range2 a b ↔ a <= k < b.
Proof.
  unfold Py.range2. rewrite list_elem_of_fmap. split.
  - intros (n & -> & Hn). apply elem_of_seq in Hn. lia.
  - intros Hk. exists (Z.to_nat (k - a)). split; [lia|]. apply elem_of_seq. lia.
Qed.

Lemma length_range2 (a b : Z) : length (Py.range2 a b) = Z.to_nat (b - a).
Proof. unfold Py.range2. by rewrite length_map, length_seq. Qed.

(** Loops over [range(a, b)] with an invariant indexed by the loop variable. *)
Lemma for_each_range {S : Type} (I : Z → S → Prop) (body : S → Z → option S)
    (a b : Z) (s : S) :
  a <= b → I a s →
  (∀ k s, a <= k < b → I k s → ∃ s', body s k = Some s' ∧ I (k + 1) s') →
  ∃ s', Py.for_each body s (Py.range2 a b) = Some s' ∧ I b s'.
Proof.
  intros Hab. remember (Z.to_nat (b - a)) as n eqn:Hn.
  revert a s Hab Hn. induction n as [|n IH]; intros a s Hab Hn Ha Hbody.
  - assert (a = b) as -> by lia. rewrite range2_nil by lia. simpl. eauto.
  - rewrite range2_cons by lia. simpl.
    destruct (Hbody a s) as (s1 & -> & H1); [lia|done|]. simpl.
    apply IH; [lia|lia|done|]. intros k s2 Hk. apply Hbody. lia.
Qed.

(** Loops over a list with an invariant on the state. *)
Lemma for_each_inv {A S : Type} (I : S → Prop) (body : S → A → option S)
    (l : list A) (s s' : S) :
  (∀ s x s', x ∈ l → I s → body s x = Some s' → I s') →
  I s → Py.for_each body s l = Some s' → I s'.
Proof.
  revert s. induction l as [|x l IH]; intros s Hbody Hs; simpl.
  - by intros [= <-].
  - destruct (body s x) as [s1|] eqn:E; [|done]. simpl.
    apply IH.
    + intros s2 y s3 Hy. apply Hbody. by right.
    + eapply Hbody; [by left|done..].
Qed.

Lemma for_each_total {A S : Type} (I : S → Prop) (body : S → A → option S)
    (l : list A) (s : S) :
  (∀ s x, x ∈ l → I s → ∃ s', body s x = Some s' ∧ I s') →
  I s → ∃ s', Py.for_each body s l = Some s' ∧ I s'.
Proof.
  revert s. induction l as [|x l IH]; intros s Hbody Hs; simpl; [eauto|].
  destruct (Hbody s x) as (s1 & -> & H1); [by left|done|]. simpl.
  apply IH; [|done]. intros s2 y Hy. apply Hbody. by right.
Qed.

(** ** Grid cells: lemmas *)

Lemma grid_get_nonneg (grid : Grid) (r c : Z) :
  0 <= r → 0 <= c →
  grid_get grid r c = grid !! Z.to_nat r ≫= (.!! Z.to_nat c).
Proof.
  intros Hr Hc. unfold grid_get. rewrite index_nonneg by done.
  destruct (grid !! Z.to_nat r) as [line|]; simpl; [|done].
  by rewrite index_nonneg.
Qed.

Lemma grid_set_nonneg (grid grid' : Grid) (r c : Z) (x : ascii) :
  0 <= r → 0 <= c → grid_set grid r c x = Some grid' →
  ∃ line, grid !! Z.to_nat r = Some line ∧ (Z.to_nat c < length line)%nat
          ∧ grid' = <[Z.to_nat r := <[Z.to_nat c := x]> line]> grid.
Proof.
  intros Hr Hc. unfold grid_set. rewrite index_nonneg by done.
  destruct (grid !! Z.to_nat r) as [line|] eqn:E; simpl; [|done].
  rewrite (setitem_nonneg line) by done. unfold Py.len.
  destruct (decide (c < Z.of_nat (length line))); simpl; [|done].
  rewrite (setitem_nonneg grid) by done.
  destruct (decide (r < Py.len grid)); [|done].
  intros [= <-]. exists line. split_and!; [done|lia|done].
Qed.

Lemma grid_set_total (grid : Grid) (r c : Z) (x : ascii) :
  0 <= r → 0 <= c → is_Some (grid_get grid r c) → is_Some (grid_set grid r c x).
Proof.
  intros Hr Hc. rewrite grid_get_nonneg by done. unfold grid_set.
  rewrite index_nonneg by done.
  destruct (grid !! Z.to_nat r) as [line|] eqn:E; simpl; [|by intros [? ?]].
  intros [y Hy]. apply lookup_lt_Some in Hy.
  apply lookup_lt_Some in E as Hr'.
  rewrite (setitem_nonneg line) by done. unfold Py.len.
  rewrite decide_True by lia. simpl.
  rewrite (setitem_nonneg grid) by done. unfold Py.len.
  rewrite decide_True by lia. done.
Qed.

Lemma grid_set_shape (grid grid' : Grid) (r c : Z) (x : ascii) :
  0 <= r → 0 <= c → grid_set grid r c x = Some grid' → shape grid' = shape grid.
Proof.
  intros Hr Hc H. apply grid_set_nonneg in H as (line & Hl & _ & ->); [|done..].
  unfold shape. rewrite list_fmap_insert, length_insert.
  apply list_insert_id. by rewrite list_lookup_fmap, Hl.
Qed.

Lemma grid_set_get (grid grid' : Grid) (r c r' c' : Z) (x : ascii) :
  0 <= r → 0 <= c → 0 <= r' → 0 <= c' →
  grid_set grid r c x = Some grid' →
  grid_get grid' r' c' =
    if decide (r' = r ∧ c' = c) then Some x else grid_get grid r' c'.
Proof.
  intros Hr Hc Hr' Hc' H.
  apply grid_set_nonneg in H as (line & Hl & Hlt & ->); [|done..].
  rewrite !grid_get_nonneg by done.
  apply lookup_lt_Some in Hl as Hrl.
  destruct (decide (Z.to_nat r' = Z.to_nat r)) as [E|E].
  - rewrite E, list_lookup_insert_eq by done. simpl.
    destruct (decide (Z.to_nat c' = Z.to_nat c)) as [E'|E'].
    + rewrite E', list_lookup_insert_eq by done.
      rewrite decide_True; [done|lia].
    + rewrite list_lookup_insert_ne by done.
      rewrite decide_False by lia. by rewrite Hl.
  - rewrite list_lookup_insert_ne by done.
    rewrite decide_False; [done|lia].
Qed.

(** ** Filling the empty cells *)

Lemma grid_get_cell (grid : Grid) (r c : Z) :
  0 <= r → 0 <= c → grid_get grid r c = cell grid (Z.to_nat r) (Z.to_nat c).
Proof. apply grid_get_nonneg. Qed.

Lemma grid_set_cell (grid grid' : Grid) (r c : Z) (x : ascii) (i j : nat) :
  0 <= r → 0 <= c → grid_set grid r c x = Some grid' →
  cell grid' i j =
    if decide (i = Z.to_nat r ∧ j = Z.to_nat c) then Some x else cell grid i j.
Proof.
  intros Hr Hc H.
  apply grid_set_nonneg in H as (line & Hl & Hlt & ->); [|done..].
  unfold cell. apply lookup_lt_Some in Hl as Hrl.
  destruct (decide (i = Z.to_nat r)) as [->|E].
  - rewrite list_lookup_insert_eq by done. simpl.
    destruct (decide (j = Z.to_nat c)) as [->|E'].
    + rewrite list_lookup_insert_eq by done. by rewrite decide_True.
    + rewrite list_lookup_insert_ne by done.
      rewrite decide_False by (intros [_ ?]; done). by rewrite Hl.
  - rewrite list_lookup_insert_ne by done.
    by rewrite decide_False by (intros [? _]; done).
Qed.

Lemma marker_not_uppercase : empty_marker ∉ ascii_uppercase.
Proof. apply (bool_decide_unpack _). by vm_compute. Qed.

Lemma filled_from_no_marker (x y : ascii) : filled_from x y → y ≠ empty_marker.
Proof.
  intros [[Hx ->]|[_ Hy]]; [done|]. intros ->. by apply marker_not_uppercase.
Qed.

Lemma shape_width (g g' : Grid) : shape g' = shape g → width g' = width g.
Proof.
  unfold shape, width, Py.len. destruct g, g'; simpl; try done. by intros [= -> _].
Qed.

Lemma shape_len (g g' : Grid) : shape g' = shape g → Py.len g' = Py.len g.
Proof.
  unfold shape, Py.len. intros H. apply (f_equal length) in H.
  rewrite !length_map in H. lia.
Qed.

Lemma rectangular_cell (grid : Grid) (i j : nat) :
  rectangular grid →
  is_Some (cell grid i j) ↔ Z.of_nat i < Py.len grid ∧ Z.of_nat j < width grid.
Proof.
  intros Hrect. unfold cell, Py.len. split.
  - intros [x Hx]. destruct (grid !! i) as [line|] eqn:E; simpl in Hx; [|done].
    apply lookup_lt_Some in E as Hi. apply lookup_lt_Some in Hx.
    rewrite <- (Hrect line) by (by eapply list_elem_of_lookup_2).
    unfold Py.len. lia.
  - intros [Hi Hj].
    destruct (lookup_lt_is_Some_2 grid i) as [line E]; [lia|].
    rewrite E. simpl. apply lookup_lt_is_Some_2.
    assert (Py.len line = width grid) as H
      by (apply Hrect; by eapply list_elem_of_lookup_2).
    unfold Py.len in H. lia.
Qed.

Section Fill.
Context {R : Type} `{!RandomSource R, !RandomLaws R}.
Variable grid0 : Grid.
Hypothesis rect0 : rectangular grid0.

Lemma fill_inv_weaken (P Q : nat → nat → Prop) (st : Grid * R) :
  (∀ i j, is_Some (cell grid0 i j) → P i j ↔ Q i j) →
  fill_inv grid0 P st → fill_inv grid0 Q st.
Proof.
  intros HPQ [Hs Hc]. split; [done|]. intros i j x Hx.
  destruct (Hc i j x Hx) as (y & Hy & HP & HnP). exists y.
  split; [done|]. rewrite <- HPQ by eauto. done.
Qed.

Lemma fill_cell_step (k m : Z) (st : Grid * R) :
  0 <= k < Py.len grid0 → 0 <= m < width grid0 →
  fill_inv grid0 (λ i j, Z.of_nat i < k ∨ (Z.of_nat i = k ∧ Z.of_nat j < m)) st →
  ∃ st', fill_cell k m st = Some st'
         ∧ fill_inv grid0 (λ i j, Z.of_nat i < k ∨ (Z.of_nat i = k ∧ Z.of_nat j < m + 1)) st'.
Proof.
  intros Hk Hm [Hs Hc]. destruct st as [g rng]. simpl in *.
  destruct (proj2 (rectangular_cell grid0 (Z.to_nat k) (Z.to_nat m) rect0))
    as [x Hx]; [lia|].
  destruct (Hc _ _ _ Hx) as (y & Hy & _ & Hyx).
  rewrite Hyx in Hy by lia. clear Hyx y.
  rewrite grid_get_cell, Hy by lia. simpl.
  case_bool_decide as Hmark.
  - unfold ascii_uppercase. simpl.
    destruct (rand_choice_elem ascii rng "A"%char
                (list_ascii_of_string "BCDEFGHIJKLMNOPQRSTUVWXYZ"))
      as (letter & rng' & Hch & Hin).
    simpl in Hch. rewrite Hch. simpl.
    destruct (grid_set_total g k m letter) as [g' Hg'];
      [lia|lia|rewrite grid_get_cell, Hy by lia; eauto|].
    rewrite Hg'. simpl. eexists. split; [done|]. split; simpl.
    + erewrite grid_set_shape; [done| | |done]; lia.
    + intros i j x' Hx'. destruct (Hc _ _ _ Hx') as (y & Hy' & HP & HnP).
      rewrite (grid_set_cell g g' k m letter) by (done || lia).
      case_decide as Heq.
      * destruct Heq as [-> ->]. simplify_eq.
        exists letter. split; [done|]. split; [|lia].
        intros _. right. done.
      * exists y. split; [done|]. split.
        -- intros HP'. apply HP. lia.
        -- intros HnP'. apply HnP. lia.
  - eexists. split; [done|]. split; [done|]. simpl.
    intros i j x' Hx'. destruct (Hc _ _ _ Hx') as (y & Hy' & HP & HnP).
    exists y. split; [done|]. split.
    + intros HP'.
      destruct (decide (i = Z.to_nat k ∧ j = Z.to_nat m)) as [[-> ->]|Hne].
      * simplify_eq. by left.
      * apply HP. lia.
    + intros HnP'. apply HnP. lia.
Qed.

Lemma fill_row_step (k : Z) (st : Grid * R) :
  0 <= k < Py.len grid0 →
  fill_inv grid0 (λ i j, Z.of_nat i < k) st →
  ∃ st', Py.for_each (λ st col, fill_cell k col st) st (Py.range (width st.1))
         = Some st'
         ∧ fill_inv grid0 (λ i j, Z.of_nat i < k + 1) st'.
Proof.
  intros Hk Hinv.
  assert (width st.1 = width grid0) as -> by (apply shape_width, Hinv).
  assert (0 <= width grid0) as Hw by (unfold width, Py.len; destruct grid0; lia).
  destruct (for_each_range
              (λ m, fill_inv grid0 (λ i j, Z.of_nat i < k
                                      ∨ (Z.of_nat i = k ∧ Z.of_nat j < m)))
              (λ st col, fill_cell k col st) 0 (width grid0) st)
    as (st' & Hst' & Hinv'); [done| |by intros; apply fill_cell_step|].
  - eapply fill_inv_weaken; [|done]. intros i j _. simpl. lia.
  - exists st'. split; [done|]. eapply fill_inv_weaken; [|done].
    intros i j Hij. apply (rectangular_cell _ _ _ rect0) in Hij. simpl. lia.
Qed.

Lemma fill_spec (rng : R) :
  ∃ st', _fill_empty_cells grid0 rng = Some st'
         ∧ fill_inv grid0 (λ i j, True) st'.
Proof.
  destruct (for_each_range (λ k, fill_inv grid0 (λ i j, Z.of_nat i < k))
              (λ st row, Py.for_each (λ st col, fill_cell row col st) st
                                     (Py.range (width st.1)))
              0 (Py.len grid0) (grid0, rng))
    as (st' & Hst' & Hinv'); [unfold Py.len; lia| |by intros; apply fill_row_step|].
  - split; [done|]. intros i j x Hx. exists x. split; [done|]. split; [lia|done].
  - exists st'. split; [done|]. eapply fill_inv_weaken; [|done].
    intros i j Hij. apply (rectangular_cell _ _ _ rect0) in Hij. simpl. lia.
Qed.

End Fill.




(** ** Words and their cells *)

Lemma elem_of_enumerate_from (i k : Z) (x : ascii) (s : string) :
  (k, x) ∈ Py.enumerate_from i s → i <= k < i + Py.slen s.
Proof.
  revert i. induction s as [|c s IH]; intros i; simpl.
  - by intros ?%elem_of_nil.
  - unfold Py.slen. simpl String.length.
    intros [[= -> ->]|H%IH]%elem_of_cons; unfold Py.slen in *; lia.
Qed.

Lemma enumerate_from_functional (i k : Z) (x y : ascii) (s : string) :
  (k, x) ∈ Py.enumerate_from i s → (k, y) ∈ Py.enumerate_from i s → x = y.
Proof.
  revert i. induction s as [|c s IH]; intros i; simpl.
  - by intros ?%elem_of_nil.
  - intros [[= -> ->]|Hx]%elem_of_cons [[= ->]|Hy]%elem_of_cons.
    + done.
    + apply elem_of_enumerate_from in Hy. lia.
    + apply elem_of_enumerate_from in Hx. lia.
    + by eapply IH.
Qed.

Lemma elem_of_word_cells (d : Direction) (row col r c : Z) (l : ascii) (w : string) :
  (r, c, l) ∈ word_cells d row col w ↔
  ∃ i, (i, l) ∈ Py.enumerate w
       ∧ (r, c) = match d with across => (row, col + i) | down => (row + i, col) end.
Proof.
  unfold word_cells. rewrite list_elem_of_fmap. split.
  - intros ([i x] & E & Hin). exists i. destruct d; simpl in E; by simplify_eq.
  - intros (i & Hin & E). exists (i, l). split; [|done].
    destruct d; simpl; by simplify_eq.
Qed.

Lemma word_cells_nonneg (d : Direction) (row col r c : Z) (l : ascii) (w : string) :
  0 <= row → 0 <= col → (r, c, l) ∈ word_cells d row col w → 0 <= r ∧ 0 <= c.
Proof.
  intros Hrow Hcol (i & Hi & E)%elem_of_word_cells.
  apply elem_of_enumerate_from in Hi. destruct d; simplify_eq; lia.
Qed.

Lemma word_cells_functional (d : Direction) (row col r c : Z) (l l' : ascii) (w : string) :
  (r, c, l) ∈ word_cells d row col w → (r, c, l') ∈ word_cells d row col w → l = l'.
Proof.
  intros (i & Hi & E)%elem_of_word_cells (i' & Hi' & E')%elem_of_word_cells.
  assert (i = i') as -> by (destruct d; simplify_eq; lia).
  by eapply enumerate_from_functional.
Qed.

(** ** Legality and placement *)

Lemma cells_free_true (grid : Grid) (cells : list (Z * Z * ascii)) :
  cells_free grid cells = Some true →
  ∀ r c l, (r, c, l) ∈ cells →
    ∃ x, grid_get grid r c = Some x ∧ (x = empty_marker ∨ x = l).
Proof.
  induction cells as [|[[r0 c0] l0] cells IH]; simpl.
  - intros _ r c l ?%elem_of_nil. done.
  - destruct (grid_get grid r0 c0) as [x|] eqn:E; simpl; [|done].
    destruct (bool_decide (x ≠ empty_marker) && bool_decide (x ≠ l0)) eqn:B; [done|].
    intros H r c l [[= -> -> ->]|Hin]%elem_of_cons; [|by apply IH].
    exists x. split; [done|].
    apply andb_false_iff in B as [B|B]; apply bool_decide_eq_false in B.
    + left. by destruct (decide (x = empty_marker)).
    + right. by destruct (decide (x = l0)).
Qed.

Lemma can_place_true (grid : Grid) (w : string) (d : Direction) (row col : Z) :
  _can_place_word grid w d row col = Some true →
  cells_free grid (word_cells d row col w) = Some true.
Proof.
  unfold _can_place_word. destruct d.
  - destruct (Py.index grid 0); simpl; [|done]. by case_bool_decide.
  - by case_bool_decide.
Qed.

(** Writing a list of cells: every cell of the result is a cell of the grid
    before or one of the written ones. *)
Lemma write_cells_frame (cells : list (Z * Z * ascii)) (grid grid' : Grid) :
  (∀ r c l, (r, c, l) ∈ cells → 0 <= r ∧ 0 <= c) →
  Py.for_each (λ (g : Grid) (cl : Z * Z * ascii),
                 let '(r, c, letter) := cl in grid_set g r c letter) grid cells
  = Some grid' →
  shape grid' = shape grid
  ∧ ∀ i j, cell grid' i j = cell grid i j
           ∨ ∃ r c l, (r, c, l) ∈ cells ∧ i = Z.to_nat r ∧ j = Z.to_nat c
                      ∧ cell grid' i j = Some l.
Proof.
  revert grid. induction cells as [|[[r0 c0] l0] cells IH]; intros grid Hnn; simpl.
  - intros [= <-]. split; [done|]. intros i j. by left.
  - destruct (grid_set grid r0 c0 l0) as [g1|] eqn:E; simpl; [|done].
    destruct (Hnn r0 c0 l0) as [Hr0 Hc0]; [by left|].
    intros H. apply IH in H as [Hs Hc]; [|intros; apply (Hnn r c l); by right].
    split; [rewrite Hs; by apply (grid_set_shape grid g1 r0 c0 l0)|].
    intros i j. destruct (Hc i j) as [E'|(r & c & l & Hin & -> & -> & Hl)].
    + rewrite (grid_set_cell grid g1 r0 c0 l0) in E' by done.
      case_decide as Heq; [|by left].
      destruct Heq as [-> ->]. right. exists r0, c0, l0. split; [by left|done].
    + right. exists r, c, l. split; [by right|done].
Qed.

(** When the coordinates determine the letter, every written cell reads
    its letter afterwards. *)
Lemma write_cells_reads (cells : list (Z * Z * ascii)) (grid grid' : Grid) :
  (∀ r c l, (r, c, l) ∈ cells → 0 <= r ∧ 0 <= c) →
  (∀ r c l l', (r, c, l) ∈ cells → (r, c, l') ∈ cells → l = l') →
  Py.for_each (λ (g : Grid) (cl : Z * Z * ascii),
                 let '(r, c, letter) := cl in grid_set g r c letter) grid cells
  = Some grid' →
  ∀ r c l, (r, c, l) ∈ cells → grid_get grid' r c = Some l.
Proof.
  revert grid. induction cells as [|[[r0 c0] l0] cells IH]; intros grid Hnn Hfun; simpl.
  - intros _ r c l ?%elem_of_nil. done.
  - destruct (grid_set grid r0 c0 l0) as [g1|] eqn:E; simpl; [|done].
    intros H r c l [[= -> -> ->]|Hin]%elem_of_cons.
    + destruct (Hnn r0 c0 l0) as [Hr0 Hc0]; [by left|].
      rewrite grid_get_cell by done.
      apply write_cells_frame in H as [_ Hc]; [|intros; apply (Hnn r c l); by right].
      destruct (Hc (Z.to_nat r0) (Z.to_nat c0)) as [->|(r & c & l & Hin & Er & Ec & ->)].
      * rewrite (grid_set_cell grid g1 r0 c0 l0) by done. by rewrite decide_True.
      * destruct (Hnn r c l) as [Hr Hc']; [by right|].
        assert (r = r0) as -> by lia. assert (c = c0) as -> by lia.
        f_equal. eapply Hfun; [by right|by left].
    + eapply IH; [| |done..].
      * intros r' c' l' ?. apply (Hnn r' c' l'). by right.
      * intros r' c' l1 l2 ? ?. eapply Hfun; by right.
Qed.

(** What a successful [place_first] did. *)
Lemma place_first_Some (grid grid' : Grid) (w : string) (cands : list Placement)
    (pos : Placement) :
  place_first grid w cands = Some (Some (grid', pos)) →
  pos ∈ cands
  ∧ _can_place_word grid w pos.2 pos.1.1 pos.1.2 = Some true
  ∧ _place_word_on_grid grid w pos.2 pos.1.1 pos.1.2 = Some grid'.
Proof.
  induction cands as [|[[row col] d] cands IH]; simpl; [done|].
  destruct (_can_place_word grid w d row col) as [[|]|] eqn:E; simpl; [| |done].
  - destruct (_place_word_on_grid grid w d row col) as [g1|] eqn:E'; simpl; [|done].
    intros [= <- <-]. simpl. split; [by left|done].
  - intros H. destruct (IH H) as (Hin & ?). split; [by right|done].
Qed.

(** ** The placement invariant *)

Lemma elem_of_dict_set {V} (d : Py.dict V) (k k0 : string) (v v0 : V) :
  (k, v) ∈ Py.set d k0 v0 → (k, v) = (k0, v0) ∨ (k, v) ∈ d.
Proof.
  induction d as [|[k1 v1] d IH]; simpl.
  - intros [->|?%elem_of_nil]%elem_of_cons; [by left|done].
  - case_decide as E.
    + subst k1. intros [[= -> ->]|H]%elem_of_cons; [by left|]. right. by right.
    + intros [->|H]%elem_of_cons; [right; by left|].
      destruct (IH H) as [?|?]; [by left|]. right. by right.
Qed.

Lemma word_cells_marker_free (d : Direction) (row col r c : Z) (l : ascii) (w : string) :
  marker_free w → (r, c, l) ∈ word_cells d row col w → l ≠ empty_marker.
Proof.
  intros Hw (i & Hi & _)%elem_of_word_cells.
  unfold marker_free in Hw. rewrite Forall_forall in Hw. apply (Hw (i, l) Hi).
Qed.

Lemma place_consistent (grid grid' : Grid) (placed : Py.dict Placement)
    (w : string) (pos : Placement) :
  consistent grid placed → marker_free w → proper_anchor pos →
  _can_place_word grid w pos.2 pos.1.1 pos.1.2 = Some true →
  _place_word_on_grid grid w pos.2 pos.1.1 pos.1.2 = Some grid' →
  shape grid' = shape grid ∧ consistent grid' (Py.set placed w pos).
Proof.
  destruct pos as [[row col] d]. simpl.
  intros Hcons Hw [Hrow Hcol] Hcan Hplace. simpl in *.
  apply can_place_true in Hcan.
  pose proof (cells_free_true _ _ Hcan) as Hfree.
  assert (∀ r c l, (r, c, l) ∈ word_cells d row col w → 0 <= r ∧ 0 <= c) as Hnn
      by (intros r c l; by apply word_cells_nonneg).
  unfold _place_word_on_grid in Hplace.
  destruct (write_cells_frame _ _ _ Hnn Hplace) as [Hshape Hframe].
  split; [done|].
  intros w' pos' [[= -> ->]|Hold]%elem_of_dict_set.
  - split; [done|]. split_and!; [done..|]. simpl.
    eapply write_cells_reads; [done| |done].
    intros r c l l'. apply word_cells_functional.
  - destruct (Hcons _ _ Hold) as (Hw' & Hr' & Hc' & Hread).
    split; [done|]. split_and!; [done..|].
    intros r c l Hin. specialize (Hread r c l Hin).
    destruct (word_cells_nonneg _ _ _ _ _ _ _ Hr' Hc' Hin) as [Hr Hc].
    rewrite grid_get_cell in Hread |- * by done.
    destruct (Hframe (Z.to_nat r) (Z.to_nat c))
      as [->|(r1 & c1 & l1 & Hin1 & Er & Ec & ->)]; [done|].
    destruct (Hnn _ _ _ Hin1) as [Hr1 Hc1].
    destruct (Hfree _ _ _ Hin1) as (x & Hx & Hx').
    rewrite grid_get_cell, <- Er, <- Ec, Hread in Hx by done.
    injection Hx as <-. destruct Hx' as [->| ->]; [|done].
    by apply word_cells_marker_free in Hin.
Qed.

Lemma place_first_consistent (grid grid' : Grid) (placed : Py.dict Placement)
    (w : string) (cands : list Placement) (pos : Placement) :
  consistent grid placed → marker_free w → Forall proper_anchor cands →
  place_first grid w cands = Some (Some (grid', pos)) →
  shape grid' = shape grid ∧ consistent grid' (Py.set placed w pos).
Proof.
  intros Hcons Hw Hcands (Hin & Hcan & Hplace)%place_first_Some.
  eapply place_consistent; [done..| |done|done].
  by eapply Forall_forall in Hcands.
Qed.

(** ** Overlap candidates lie on the grid *)

Lemma overlap_at_on_grid (w : string) (grid : Grid) (dirs : Py.dict Direction)
    (p_row p_col : Z) (p_d : Direction) (i j : Z) (overlaps overlaps' : list Placement) :
  Forall (on_grid grid) overlaps →
  overlap_at w grid dirs p_row p_col p_d i j overlaps = Some overlaps' →
  Forall (on_grid grid) overlaps'.
Proof.
  intros Hall. unfold overlap_at.
  destruct p_d; (destruct (Py.get dirs w) as [d|]; cbn -[_can_place_word]; [|done]);
    (destruct (_ && _) eqn:B; [|by intros [= <-]]);
    apply andb_true_iff in B as [[_ Hr%bool_decide_eq_true]%andb_true_iff
                                   Hc%bool_decide_eq_true];
    (match goal with
     | |- context [_can_place_word ?g ?w' ?d' ?r ?c] =>
         destruct (_can_place_word g w' d' r c) as [[|]|]; cbn; [| |done]
     end);
    intros [= <-]; try done;
    (apply Forall_app; split; [done|]); apply Forall_singleton; by split.
Qed.

Lemma find_overlaps_on_grid (placed : Py.dict Placement) (w : string) (grid : Grid)
    (dirs : Py.dict Direction) (overlaps : list Placement) :
  _find_overlaps placed w grid dirs = Some overlaps → Forall (on_grid grid) overlaps.
Proof.
  unfold _find_overlaps.
  apply (for_each_inv (Forall (on_grid grid))); [|done].
  intros o1 [pw [[p_row p_col] p_d]] o1' _ H1.
  apply (for_each_inv (Forall (on_grid grid))); [|done].
  intros o2 il o2' _ H2.
  apply (for_each_inv (Forall (on_grid grid))); [|done].
  intros o3 jl o3' _ H3. case_bool_decide; [|by intros [= <-]].
  by apply overlap_at_on_grid.
Qed.

Lemma on_grid_proper (grid : Grid) (pos : Placement) : on_grid grid pos → proper_anchor pos.
Proof. unfold on_grid, proper_anchor. lia. Qed.

(** ** The size of the grid *)

Lemma foldl_max_spec (l : list Z) (a : Z) :
  (foldl Z.max a l = a ∨ foldl Z.max a l ∈ l)
  ∧ a <= foldl Z.max a l ∧ ∀ x, x ∈ l → x <= foldl Z.max a l.
Proof.
  revert a. induction l as [|y l IH]; intros a; simpl.
  - split; [by left|]. split; [lia|]. by intros x ?%elem_of_nil.
  - destruct (IH (Z.max a y)) as ([E|E] & Hle & Hall).
    + split; [|split; [lia|]].
      * rewrite E. destruct (Z.max_spec a y) as [[_ ->]|[_ ->]]; [right; by left|by left].
      * intros x [->|Hx]%elem_of_cons; [lia|by apply Hall].
    + split; [right; by right|]. split; [lia|].
      intros x [->|Hx]%elem_of_cons; [lia|by apply Hall].
Qed.

Lemma py_max_spec (l : list Z) (m : Z) :
  Py.max l = Some m → m ∈ l ∧ ∀ x, x ∈ l → x <= m.
Proof.
  destruct l as [|a l]; simpl; [done|]. intros [= <-].
  destruct (foldl_max_spec l a) as ([E|E] & Hle & Hall).
  - split; [rewrite E; by left|]. intros x [->|Hx]%elem_of_cons; [done|by apply Hall].
  - split; [by right|]. intros x [->|Hx]%elem_of_cons; [done|by apply Hall].
Qed.

Lemma round_three_halves_ge (m : Z) : 0 <= m → m <= Py.round_three_halves m.
Proof.
  intros Hm. unfold Py.round_three_halves.
  pose proof (Z.div_mod (3 * m) 2). pose proof (Z.mod_pos_bound (3 * m) 2).
  repeat case_match; lia.
Qed.

(** [round_three_halves m] is the integer nearest to [3m/2], and the even
    one of the two nearest when [3m/2] lies halfway between them. *)
Lemma round_three_halves_nearest_even (m : Z) :
  let n := Py.round_three_halves m in
  Z.abs (2 * n - 3 * m) <= 1 ∧ (Z.abs (2 * n - 3 * m) = 1 → Z.even n = true).
Proof.
  unfold Py.round_three_halves.
  pose proof (Z.div_mod (3 * m) 2). pose proof (Z.mod_pos_bound (3 * m) 2).
  destruct (Z.even (3 * m)) eqn:E3.
  - apply Z.even_spec in E3 as [k Hk]. rewrite Hk in *.
    replace (2 * k / 2) with k by (rewrite Z.mul_comm, Z.div_mul; lia). lia.
  - assert ((3 * m) `mod` 2 = 1) as Hodd.
    { rewrite <- Z.negb_odd in E3. apply negb_false_iff in E3.
      apply Z.odd_spec in E3 as [k Hk]. rewrite Hk.
      rewrite Z.add_comm, Z.mul_comm, Z.mod_add; [done|lia]. }
    destruct (Z.even (3 * m / 2)) eqn:Eq; simpl.
    + split; [lia|done].
    + split; [lia|]. intros _. rewrite Z.even_add, Eq. done.
Qed.

Lemma grid_size_spec (ws : list string) (gs : Z) :
  _determine_initial_grid_size ws = Some gs →
  0 <= gs ∧ ∀ w, w ∈ ws → Py.slen w <= gs.
Proof.
  unfold _determine_initial_grid_size.
  destruct (Py.max (map Py.slen ws)) as [m|] eqn:E; simpl; [|done].
  intros [= <-]. apply py_max_spec in E as [Hin Hall].
  assert (0 <= m).
  { apply list_elem_of_fmap in Hin as (w & -> & _). unfold Py.slen. lia. }
  pose proof (round_three_halves_ge m). split; [lia|].
  intros w Hw. specialize (Hall (Py.slen w)).
  rewrite list_elem_of_fmap in Hall. specialize (Hall (ex_intro _ w (conj eq_refl Hw))).
  lia.
Qed.

Lemma shape_empty_grid (gs : Z) :
  shape (_create_empty_grid gs) = replicate (Z.to_nat gs) (Z.to_nat gs).
Proof.
  unfold shape, _create_empty_grid. rewrite fmap_replicate. by rewrite length_replicate.
Qed.

Lemma shape_square (gs : Z) (grid : Grid) :
  0 <= gs → shape grid = replicate (Z.to_nat gs) (Z.to_nat gs) → square gs grid.
Proof.
  intros Hgs Hs. split.
  - unfold Py.len. apply (f_equal length) in Hs. unfold shape in Hs.
    rewrite length_map, length_replicate in Hs. lia.
  - intros line Hline. unfold Py.len.
    assert (length line ∈ shape grid) as Hin by (by apply list_elem_of_fmap_2).
    rewrite Hs in Hin. apply elem_of_replicate in Hin as [-> _]. lia.
Qed.

Lemma square_rectangular (gs : Z) (grid : Grid) : square gs grid → rectangular grid.
Proof.
  intros [Hlen Hlines] line Hline. rewrite (Hlines line Hline).
  destruct grid as [|l0 grid]; [by apply elem_of_nil in Hline|].
  simpl. symmetry. apply Hlines. by left.
Qed.

(** ** One word of the loop *)

Lemma scan_first_cases (grid : Grid) (w : string) (dirs : Py.dict Direction) (gs : Z)
    (att : option (Grid * Placement)) :
  scan_first grid w dirs gs = Some att →
  att = None
  ∨ ∃ cands, Forall proper_anchor cands ∧ place_first grid w cands = Some att.
Proof.
  unfold scan_first.
  destruct (Py.get dirs w) as [d|]; simpl.
  - set (cands := row ← Py.range gs; col ← Py.range gs; [(row, col, d)]).
    assert (Forall proper_anchor cands) as Hc.
    { apply Forall_forall. intros [[row col] d'] Hin.
      apply list_elem_of_bind in Hin as (row' & Hin & Hrow').
      apply list_elem_of_bind in Hin as (col' & Hin & Hcol').
      apply list_elem_of_singleton in Hin as [= -> -> ->].
      apply elem_of_range2 in Hrow', Hcol'. split; simpl; lia. }
    clearbody cands. destruct (Py.range gs); [intros [= <-]; by left|].
    intros H. right. by exists cands.
  - destruct (Py.range gs); [intros [= <-]; by left|done].
Qed.

Lemma place_word_cases {R : Type} `{!RandomSource R, !RandomLaws R} (gs : Z) (dirs : Py.dict Direction)
    (grid grid' : Grid) (placed placed' : Py.dict Placement) (rng rng' : R) (w : string) :
  0 <= gs → Py.slen w <= gs →
  place_word gs dirs (grid, placed, rng) w = Some (grid', placed', rng') →
  (grid' = grid ∧ placed' = placed)
  ∨ ∃ cands pos, Forall proper_anchor cands
                 ∧ place_first grid w cands = Some (Some (grid', pos))
                 ∧ placed' = Py.set placed w pos.
Proof.
  intros Hgs Hw. unfold place_word.
  assert (∀ (att : option (Grid * Placement)) (r : R) cands0,
            Forall proper_anchor cands0 →
            place_first grid w cands0 = Some att →
            (att ← match att with
                   | Some a => Some (Some a)
                   | None => scan_first grid w dirs gs
                   end;
             match att with
             | Some (g1, position) => Some (g1, Py.set placed w position, r)
             | None => Some (grid, placed, r)
             end) = Some (grid', placed', rng') →
            (grid' = grid ∧ placed' = placed)
            ∨ ∃ cands pos, Forall proper_anchor cands
                           ∧ place_first grid w cands = Some (Some (grid', pos))
                           ∧ placed' = Py.set placed w pos) as Hrest.
  { intros [[g1 pos]|] r cands0 Hc0 Hpf; simpl.
    - intros [= <- <- <-]. right. by exists cands0, pos.
    - destruct (scan_first grid w dirs gs) as [att|] eqn:Escan; simpl; [|done].
      apply scan_first_cases in Escan as [->|(cands & Hc & Hpf')].
      + intros [= <- <- <-]. by left.
      + destruct att as [[g1 pos]|]; intros [= <- <- <-]; [|by left].
        right. by exists cands, pos. }
  destruct placed as [|entry placed0].
  - destruct (Py.get dirs w) as [d|]; cbn [mbind option_bind]; [|done].
    set (pos := match d with
                | across => (gs / 2, (gs - Py.slen w) / 2)
                | down => ((gs - Py.slen w) / 2, gs / 2)
                end).
    destruct pos as [row col] eqn:Epos.
    destruct (place_first grid w [(row, col, d)]) as [att|] eqn:Epf; [|done].
    cbn [mbind option_bind]. apply Hrest with (cands0 := [(row, col, d)]); [|done].
    apply Forall_singleton. unfold proper_anchor. simpl.
    assert (0 <= gs / 2) by (apply Z.div_pos; lia).
    assert (0 <= (gs - Py.slen w) / 2) by (apply Z.div_pos; lia).
    subst pos. destruct d; simplify_eq; lia.
  - destruct (_find_overlaps (entry :: placed0) w grid dirs) as [possible|] eqn:Efo;
      [|done].
    cbn [mbind option_bind].
    destruct (rand_shuffle rng possible) as [shuffled rng1] eqn:Esh.
    destruct (place_first grid w shuffled) as [att|] eqn:Epf; [|done].
    cbn [mbind option_bind]. apply Hrest with (cands0 := shuffled); [|done].
    apply find_overlaps_on_grid in Efo.
    pose proof (rand_shuffle_perm _ rng possible) as Hperm. rewrite Esh in Hperm.
    simpl in Hperm. rewrite Hperm.
    eapply Forall_impl; [done|]. apply on_grid_proper.
Qed.

(** ** The loop over the words *)

Lemma place_shape (grid grid' : Grid) (w : string) (pos : Placement) :
  proper_anchor pos →
  _place_word_on_grid grid w pos.2 pos.1.1 pos.1.2 = Some grid' →
  shape grid' = shape grid.
Proof.
  intros [Hr Hc] H. unfold _place_word_on_grid in H.
  apply write_cells_frame in H as [Hs _]; [done|].
  intros r c l. by apply word_cells_nonneg.
Qed.

Section Loop.
Context {R : Type} `{!RandomSource R, !RandomLaws R}.
Variables (ws : list string) (dirs : Py.dict Direction) (gs : Z).
Hypothesis gs_nonneg : 0 <= gs.
Hypothesis gs_fits : ∀ w, w ∈ ws → Py.slen w <= gs.

Lemma place_words_shape (grid0 grid : Grid) (placed0 placed : Py.dict Placement)
    (rng rng' : R) :
  Py.for_each (place_word gs dirs) (grid0, placed0, rng) ws = Some (grid, placed, rng') →
  shape grid = shape grid0.
Proof.
  apply (for_each_inv (λ st : Grid * Py.dict Placement * R, shape st.1.1 = shape grid0));
    [|done].
  intros [[g p] r] w [[g' p'] r'] Hw Hs Hstep. simpl in *.
  apply place_word_cases in Hstep as [[-> _]|(cands & pos & Hc & Hpf & _)];
    [done| |done|by apply gs_fits].
  apply place_first_Some in Hpf as (Hin & _ & Hplace).
  rewrite <- Hs. eapply place_shape; [|done].
  by eapply Forall_forall in Hc.
Qed.

Lemma place_words_consistent (grid0 grid : Grid) (placed0 placed : Py.dict Placement)
    (rng rng' : R) :
  Forall marker_free ws → consistent grid0 placed0 →
  Py.for_each (place_word gs dirs) (grid0, placed0, rng) ws = Some (grid, placed, rng') →
  consistent grid placed.
Proof.
  intros Hmf H0.
  apply (for_each_inv (λ st : Grid * Py.dict Placement * R, consistent st.1.1 st.1.2));
    [|done].
  intros [[g p] r] w [[g' p'] r'] Hw Hc Hstep. simpl in *.
  apply place_word_cases in Hstep as [[-> ->]|(cands & pos & Hcands & Hpf & ->)];
    [done| |done|by apply gs_fits].
  eapply place_first_consistent; [done| |done..].
  by eapply Forall_forall in Hmf.
Qed.

End Loop.

Lemma generate_inv {R : Type} `{!RandomSource R, !RandomLaws R} (ws : list string)
    (dirs : Py.dict Direction) (rng rng' : R) (grid : Grid) (placed : Py.dict Placement) :
  generate ws dirs rng = Some (grid, placed, rng') →
  ∃ gs grid1 rng1,
    _determine_initial_grid_size ws = Some gs
    ∧ Py.for_each (place_word gs dirs) (_create_empty_grid gs, [], rng) ws
      = Some (grid1, placed, rng1)
    ∧ _fill_empty_cells grid1 rng1 = Some (grid, rng').
Proof.
  unfold generate.
  destruct (_determine_initial_grid_size ws) as [gs|] eqn:E1;
    cbn [mbind option_bind]; [|done].
  destruct (Py.for_each _ _ ws) as [[[grid1 placed1] rng1]|] eqn:E2;
    cbn [mbind option_bind]; [|done].
  destruct (_fill_empty_cells grid1 rng1) as [[grid2 rng2]|] eqn:E3;
    cbn [mbind option_bind]; [|done].
  intros [= <- <- <-]. by exists gs, grid1, rng1.
Qed.

Lemma generate_square {R : Type} `{!RandomSource R, !RandomLaws R} (ws : list string)
    (dirs : Py.dict Direction) (rng rng' : R) (grid : Grid) (placed : Py.dict Placement) :
  generate ws dirs rng = Some (grid, placed, rng') →
  ∃ gs, _determine_initial_grid_size ws = Some gs ∧ square gs grid.
Proof.
  intros (gs & grid1 & rng1 & Hgs & Hloop & Hfill)%generate_inv.
  exists gs. split; [done|].
  destruct (grid_size_spec _ _ Hgs) as [Hnn Hfit].
  apply place_words_shape in Hloop; [|done..].
  rewrite shape_empty_grid in Hloop.
  assert (rectangular grid1) as Hrect
    by (eapply square_rectangular; by apply shape_square).
  destruct (fill_spec grid1 Hrect rng1) as (st' & Hst' & Hs & _).
  rewrite Hfill in Hst'. injection Hst' as <-. simpl in Hs.
  apply shape_square; [done|]. by rewrite Hs.
Qed.

(** Reading back the cells of a word gives the word. *)
Lemma read_enumerated (s : string) (a : Z) (f : Z → option ascii) :
  (∀ i x, (i, x) ∈ Py.enumerate_from a s → f i = Some x) →
  Py.join <$> mapM f (Py.range2 a (a + Py.slen s)) = Some s.
Proof.
  revert a. induction s as [|c s IH]; intros a Hf.
  - unfold Py.slen. simpl. by rewrite range2_nil by lia.
  - rewrite range2_cons by (unfold Py.slen; simpl; lia).
    simpl. rewrite (Hf a c) by (by left). simpl.
    specialize (IH (a + 1)).
    replace (a + Py.slen (String c s)) with (a + 1 + Py.slen s)
      by (unfold Py.slen; simpl String.length; lia).
    destruct (mapM f (Py.range2 (a + 1) (a + 1 + Py.slen s))) as [cs|] eqn:E; simpl in *.
    + f_equal. f_equal. apply (inj Some). apply IH. intros i x Hi. apply Hf. by right.
    + exfalso. assert (None = Some s) as Habs; [|done].
      apply IH. intros i x Hi. apply Hf. by right.
Qed.

Lemma fits_read_word (grid : Grid) (w : string) (row col : Z) (d : Direction) :
  fits grid w (row, col, d) → read_word grid d row col (Py.slen w) = Some w.
Proof.
  intros (_ & _ & Hread). simpl in Hread. unfold read_word, Py.range.
  apply (read_enumerated w 0). intros i x Hi.
  destruct d; apply Hread, elem_of_word_cells; by exists i.
Qed.

(** A word of uppercase letters holds no empty marker. *)
Lemma letters_only_marker_free (w : string) : letters_only w → marker_free w.
Proof.
  unfold letters_only, marker_free. intros Hw. eapply Forall_impl; [exact Hw|].
  intros il Hin Heq. simpl in *. rewrite Heq in Hin. by apply marker_not_uppercase.
Qed.

(** [C2] Placement consistency.  When the words hold no empty marker and
    generation returns a grid and an index, every entry of the index has a
    proper anchor, and reading the grid from the anchor along the recorded
    direction over the length of the word gives the word. *)
Theorem C2_placement_consistency {R : Type} `{!RandomSource R, !RandomLaws R} (ws : list string)
    (dirs : Py.dict Direction) (rng rng' : R) (grid : Grid) (placed : Py.dict Placement) :
  Forall marker_free ws →
  generate ws dirs rng = Some (grid, placed, rng') →
  ∀ w row col d, (w, (row, col, d)) ∈ placed →
    0 <= row ∧ 0 <= col ∧ read_word grid d row col (Py.slen w) = Some w.
Proof.
  intros Hmf (gs & grid1 & rng1 & Hgs & Hloop & Hfill)%generate_inv w row col d Hin.
  destruct (grid_size_spec _ _ Hgs) as [Hnn Hfit].
  pose proof (place_words_shape ws dirs gs Hnn Hfit _ _ _ _ _ _ Hloop) as Hshape.
  apply place_words_consistent in Hloop; [|done..|by intros ? ? ?%elem_of_nil].
  rewrite shape_empty_grid in Hshape.
  assert (rectangular grid1) as Hrect
    by (eapply square_rectangular; by apply shape_square).
  destruct (fill_spec grid1 Hrect rng1) as (st' & Hst' & Hs & Hcells).
  rewrite Hfill in Hst'. injection Hst' as <-. simpl in *.
  destruct (Hloop _ _ Hin) as (Hw & Hrow & Hcol & Hread). simpl in *.
  split_and!; [done..|]. apply fits_read_word. split_and!; [done..|]. simpl.
  intros r c l Hl. specialize (Hread r c l Hl).
  destruct (word_cells_nonneg _ _ _ _ _ _ _ Hrow Hcol Hl) as [Hr Hc].
  rewrite grid_get_cell in Hread |- * by done.
  destruct (Hcells _ _ _ Hread) as (y & -> & Hf & _). f_equal.
  destruct (Hf I) as [[_ ->]|[-> _]]; [done|].
  by apply word_cells_marker_free in Hl.
Qed.

(** ** The verifier reads the grid for its shape only *)

Lemma norm_length_eq (n : nat) (i : Z) (k : nat) : Py.norm n i = Some k → (k < n)%nat.
Proof. unfold Py.norm. repeat case_decide; intros [= <-]; lia. Qed.

Lemma index_is_Some {A} (l : list A) (i : Z) :
  is_Some (Py.index l i) ↔ is_Some (Py.norm (length l) i).
Proof.
  unfold Py.index. destruct (Py.norm (length l) i) as [k|] eqn:E; simpl.
  - apply norm_length_eq in E. split; [eauto|]. intros _. by apply lookup_lt_is_Some_2.
  - split; by intros [? ?].
Qed.

Lemma grid_get_shape (g1 g2 : Grid) (r c : Z) :
  shape g1 = shape g2 → is_Some (grid_get g1 r c) ↔ is_Some (grid_get g2 r c).
Proof.
  intros Hs. unfold grid_get, Py.index.
  assert (length g1 = length g2) as Hlen.
  { apply (f_equal length) in Hs. unfold shape in Hs. by rewrite !length_map in Hs. }
  rewrite Hlen. destruct (Py.norm (length g2) r) as [k|] eqn:E; simpl; [|done].
  assert (shape g1 !! k = shape g2 !! k) as Hk by (by rewrite Hs).
  unfold shape in Hk. rewrite !list_lookup_fmap in Hk.
  destruct (g1 !! k) as [l1|], (g2 !! k) as [l2|]; simpl in *; try done.
  injection Hk as Hk. rewrite Hk.
  destruct (Py.norm (length l2) c) as [j|] eqn:E'; simpl; [|done].
  apply norm_length_eq in E'.
  split; intros _; apply lookup_lt_is_Some_2; lia.
Qed.

Lemma slen_join (cs : list ascii) : Py.slen (Py.join cs) = Py.len cs.
Proof. unfold Py.slen, Py.len. induction cs; simpl; lia. Qed.

Lemma mapM_length_shape {A B} (f1 f2 : A → option B) (l : list A) :
  (∀ x, is_Some (f1 x) ↔ is_Some (f2 x)) →
  length <$> mapM f1 l = length <$> mapM f2 l.
Proof.
  intros Hf. induction l as [|x l IH]; [done|]. simpl.
  destruct (f1 x) as [y1|] eqn:E1, (f2 x) as [y2|] eqn:E2; simpl.
  - destruct (mapM f1 l), (mapM f2 l); simpl in *; try done.
    injection IH as IH. by rewrite IH.
  - assert (is_Some (f2 x)) as [? ?] by (apply Hf; eauto). congruence.
  - assert (is_Some (f1 x)) as [? ?] by (apply Hf; eauto). congruence.
  - done.
Qed.

(** The length of the extracted word, or the exception, is the same on
    every grid of the same shape. *)
Lemma extract_word_shape (g1 g2 : Grid) (sr sc er ec : Z) :
  shape g1 = shape g2 →
  Py.slen <$> _extract_word g1 sr sc er ec = Py.slen <$> _extract_word g2 sr sc er ec.
Proof.
  intros Hs. unfold _extract_word.
  assert (∀ (f1 f2 : Z → option ascii) l,
            (∀ x, is_Some (f1 x) ↔ is_Some (f2 x)) →
            Py.slen <$> (Py.join <$> mapM f1 l) = Py.slen <$> (Py.join <$> mapM f2 l)) as H.
  { intros f1 f2 l Hf. pose proof (mapM_length_shape f1 f2 l Hf) as E.
    destruct (mapM f1 l) as [c1|], (mapM f2 l) as [c2|]; simpl in *; try done.
    injection E as E. rewrite !slen_join. unfold Py.len. by rewrite E. }
  repeat case_bool_decide; [| |done]; apply H; intros x; by apply grid_get_shape.
Qed.

(** [_matches_position] and the search through the index use the word for
    its length only. *)
Lemma matches_position_slen (w1 w2 : string) (row col : Z) (d : Direction)
    (sr sc er ec : Z) :
  Py.slen w1 = Py.slen w2 →
  _matches_position w1 row col d sr sc er ec = _matches_position w2 row col d sr sc er ec.
Proof. intros E. unfold _matches_position. by rewrite E. Qed.

Lemma first_match_slen (placed : Py.dict Placement) (w1 w2 : string) (sr sc er ec : Z) :
  Py.slen w1 = Py.slen w2 →
  first_match placed w1 sr sc er ec = first_match placed w2 sr sc er ec.
Proof.
  intros E. unfold first_match. induction placed as [|[pw [[row col] d]] placed IH]; [done|].
  simpl. rewrite (matches_position_slen w1 w2) by done. by rewrite IH.
Qed.

(** [C9] Verifier letter-noninterference.  On two grids of the same shape
    (the same number of rows, and rows of the same lengths) [_check_word]
    gives, for the same environment and the same span, the same outcome: the
    same boolean and the same environment afterwards, or the same
    exception. *)
Theorem C9_check_word_ignores_letters (self : Env) (g1 g2 : Grid) (sr sc er ec : Z) :
  shape g1 = shape g2 →
  _check_word self g1 sr sc er ec = _check_word self g2 sr sc er ec.
Proof.
  intros Hs. unfold _check_word.
  pose proof (extract_word_shape g1 g2 sr sc er ec Hs) as E.
  destruct (_extract_word g1 sr sc er ec) as [w1|],
           (_extract_word g2 sr sc er ec) as [w2|]; simpl in *; try done.
  injection E as E. by rewrite (first_match_slen _ w1 w2).
Qed.

(** ** Guesses on the board *)

Lemma grid_get_in_range (grid : Grid) (r c : Z) :
  rectangular grid → 0 <= r < Py.len grid → 0 <= c < width grid →
  is_Some (grid_get grid r c).
Proof.
  intros Hrect Hr Hc. rewrite grid_get_cell by lia.
  apply rectangular_cell; [done|lia].
Qed.

Lemma mapM_total {A B} (f : A → option B) (l : list A) :
  (∀ x, x ∈ l → is_Some (f x)) → ∃ k, mapM f l = Some k ∧ length k = length l.
Proof.
  intros Hf. destruct (mapM f l) as [k|] eqn:E.
  - exists k. split; [done|]. symmetry. by eapply length_mapM.
  - assert (is_Some (mapM f l)) as [? ?]; [|congruence].
    apply mapM_is_Some. apply Forall_forall. intros x Hx. by apply Hf.
Qed.

Lemma extract_word_in_bounds (grid : Grid) (sr sc er ec : Z) :
  rectangular grid → in_bounds grid (sr, sc, er, ec) = true →
  ∃ w, _extract_word grid sr sc er ec = Some w
       ∧ Py.slen w = span_length (sr, sc, er, ec).
Proof.
  intros Hrect Hin. unfold in_bounds in Hin.
  apply andb_true_iff in Hin as [[[Hsr Hsc]%andb_true_iff Her]%andb_true_iff Hec].
  apply bool_decide_eq_true in Hsr, Hsc, Her, Hec.
  unfold _extract_word, span_length.
  case_bool_decide as E1; [|case_bool_decide as E2].
  - destruct (mapM_total (λ col, grid_get grid sr col)
                (Py.range2 (Z.min sc ec) (Z.max sc ec + 1))) as (k & -> & Hk).
    { intros col Hcol%elem_of_range2. apply grid_get_in_range; [done|lia..]. }
    simpl. eexists. split; [done|].
    rewrite slen_join. unfold Py.len. rewrite Hk, length_range2. lia.
  - destruct (mapM_total (λ row, grid_get grid row sc)
                (Py.range2 (Z.min sr er) (Z.max sr er + 1))) as (k & -> & Hk).
    { intros row Hrow%elem_of_range2. apply grid_get_in_range; [done|lia..]. }
    simpl. eexists. split; [done|].
    rewrite slen_join. unfold Py.len. rewrite Hk, length_range2. lia.
  - by exists EmptyString.
Qed.

(** On an extracted word the length test of [_matches_position] says nothing
    about the placed word: the span matches an entry exactly when it lies on
    the line of the entry and starts at its anchor. *)
Lemma matches_position_extracted (w : string) (row col : Z) (d : Direction)
    (sr sc er ec : Z) :
  Py.slen w = span_length (sr, sc, er, ec) →
  _matches_position w row col d sr sc er ec = true ↔
  (d = across ∧ sr = er ∧ row = sr ∧ col = Z.min sc ec)
  ∨ (d = down ∧ sc = ec ∧ col = sc ∧ row = Z.min sr er).
Proof.
  intros Hw. unfold _matches_position, span_length in *. rewrite Hw.
  destruct d; repeat (case_bool_decide; simpl); split;
    try (intros [(? & ? & ? & ?)|(? & ? & ? & ?)]); try done; try lia;
    try (intros _; (left; split_and!; (done || lia)) || (right; split_and!; (done || lia))).
Qed.

(** A span that is neither horizontal nor vertical matches no entry. *)
Lemma first_match_diagonal (placed : Py.dict Placement) (sr sc er ec : Z) :
  sr ≠ er → sc ≠ ec → first_match placed EmptyString sr sc er ec = None.
Proof.
  intros Hr Hc. unfold first_match.
  induction placed as [|[pw [[row col] d]] placed IH]; [done|]. simpl.
  assert (_matches_position "" row col d sr sc er ec = false) as ->; [|done].
  unfold _matches_position, Py.slen. simpl.
  repeat (case_bool_decide; simpl); try done; lia.
Qed.

(** Every span on the line of a placed word that starts at its anchor is
    accepted, whatever its length: here for a word placed across and a span
    given from left to right. *)
Lemma span_from_anchor_matches (self : Env) (pw : string) (row col ec : Z) :
  rectangular (board self) →
  (pw, (row, col, across)) ∈ placed_words self →
  col <= ec → in_bounds (board self) (row, col, row, ec) = true →
  ∃ self', _check_word self (board self) row col row ec = Some (true, self').
Proof.
  intros Hrect Hin Hle Hb.
  destruct (extract_word_in_bounds _ _ _ _ _ Hrect Hb) as (w & Hw & Hlen).
  unfold _check_word. rewrite Hw. simpl.
  destruct (first_match (placed_words self) w row col row ec) as [[pw' pos]|] eqn:E;
    [by eexists|].
  exfalso. unfold first_match in E.
  apply list_elem_of_In in Hin.
  pose proof (find_none _ _ E _ Hin) as Hno. simpl in Hno.
  assert (_matches_position w row col across row col row ec = true) as Hyes.
  { apply matches_position_extracted; [done|]. left. split_and!; [done..|lia]. }
  congruence.
Qed.

(** ** One guess of a turn *)

Lemma check_word_cases (self self' : Env) (grid : Grid) (sr sc er ec : Z) (b : bool) :
  _check_word self grid sr sc er ec = Some (b, self') →
  ∃ w, _extract_word grid sr sc er ec = Some w
       ∧ ((b = true
           ∧ ∃ pw pos, first_match (placed_words self) w sr sc er ec = Some (pw, pos)
                       ∧ self' = record_found self pw sr sc er ec)
          ∨ (b = false
             ∧ first_match (placed_words self) w sr sc er ec = None
             ∧ self' = record_incorrect self sr sc er ec)).
Proof.
  unfold _check_word.
  destruct (_extract_word grid sr sc er ec) as [w|]; simpl; [|done].
  destruct (first_match (placed_words self) w sr sc er ec) as [[pw pos]|] eqn:E;
    intros [= <- <-]; exists w; (split; [done|]).
  - left. split; [done|]. by exists pw, pos.
  - by right.
Qed.

Lemma process_match_cases (self self' : Env) (g : Span) (calls : list StateCall)
    (v : Verdict) :
  process_match self g = Some (self', calls, v) →
  (v = out_of_bounds ∧ in_bounds (board self) g = false
   ∧ self' = self ∧ calls = [set_invalid_move])
  ∨ (v = already_attempted ∧ in_bounds (board self) g = true
     ∧ g ∈ incorrect_attempts self ∧ self' = self ∧ calls = [set_invalid_move])
  ∨ (v = correct ∧ in_bounds (board self) g = true ∧ (g ∉ incorrect_attempts self)
     ∧ check_guess self g = Some (true, self') ∧ calls = [])
  ∨ (v = incorrect ∧ in_bounds (board self) g = true ∧ (g ∉ incorrect_attempts self)
     ∧ ∃ s1, check_guess self g = Some (false, s1)
             ∧ self' = decrement_tries s1
             ∧ calls = if bool_decide (num_incorrect_tries self' = 0)
                       then [set_draw] else []).
Proof.
  unfold process_match.
  destruct (in_bounds (board self) g) eqn:Hb; simpl.
  - case_bool_decide as Hdup.
    + intros [= <- <- <-]. right. left. done.
    + destruct (check_guess self g) as [[[|] s1]|] eqn:Hcw; simpl; [| |done].
      * intros [= <- <- <-]. right. right. left. done.
      * intros [= <- <- <-]. right. right. right. split_and!; [done..|].
        by exists s1.
  - intros [= <- <- <-]. by left.
Qed.

Lemma check_guess_total (self : Env) (g : Span) :
  rectangular (board self) → in_bounds (board self) g = true →
  ∃ b self', check_guess self g = Some (b, self').
Proof.
  intros Hrect Hin. destruct g as [[[sr sc] er] ec].
  destruct (extract_word_in_bounds _ _ _ _ _ Hrect Hin) as (w & Hw & _).
  unfold check_guess, _check_word. rewrite Hw. simpl.
  destruct (first_match _ _ _ _ _ _) as [[pw pos]|]; eauto.
Qed.

Lemma process_match_total (self : Env) (g : Span) :
  rectangular (board self) → is_Some (process_match self g).
Proof.
  intros Hrect. unfold process_match.
  destruct (in_bounds (board self) g) eqn:Hb; simpl; [|done].
  case_bool_decide; [done|].
  destruct (check_guess_total self g Hrect Hb) as ([|] & s1 & ->); simpl; done.
Qed.

Lemma check_guess_tries (self self' : Env) (g : Span) (b : bool) :
  check_guess self g = Some (b, self') →
  num_incorrect_tries self' = num_incorrect_tries self.
Proof.
  destruct g as [[[sr sc] er] ec]. unfold check_guess.
  intros (w & _ & [(_ & pw & pos & _ & ->)|(_ & _ & ->)])%check_word_cases; done.
Qed.

(** The counter of tries and [set_draw] in the loop body. *)
Lemma process_match_tries (self self' : Env) (g : Span) (calls : list StateCall)
    (v : Verdict) :
  process_match self g = Some (self', calls, v) →
  (v = incorrect → num_incorrect_tries self' = num_incorrect_tries self - 1)
  ∧ (v ≠ incorrect → num_incorrect_tries self' = num_incorrect_tries self)
  ∧ (set_draw ∈ calls ↔
       num_incorrect_tries self' = 0
       ∧ num_incorrect_tries self' ≠ num_incorrect_tries self).
Proof.
  intros Hpm.
  apply process_match_cases in Hpm
    as [(-> & Hb & -> & ->)|[(-> & Hb & Hdup & -> & ->)|
        [(-> & Hb & Hdup & Hcw & ->)|(-> & Hb & Hdup & s1 & Hcw & -> & ->)]]].
  - split_and!; try done. split; [|lia]. by intros [= ]%list_elem_of_singleton.
  - split_and!; try done. split; [|lia]. by intros [= ]%list_elem_of_singleton.
  - pose proof (check_guess_tries _ _ _ _ Hcw) as Ht.
    split_and!; try done. split; [by intros ?%elem_of_nil|lia].
  - pose proof (check_guess_tries _ _ _ _ Hcw) as Ht.
    split_and!; try done.
    + intros _. simpl. lia.
    + simpl. case_bool_decide as E; simpl in E.
      * split; [intros _; lia|]. intros _. by left.
      * split; [by intros ?%elem_of_nil|]. lia.
Qed.

(** A turn spends at most one try, and calls [set_draw] exactly when it
    spent one and none is left. *)
Lemma process_matches_tries (ms : list Span) (self self' : Env) (calls : list StateCall) :
  process_matches self ms = Some (self', calls) →
  (num_incorrect_tries self' = num_incorrect_tries self
   ∨ num_incorrect_tries self' = num_incorrect_tries self - 1)
  ∧ (set_draw ∈ calls ↔
       num_incorrect_tries self' = 0
       ∧ num_incorrect_tries self' ≠ num_incorrect_tries self).
Proof.
  revert self self' calls. induction ms as [|g ms IH]; intros self self' calls; simpl.
  - intros [= <- <-]. split; [by left|]. split; [by intros ?%elem_of_nil|lia].
  - destruct (process_match self g) as [[[s1 c1] v]|] eqn:E; simpl; [|done].
    pose proof (process_match_tries _ _ _ _ _ E) as (Hinc & Hother & Hdraw).
    destruct (decide (v = correct)) as [->|Hv].
    + destruct (process_matches s1 ms) as [[s2 c2]|] eqn:E2; simpl; [|done].
      intros [= <- <-]. apply IH in E2 as [Ht Hd].
      rewrite Hother in Ht, Hd by done. split; [done|].
      rewrite elem_of_app, Hd, Hdraw. rewrite Hother by done. split; [|tauto].
      intros [[_ ?]|?]; done.
    + assert (Some (s1, c1) = Some (self', calls) →
              (num_incorrect_tries self' = num_incorrect_tries self
               ∨ num_incorrect_tries self' = num_incorrect_tries self - 1)
              ∧ (set_draw ∈ calls ↔
                   num_incorrect_tries self' = 0
                   ∧ num_incorrect_tries self' ≠ num_incorrect_tries self)) as Hstop.
      { intros [= <- <-]. split; [|done].
        destruct (decide (v = incorrect)) as [->|Hv']; [right; by apply Hinc|].
        left. by apply Hother. }
      destruct v; done.
Qed.

Lemma step_tries (ms : list Span) (self self' : Env) (calls : list StateCall) :
  step self ms = Some (self', calls) →
  (num_incorrect_tries self' = num_incorrect_tries self
   ∨ num_incorrect_tries self' = num_incorrect_tries self - 1)
  ∧ (set_draw ∈ calls ↔
       num_incorrect_tries self' = 0
       ∧ num_incorrect_tries self' ≠ num_incorrect_tries self).
Proof.
  unfold step. destruct ms as [|g ms].
  - intros [= <- <-]. split; [by left|].
    split; [by intros [= ]%list_elem_of_singleton|lia].
  - destruct (process_matches self (g :: ms)) as [[s1 c1]|] eqn:E;
      cbn [mbind option_bind]; [|done].
    intros [= <- <-]. apply process_matches_tries in E as [Ht Hd].
    split; [done|]. rewrite elem_of_app, Hd. split; [|tauto].
    intros [?|Hw]; [done|]. destruct (_is_game_over s1).
    + by apply list_elem_of_singleton in Hw.
    + by apply elem_of_nil in Hw.
Qed.

(** [C4], amended.  A guess in bounds whose span is neither horizontal nor
    vertical is verified like any other: [_check_word] extracts the empty
    word, matches nothing, returns false and appends the span to
    [incorrect_attempts], leaving [correct_words] and the highlighted cells
    as they were.  In the loop of [step] such a guess is rejected without any
    change when it is already in [incorrect_attempts], and otherwise spends
    one try. *)
Theorem C4_diagonal_guess_is_incorrect_attempt (self : Env) (sr sc er ec : Z) :
  in_bounds (board self) (sr, sc, er, ec) = true → sr ≠ er → sc ≠ ec →
  check_guess self (sr, sc, er, ec) = Some (false, record_incorrect self sr sc er ec)
  ∧ ∃ self' calls v,
      process_match self (sr, sc, er, ec) = Some (self', calls, v)
      ∧ correct_words self' = correct_words self
      ∧ highlighted_positions self' = highlighted_positions self
      ∧ ((sr, sc, er, ec) ∈ incorrect_attempts self →
           v = already_attempted ∧ self' = self)
      ∧ ((sr, sc, er, ec) ∉ incorrect_attempts self →
           v = incorrect
           ∧ incorrect_attempts self' = incorrect_attempts self ++ [(sr, sc, er, ec)]
           ∧ num_incorrect_tries self' = num_incorrect_tries self - 1).
Proof.
  intros Hb Hr Hc.
  assert (check_guess self (sr, sc, er, ec)
          = Some (false, record_incorrect self sr sc er ec)) as Hcg.
  { unfold check_guess, _check_word, _extract_word.
    rewrite !bool_decide_eq_false_2 by done. simpl.
    by rewrite first_match_diagonal. }
  split; [done|]. unfold process_match. rewrite Hb. cbn [negb].
  case_bool_decide as Hdup.
  - eexists _, _, _. split; [done|]. split_and!; done.
  - rewrite Hcg. cbn [mbind option_bind].
    eexists _, _, _. split; [done|]. split_and!; done.
Qed.

(** ** Highlighted cells *)

Lemma foldl_add_cells {A} (f : A → Z * Z) (l : list A) (h : gset (Z * Z)) :
  foldl (λ h x, {[ f x ]} ∪ h) h l = list_to_set (f <$> l) ∪ h.
Proof.
  revert h. induction l as [|x l IH]; intros h; simpl.
  - set_solver.
  - rewrite IH. set_solver.
Qed.

Lemma highlight_word_union (h : gset (Z * Z)) (sr sc er ec : Z) :
  _highlight_word h sr sc er ec = span_cells (sr, sc, er, ec) ∪ h.
Proof.
  unfold span_cells, _highlight_word.
  repeat case_bool_decide; rewrite ?foldl_add_cells; set_solver.
Qed.

(** ** Turns that follow one another *)

Lemma process_matches_inv (J : Env → Prop) :
  (∀ s g s' calls v, J s → process_match s g = Some (s', calls, v) → J s') →
  ∀ ms s s' calls, J s → process_matches s ms = Some (s', calls) → J s'.
Proof.
  intros HJ. induction ms as [|g ms IH]; intros s s' calls Hs; simpl.
  - by intros [= <- <-].
  - destruct (process_match s g) as [[[s1 c1] v]|] eqn:E; simpl; [|done].
    pose proof (HJ _ _ _ _ _ Hs E) as Hs1.
    destruct v; try (by intros [= <- <-]).
    destruct (process_matches s1 ms) as [[s2 c2]|] eqn:E2; simpl; [|done].
    intros [= <- <-]. by eapply IH.
Qed.

Lemma step_inv (J : Env → Prop) :
  (∀ s g s' calls v, J s → process_match s g = Some (s', calls, v) → J s') →
  ∀ ms s s' calls, J s → step s ms = Some (s', calls) → J s'.
Proof.
  intros HJ ms s s' calls Hs. unfold step. destruct ms as [|g ms].
  - by intros [= <- <-].
  - destruct (process_matches s (g :: ms)) as [[s1 c1]|] eqn:E; cbn [mbind option_bind];
      [|done].
    intros [= <- <-]. by eapply process_matches_inv.
Qed.

Lemma run_inv (J : Env → Prop) :
  (∀ s g s' calls v, J s → process_match s g = Some (s', calls, v) → J s') →
  ∀ s calls s', J s → run s calls s' → J s'.
Proof.
  intros HJ s calls s' Hs Hrun. induction Hrun as [|s s1 s2 calls calls1 ms _ IH Hstep];
    [done|].
  eapply step_inv; [done| |done]. by apply IH.
Qed.

(** ** A guess that matched matches again *)

Lemma check_guess_true (self self' : Env) (g : Span) :
  check_guess self g = Some (true, self') →
  ∃ pw, hit (board self) (placed_words self) g pw
        ∧ self' = record_found self pw g.1.1.1 g.1.1.2 g.1.2 g.2.
Proof.
  destruct g as [[[sr sc] er] ec]. unfold check_guess.
  intros (w & Hw & [(_ & pw & pos & Hfm & ->)|([= ] & _)])%check_word_cases.
  exists pw. split; [|done]. by exists w, pos.
Qed.

Lemma check_guess_false (self self' : Env) (g : Span) (pw : string) :
  check_guess self g = Some (false, self') →
  ¬ hit (board self) (placed_words self) g pw
  ∧ self' = record_incorrect self g.1.1.1 g.1.1.2 g.1.2 g.2.
Proof.
  destruct g as [[[sr sc] er] ec]. unfold check_guess.
  intros (w & Hw & [([= ] & _)|(_ & Hfm & ->)])%check_word_cases.
  split; [|done]. intros (w' & pos & Hw' & Hfm'). congruence.
Qed.

Lemma hit_check_guess (self : Env) (g : Span) (pw : string) :
  hit (board self) (placed_words self) g pw →
  check_guess self g = Some (true, record_found self pw g.1.1.1 g.1.1.2 g.1.2 g.2).
Proof.
  destruct g as [[[sr sc] er] ec]. intros (w & pos & Hw & Hfm).
  unfold check_guess, _check_word. rewrite Hw. simpl. by rewrite Hfm.
Qed.

Lemma accepted_process_match (b : Grid) (p : Py.dict Placement) (g : Span) (pw : string)
    (s s' : Env) (g' : Span) (calls : list StateCall) (v : Verdict) :
  hit b p g pw → accepted b p g pw s →
  process_match s g' = Some (s', calls, v) → accepted b p g pw s'.
Proof.
  intros Hhit (Hb & Hp & Hna & Hpw & Hcells) Hpm.
  apply process_match_cases in Hpm
    as [(-> & _ & -> & ->)|[(-> & _ & _ & -> & ->)|
        [(-> & _ & _ & Hcw & ->)|(-> & _ & _ & s1 & Hcw & -> & ->)]]]; try done.
  - apply check_guess_true in Hcw as (pw' & _ & ->).
    split_and!; simpl; try done; [set_solver|].
    rewrite highlight_word_union. set_solver.
  - apply (check_guess_false _ _ _ pw) in Hcw as (Hmiss & ->).
    split_and!; simpl; try done.
    rewrite Hb, Hp in Hmiss.
    intros [Hin|Hin%list_elem_of_singleton]%elem_of_app; [done|].
    apply Hmiss. destruct g' as [[[? ?] ?] ?]. simpl in *. by subst g.
Qed.

(** [C10] Repeated correct guesses are accepted.  When the loop of [step]
    has accepted a guess as correct, then after any number of further turns
    the same guess is accepted again: it is not rejected as a duplicate,
    [_check_word] returns true, and the environment is left exactly as it was,
    so [correct_words], the highlighted cells and the counter of tries are
    unchanged and [set_draw] is not called. *)
Theorem C10_repeated_correct_guess (self self1 self2 : Env) (g : Span)
    (calls calls' : list StateCall) :
  process_match self g = Some (self1, calls, correct) →
  run self1 calls' self2 →
  (g ∉ incorrect_attempts self2)
  ∧ check_guess self2 g = Some (true, self2)
  ∧ process_match self2 g = Some (self2, [], correct).
Proof.
  intros Hpm Hrun.
  apply process_match_cases in Hpm
    as [([= ] & _)|[([= ] & _)|[(_ & Hb & Hna & Hcw & ->)|([= ] & _)]]].
  apply check_guess_true in Hcw as (pw & Hhit & ->).
  assert (accepted (board self) (placed_words self) g pw
            (record_found self pw g.1.1.1 g.1.1.2 g.1.2 g.2)) as Hacc.
  { split_and!; simpl; try done; [set_solver|].
    rewrite highlight_word_union. destruct g as [[[? ?] ?] ?]. simpl. set_solver. }
  eapply run_inv in Hrun; [|intros; by eapply accepted_process_match|exact Hacc].
  destruct Hrun as (Hb2 & Hp2 & Hna2 & Hpw2 & Hcells2).
  assert (check_guess self2 g = Some (true, self2)) as Hcg.
  { rewrite <- Hb2, <- Hp2 in Hhit. rewrite (hit_check_guess _ _ _ Hhit).
    do 2 f_equal. destruct self2. unfold record_found. simpl in *. f_equal.
    - rewrite highlight_word_union. destruct g as [[[? ?] ?] ?]. simpl in *. set_solver.
    - set_solver. }
  split_and!; [done..|].
  unfold process_match. rewrite Hb2, Hb. cbn [negb].
  rewrite bool_decide_eq_false_2 by done. by rewrite Hcg.
Qed.

(** ** The index after generation *)

Lemma dict_set_keys {V} (d : Py.dict V) (k : string) (v : V) :
  (Py.set d k v).*1 = if decide (k ∈ d.*1) then d.*1 else d.*1 ++ [k].
Proof.
  induction d as [|[k1 v1] d IH]; [done|]. cbn [Py.set].
  destruct (decide (k1 = k)) as [->|E]; rewrite !fmap_cons; cbn [fst].
  - rewrite decide_True by (by left). done.
  - rewrite IH. destruct (decide (k ∈ d.*1)) as [Hin|Hin].
    + rewrite decide_True by (by right). done.
    + rewrite decide_False; [done|]. by intros [?|?]%elem_of_cons.
Qed.

Lemma dict_set_NoDup {V} (d : Py.dict V) (k : string) (v : V) :
  NoDup d.*1 → NoDup (Py.set d k v).*1.
Proof.
  intros Hd. rewrite dict_set_keys. case_decide as E; [done|].
  apply NoDup_app. split_and!; [done| |apply NoDup_singleton].
  intros x Hx ->%list_elem_of_singleton. done.
Qed.

Lemma dict_set_nonempty {V} (d : Py.dict V) (k : string) (v : V) : Py.set d k v ≠ [].
Proof. destruct d as [|[k1 v1] d]; simpl; [done|]. by case_decide. Qed.

Lemma index_elem_of {A} (l : list A) (i : Z) (x : A) : Py.index l i = Some x → x ∈ l.
Proof.
  unfold Py.index. destruct (Py.norm (length l) i); simpl; [|done].
  apply list_elem_of_lookup_2.
Qed.

Lemma cells_free_empty_grid (gs : Z) (cells : list (Z * Z * ascii)) :
  cells_free (_create_empty_grid gs) cells ≠ Some false.
Proof.
  induction cells as [|[[r c] l] cells IH]; simpl; [done|].
  destruct (grid_get (_create_empty_grid gs) r c) as [x|] eqn:E; simpl; [|done].
  assert (x = empty_marker) as ->.
  { unfold grid_get in E.
    destruct (Py.index (_create_empty_grid gs) r) as [line|] eqn:El; simpl in E; [|done].
    apply index_elem_of in El, E. unfold _create_empty_grid in El.
    apply elem_of_replicate in El as [-> _]. by apply elem_of_replicate in E as [-> _]. }
  rewrite bool_decide_eq_false_2 by (by intros ?). done.
Qed.

Lemma can_place_empty_grid (gs : Z) (w : string) (d : Direction) (row col : Z) :
  0 <= gs →
  _can_place_word (_create_empty_grid gs) w d row col = Some false →
  match d with
  | across => col + Py.slen w > gs
  | down => row + Py.slen w > gs
  end.
Proof.
  intros Hgs. unfold _can_place_word. destruct d.
  - destruct (Py.index (_create_empty_grid gs) 0) as [line0|] eqn:E; simpl; [|done].
    apply index_elem_of in E. unfold _create_empty_grid in E.
    apply elem_of_replicate in E as [-> _].
    unfold Py.len. rewrite length_replicate.
    case_bool_decide; [lia|]. intros Hf. by apply cells_free_empty_grid in Hf.
  - unfold Py.len, _create_empty_grid. rewrite length_replicate.
    case_bool_decide; [lia|]. intros Hf. by apply cells_free_empty_grid in Hf.
Qed.

(** On the empty grid the first word is placed. *)
Lemma place_word_first {R : Type} `{!RandomSource R, !RandomLaws R} (gs : Z) (dirs : Py.dict Direction)
    (w : string) (rng rng' : R) (grid' : Grid) (placed' : Py.dict Placement) :
  0 <= gs → Py.slen w <= gs →
  place_word gs dirs (_create_empty_grid gs, [], rng) w = Some (grid', placed', rng') →
  placed' ≠ [].
Proof.
  intros Hgs Hw. unfold place_word.
  destruct (Py.get dirs w) as [d|]; cbn [mbind option_bind]; [|done].
  set (pos := match d with
              | across => (gs / 2, (gs - Py.slen w) / 2)
              | down => ((gs - Py.slen w) / 2, gs / 2)
              end).
  assert (match d with
          | across => pos.2 + Py.slen w <= gs
          | down => pos.1 + Py.slen w <= gs
          end) as Hpos.
  { pose proof (Z.div_mod (gs - Py.slen w) 2).
    pose proof (Z.mod_pos_bound (gs - Py.slen w) 2).
    subst pos. destruct d; simpl; lia. }
  destruct pos as [row col]. simpl in Hpos.
  unfold place_first.
  destruct (_can_place_word (_create_empty_grid gs) w d row col) as [[|]|] eqn:Ecan;
    cbn [mbind option_bind]; [| |done].
  - destruct (_place_word_on_grid _ w d row col) as [g1|]; cbn [mbind option_bind];
      [|done].
    intros [= <- <- <-]. simpl. done.
  - apply can_place_empty_grid in Ecan; [|done]. destruct d; lia.
Qed.

Lemma place_word_keys {R : Type} `{!RandomSource R, !RandomLaws R} (gs : Z) (dirs : Py.dict Direction)
    (grid grid' : Grid) (placed placed' : Py.dict Placement) (rng rng' : R) (w : string) :
  0 <= gs → Py.slen w <= gs →
  place_word gs dirs (grid, placed, rng) w = Some (grid', placed', rng') →
  (placed ≠ [] → placed' ≠ []) ∧ (NoDup placed.*1 → NoDup placed'.*1).
Proof.
  intros Hgs Hw Hstep.
  apply place_word_cases in Hstep as [[-> ->]|(cands & pos & _ & _ & ->)];
    [done| |done..].
  split; [intros _; apply dict_set_nonempty|apply dict_set_NoDup].
Qed.

Lemma generate_index {R : Type} `{!RandomSource R, !RandomLaws R} (ws : list string)
    (dirs : Py.dict Direction) (rng rng' : R) (grid : Grid) (placed : Py.dict Placement) :
  generate ws dirs rng = Some (grid, placed, rng') →
  placed ≠ [] ∧ NoDup placed.*1.
Proof.
  intros (gs & grid1 & rng1 & Hgs & Hloop & _)%generate_inv.
  destruct (grid_size_spec _ _ Hgs) as [Hnn Hfit].
  destruct ws as [|w ws]; [done|].
  cbn [Py.for_each] in Hloop.
  destruct (place_word gs dirs (_create_empty_grid gs, [], rng) w)
    as [[[g1 p1] r1]|] eqn:E1; cbn [mbind option_bind] in Hloop; [|done].
  pose proof (place_word_first _ _ _ _ _ _ _ Hnn (Hfit w ltac:(by left)) E1) as Hne.
  apply place_word_keys in E1 as [_ Hnd]; [|done|apply Hfit; by left].
  specialize (Hnd (NoDup_nil_2 : NoDup ([] : Py.dict Placement).*1)).
  revert Hloop.
  apply (for_each_inv
           (λ st : Grid * Py.dict Placement * R, st.1.2 ≠ [] ∧ NoDup st.1.2.*1)
           (place_word gs dirs) ws (g1, p1, r1) (grid1, placed, rng1)); [|done].
  intros [[g p] r] w' [[g' p'] r'] Hw' [Hne' Hnd'] Hstep. simpl in *.
  apply place_word_keys in Hstep as [H1 H2]; [|done|apply Hfit; by right].
  split; [by apply H1|by apply H2].
Qed.

(** ** After [reset] *)

Lemma reset_spec {R : Type} `{!RandomSource R, !RandomLaws R} (self self' : Env) (rng rng' : R) :
  reset self rng = Some (self', rng') →
  num_incorrect_tries self' = num_incorrect_tries self
  ∧ correct_words self' = ∅
  ∧ highlighted_positions self' = ∅
  ∧ incorrect_attempts self' = []
  ∧ board self' = game_board self'
  ∧ ∃ rng0 rng1,
      generate (words self') (directions self') rng0
      = Some (board self', placed_words self', rng1).
Proof.
  unfold reset, _generate_word_search.
  destruct (rand_sample rng (word_list self) (num_words self)) as [[sampled r1]|];
    cbn [mbind option_bind]; [|done].
  destruct (choose_directions _ r1) as [[dirs r2]|]; cbn [mbind option_bind]; [|done].
  destruct (generate _ dirs r2) as [[[grid placed] r3]|] eqn:Egen;
    cbn [mbind option_bind]; [|done].
  intros [= <- <-]. simpl. split_and!; try done. by exists r2, r3.
Qed.

(** ** Winning *)

Lemma first_match_elem_of (placed : Py.dict Placement) (w pw : string) (pos : Placement)
    (sr sc er ec : Z) :
  first_match placed w sr sc er ec = Some (pw, pos) → (pw, pos) ∈ placed.
Proof.
  unfold first_match. intros [Hin _]%find_some. by apply list_elem_of_In.
Qed.

Lemma index_ok_size (s : Env) :
  index_ok s → (size (correct_words s) ≤ length (placed_words s))%nat.
Proof.
  intros [Hnd Hsub]. apply subseteq_size in Hsub.
  rewrite size_list_to_set in Hsub by done. by rewrite length_fmap in Hsub.
Qed.

Lemma process_match_index (s s' : Env) (g : Span) (calls : list StateCall) (v : Verdict) :
  process_match s g = Some (s', calls, v) →
  placed_words s' = placed_words s
  ∧ correct_words s ⊆ correct_words s'
  ∧ (index_ok s → index_ok s')
  ∧ set_winners ∉ calls.
Proof.
  intros Hpm.
  apply process_match_cases in Hpm
    as [(-> & _ & -> & ->)|[(-> & _ & _ & -> & ->)|
        [(-> & _ & _ & Hcw & ->)|(-> & _ & _ & s1 & Hcw & -> & ->)]]].
  - split_and!; try done. by intros [= ]%list_elem_of_singleton.
  - split_and!; try done. by intros [= ]%list_elem_of_singleton.
  - destruct g as [[[sr sc] er] ec]. unfold check_guess in Hcw.
    apply check_word_cases in Hcw
      as (w & _ & [(_ & pw & pos & Hfm & ->)|([= ] & _)]).
    simpl. split_and!; [done|set_solver| |by intros ?%elem_of_nil].
    intros [Hnd Hsub]. split; [done|]. simpl.
    apply first_match_elem_of in Hfm.
    assert (pw ∈ (placed_words s).*1)
      by (apply list_elem_of_fmap; by exists (pw, pos)).
    set_solver.
  - destruct g as [[[sr sc] er] ec]. unfold check_guess in Hcw.
    apply check_word_cases in Hcw as (w & _ & [([= ] & _)|(_ & _ & ->)]).
    simpl. split_and!; try done.
    case_bool_decide; [|by intros ?%elem_of_nil].
    by intros [= ]%list_elem_of_singleton.
Qed.

Lemma process_matches_index (ms : list Span) (s s' : Env) (calls : list StateCall) :
  process_matches s ms = Some (s', calls) →
  placed_words s' = placed_words s
  ∧ correct_words s ⊆ correct_words s'
  ∧ (index_ok s → index_ok s')
  ∧ set_winners ∉ calls.
Proof.
  revert s s' calls. induction ms as [|g ms IH]; intros s s' calls; simpl.
  - intros [= <- <-]. split_and!; try done. by intros ?%elem_of_nil.
  - destruct (process_match s g) as [[[s1 c1] v]|] eqn:E; simpl; [|done].
    apply process_match_index in E as (Hp & Hc & Hi & Hw).
    destruct v; try (by intros [= <- <-]).
    destruct (process_matches s1 ms) as [[s2 c2]|] eqn:E2; simpl; [|done].
    apply IH in E2 as (Hp' & Hc' & Hi' & Hw').
    intros [= <- <-]. split_and!; [congruence|set_solver|tauto|].
    rewrite elem_of_app. tauto.
Qed.

(** Once all words are found they stay found. *)
Lemma all_found_stays (s s' : Env) :
  placed_words s' = placed_words s → correct_words s ⊆ correct_words s' →
  index_ok s' →
  size (correct_words s) = length (placed_words s) →
  size (correct_words s') = length (placed_words s').
Proof.
  intros Hp Hsub Hok Hall. apply index_ok_size in Hok.
  apply subseteq_size in Hsub. rewrite Hp in *. lia.
Qed.

Lemma step_win (s s' : Env) (ms : list Span) (calls : list StateCall) :
  step s ms = Some (s', calls) →
  placed_words s' = placed_words s
  ∧ correct_words s ⊆ correct_words s'
  ∧ (index_ok s → index_ok s')
  ∧ (ms = [] → s' = s)
  ∧ (set_winners ∈ calls ↔
       ms ≠ [] ∧ size (correct_words s') = length (placed_words s')).
Proof.
  unfold step. destruct ms as [|g ms].
  - intros [= <- <-]. split_and!; try done.
    split; [by intros [= ]%list_elem_of_singleton|by intros [? _]].
  - destruct (process_matches s (g :: ms)) as [[s1 c1]|] eqn:E; cbn [mbind option_bind];
      [|done].
    intros [= <- <-]. apply process_matches_index in E as (Hp & Hc & Hi & Hw).
    split_and!; try done. unfold _is_game_over. rewrite elem_of_app.
    case_bool_decide as Hover.
    + split; [done|]. intros _. right. by left.
    + split; [|by intros [_ ?]]. intros [?|?%elem_of_nil]; done.
Qed.

(** [C6] Win condition.  In an episode (any turns after a [reset])
    [correct_words] never holds more words than the index; [set_winners] has
    been called exactly when [correct_words] holds as many words as the
    index; while it has not been called, [correct_words] holds fewer; and a
    turn calls [set_winners] exactly when its action holds a guess and the
    two numbers are equal after it. *)
Theorem C6_win_exactly_when_all_found {R : Type} `{!RandomSource R, !RandomLaws R}
    (self s0 s : Env) (rng rng' : R) (calls : list StateCall) :
  reset self rng = Some (s0, rng') →
  run s0 calls s →
  (size (correct_words s) ≤ length (placed_words s))%nat
  ∧ (set_winners ∈ calls ↔ size (correct_words s) = length (placed_words s))
  ∧ (set_winners ∉ calls →
       (size (correct_words s) < length (placed_words s))%nat)
  ∧ ∀ ms s' calls', step s ms = Some (s', calls') →
      (set_winners ∈ calls' ↔
         ms ≠ [] ∧ size (correct_words s') = length (placed_words s')).
Proof.
  intros Hreset Hrun.
  apply reset_spec in Hreset as (_ & Hc0 & _ & _ & _ & r0 & r1 & Hgen).
  apply generate_index in Hgen as [Hne Hnd].
  assert (index_ok s0) as Hok0 by (split; [done|rewrite Hc0; set_solver]).
  assert (index_ok s
          ∧ (set_winners ∈ calls ↔ size (correct_words s) = length (placed_words s)))
    as [Hok Hiff].
  { induction Hrun as [s|s s1 s2 calls calls1 ms Hrun IH Hstep].
    - split; [done|]. rewrite Hc0, size_empty.
      split; [by intros ?%elem_of_nil|]. destruct (placed_words s); done.
    - destruct (IH Hc0 Hne Hnd Hok0) as [Hok1 Hiff1].
      apply step_win in Hstep as (Hp & Hsub & Hi & Hnil & Hw).
      split; [by apply Hi|]. rewrite elem_of_app, Hiff1, Hw. split.
      + intros [Hall|[_ Hall]]; [|done]. eapply all_found_stays; eauto.
      + intros Hall. destruct ms as [|g ms]; [|by right].
        left. by rewrite <- (Hnil eq_refl). }
  pose proof (index_ok_size s Hok) as Hle.
  split_and!; [done..| |].
  - intros Hnot. rewrite Hiff in Hnot. lia.
  - intros ms s' calls' Hstep. by apply step_win in Hstep as (_ & _ & _ & _ & Hw).
Qed.

(** [reset] leaves the counter of tries as it finds it, and empties the
    three collections of the session. *)
Lemma reset_session {R : Type} `{!RandomSource R, !RandomLaws R} (self self' : Env) (rng rng' : R) :
  reset self rng = Some (self', rng') →
  num_incorrect_tries self' = num_incorrect_tries self
  ∧ correct_words self' = ∅
  ∧ highlighted_positions self' = ∅
  ∧ incorrect_attempts self' = [].
Proof. intros H. apply reset_spec in H. tauto. Qed.

(** ** The budget of tries in an episode *)

Lemma run_board (s s' : Env) (calls : list StateCall) :
  run s calls s' → board s' = board s.
Proof.
  apply (run_inv (λ s', board s' = board s)); [|done].
  intros s1 g s2 calls1 v Hb Hpm.
  apply process_match_cases in Hpm
    as [(-> & _ & -> & ->)|[(-> & _ & _ & -> & ->)|
        [(-> & _ & _ & Hcg & ->)|(-> & _ & _ & s3 & Hcg & -> & ->)]]]; try done.
  - by apply check_guess_true in Hcg as (pw & _ & ->).
  - by apply (check_guess_false _ _ _ EmptyString) in Hcg as (_ & ->).
Qed.

Lemma reset_run_rectangular {R : Type} `{!RandomSource R, !RandomLaws R}
    (self s0 s : Env) (rng rng' : R) (calls : list StateCall) :
  reset self rng = Some (s0, rng') → run s0 calls s → rectangular (board s).
Proof.
  intros Hreset Hrun. rewrite (run_board _ _ _ Hrun).
  apply reset_spec in Hreset as (_ & _ & _ & _ & _ & r0 & r1 & Hgen).
  apply generate_square in Hgen as (gs & _ & Hsq). by eapply square_rectangular.
Qed.

Lemma check_guess_diagonal (self : Env) (sr sc er ec : Z) :
  sr ≠ er → sc ≠ ec →
  check_guess self (sr, sc, er, ec) = Some (false, record_incorrect self sr sc er ec).
Proof.
  intros Hr Hc. unfold check_guess, _check_word, _extract_word.
  rewrite !bool_decide_eq_false_2 by done. simpl.
  by rewrite first_match_diagonal.
Qed.

(** [C5], amended.  Budget monotonicity and draw.  In every state that turns
    lead to after a [reset], the loop body of [step] handles every guess, and:
    - the guess is out of bounds, or already attempted, or verified (handed
      to [_check_word]); it is verified and incorrect exactly when it is in
      bounds, not in [incorrect_attempts], and rejected by [_check_word];
    - a guess in bounds whose span is neither horizontal nor vertical is not
      turned away as invalid: unless it is already in [incorrect_attempts]
      it is verified and incorrect;
    - the counter decreases by exactly 1 when the guess is verified and
      incorrect, and is unchanged when the guess is out of bounds, already
      attempted, or correct;
    - [set_draw] is called exactly when the counter changed and is now 0;
      [correct_words] plays no part in it.
    A whole turn spends at most one try and calls [set_draw] exactly when the
    counter changed and is now 0; an action without a guess is an invalid
    move and changes nothing. *)
Theorem C5_budget_monotone_and_draw {R : Type} `{!RandomSource R, !RandomLaws R}
    (self0 s0 self : Env) (rng rng' : R) (calls0 : list StateCall)
    (sr sc er ec : Z) :
  reset self0 rng = Some (s0, rng') →
  run s0 calls0 self →
  (∃ self' calls v,
     process_match self (sr, sc, er, ec) = Some (self', calls, v)
     ∧ (v = out_of_bounds ↔ in_bounds (board self) (sr, sc, er, ec) = false)
     ∧ (v = already_attempted ↔
          in_bounds (board self) (sr, sc, er, ec) = true
          ∧ (sr, sc, er, ec) ∈ incorrect_attempts self)
     ∧ (v = incorrect ↔
          in_bounds (board self) (sr, sc, er, ec) = true
          ∧ ((sr, sc, er, ec) ∉ incorrect_attempts self)
          ∧ ∃ s1, check_guess self (sr, sc, er, ec) = Some (false, s1))
     ∧ (in_bounds (board self) (sr, sc, er, ec) = true → sr ≠ er → sc ≠ ec →
        ((sr, sc, er, ec) ∉ incorrect_attempts self) → v = incorrect)
     ∧ (v = incorrect → num_incorrect_tries self' = num_incorrect_tries self - 1)
     ∧ (v ≠ incorrect → num_incorrect_tries self' = num_incorrect_tries self)
     ∧ (set_draw ∈ calls ↔
          num_incorrect_tries self' = 0
          ∧ num_incorrect_tries self' ≠ num_incorrect_tries self))
  ∧ step self [] = Some (self, [set_invalid_move])
  ∧ ∀ ms self' calls, step self ms = Some (self', calls) →
      (num_incorrect_tries self' = num_incorrect_tries self
       ∨ num_incorrect_tries self' = num_incorrect_tries self - 1)
      ∧ (set_draw ∈ calls ↔
           num_incorrect_tries self' = 0
           ∧ num_incorrect_tries self' ≠ num_incorrect_tries self).
Proof.
  intros Hreset Hrun.
  pose proof (reset_run_rectangular _ _ _ _ _ _ Hreset Hrun) as Hrect.
  split; [|split; [done|intros ms self' calls; apply step_tries]].
  destruct (process_match_total self (sr, sc, er, ec) Hrect) as [[[self' calls] v] Hpm].
  exists self', calls, v. split; [done|].
  pose proof (process_match_tries _ _ _ _ _ Hpm) as (Hinc & Hother & Hdraw).
  assert (in_bounds (board self) (sr, sc, er, ec) = true → sr ≠ er → sc ≠ ec →
          ((sr, sc, er, ec) ∉ incorrect_attempts self) → v = incorrect) as Hdiag.
  { intros Hb Hr Hc Hnew. pose proof (check_guess_diagonal self sr sc er ec Hr Hc) as Hcg.
    apply process_match_cases in Hpm
      as [(_ & Hb' & _)|[(_ & _ & Hdup & _)|[(_ & _ & _ & Hcw & _)|(-> & _)]]];
      [congruence|done|congruence|done]. }
  split_and!; [| | |done..]; clear Hinc Hother Hdraw Hdiag;
    apply process_match_cases in Hpm
      as [(-> & Hb & -> & ->)|[(-> & Hb & Hdup & -> & ->)|
          [(-> & Hb & Hdup & Hcw & ->)|(-> & Hb & Hdup & s1 & Hcw & -> & ->)]]].
  - done.
  - split; [done|]. congruence.
  - split; [done|]. congruence.
  - split; [done|]. congruence.
  - split; [done|]. intros [? _]. congruence.
  - done.
  - split; [done|]. by intros [_ ?].
  - split; [done|]. by intros [_ ?].
  - split; [done|]. intros [? _]. congruence.
  - split; [done|]. by intros (_ & ? & _).
  - split; [done|]. intros (_ & _ & s2 & Hs2). congruence.
  - split; [intros _; split_and!; eauto|done].
Qed.

(** ** Generation returns *)

Lemma square_index_row (gs : Z) (grid : Grid) (r : Z) :
  square gs grid → 0 <= r < gs →
  ∃ line, Py.index grid r = Some line ∧ Py.len line = gs.
Proof.
  intros [Hlen Hlines] Hr. rewrite index_nonneg by lia.
  destruct (lookup_lt_is_Some_2 grid (Z.to_nat r)) as [line Hl];
    [unfold Py.len in Hlen; lia|].
  exists line. split; [done|]. apply Hlines. by eapply list_elem_of_lookup_2.
Qed.

Lemma square_grid_get (gs : Z) (grid : Grid) (r c : Z) :
  square gs grid → 0 <= r < gs → 0 <= c < gs → is_Some (grid_get grid r c).
Proof.
  intros Hsq Hr Hc. unfold grid_get.
  destruct (square_index_row gs grid r Hsq Hr) as (line & -> & Hlen). simpl.
  rewrite index_nonneg by lia. apply lookup_lt_is_Some_2.
  unfold Py.len in Hlen. lia.
Qed.

Lemma square_width (gs : Z) (grid : Grid) : square gs grid → 1 <= gs → width grid = gs.
Proof.
  intros [Hlen Hlines] Hgs. destruct grid as [|line grid]; [unfold Py.len in Hlen; simpl in *; lia|].
  simpl. apply Hlines. by left.
Qed.

Lemma cells_free_total (grid : Grid) (cells : list (Z * Z * ascii)) :
  (∀ r c l, (r, c, l) ∈ cells → is_Some (grid_get grid r c)) →
  is_Some (cells_free grid cells).
Proof.
  induction cells as [|[[r c] l] cells IH]; intros Hget; simpl; [done|].
  destruct (Hget r c l) as [x ->]; [by left|]. simpl.
  destruct (_ && _); [done|]. apply IH. intros r' c' l' ?. apply (Hget r' c' l'). by right.
Qed.

Lemma can_place_total (gs : Z) (grid : Grid) (w : string) (d : Direction) (row col : Z) :
  square gs grid → 0 <= row < gs → 0 <= col < gs →
  is_Some (_can_place_word grid w d row col).
Proof.
  intros Hsq Hrow Hcol. unfold _can_place_word. destruct d.
  - destruct (square_index_row gs grid 0 Hsq) as (line0 & -> & Hlen); [lia|]. simpl.
    rewrite Hlen. case_bool_decide; [done|]. apply cells_free_total.
    intros r c l (i & Hi & [= -> ->])%elem_of_word_cells.
    apply elem_of_enumerate_from in Hi. apply (square_grid_get gs); [done|lia..].
  - destruct Hsq as [Hlen Hlines]. rewrite Hlen.
    case_bool_decide; [done|]. apply cells_free_total.
    intros r c l (i & Hi & [= -> ->])%elem_of_word_cells.
    apply elem_of_enumerate_from in Hi. apply (square_grid_get gs); [done|lia..].
Qed.

Lemma place_total (grid : Grid) (w : string) (pos : Placement) :
  proper_anchor pos →
  _can_place_word grid w pos.2 pos.1.1 pos.1.2 = Some true →
  is_Some (_place_word_on_grid grid w pos.2 pos.1.1 pos.1.2).
Proof.
  destruct pos as [[row col] d]. simpl. intros [Hrow Hcol] Hcan. simpl in *.
  apply can_place_true in Hcan. pose proof (cells_free_true _ _ Hcan) as Hfree.
  unfold _place_word_on_grid.
  destruct (for_each_total (λ g : Grid, shape g = shape grid)
              (λ (g : Grid) (cl : Z * Z * ascii),
                 let '(r, c, letter) := cl in grid_set g r c letter)
              (word_cells d row col w) grid) as (g' & Hg' & _); [|done|by eexists].
  intros g [[r c] l] Hin Hs.
  destruct (word_cells_nonneg _ _ _ _ _ _ _ Hrow Hcol Hin) as [Hr Hc].
  destruct (grid_set_total g r c l Hr Hc) as [g1 Hg1].
  { apply (grid_get_shape g grid r c Hs). destruct (Hfree _ _ _ Hin) as (x & -> & _). eauto. }
  exists g1. split; [done|]. rewrite <- Hs. by apply (grid_set_shape g g1 r c l).
Qed.

Lemma place_first_total (gs : Z) (grid : Grid) (w : string) (cands : list Placement) :
  square gs grid → 1 <= gs → Forall (on_grid grid) cands →
  is_Some (place_first grid w cands).
Proof.
  intros Hsq Hgs. induction cands as [|[[row col] d] cands IH]; intros Hc; simpl; [done|].
  apply Forall_cons in Hc as [[Hrow Hcol] Hc]. simpl in *.
  rewrite (square_width gs) in Hcol by done. destruct Hsq as [Hlen Hlines].
  rewrite Hlen in Hrow.
  destruct (can_place_total gs grid w d row col) as [[|] Hcan]; [done..| |];
    rewrite Hcan; simpl.
  - destruct (place_total grid w (row, col, d)) as [g' Hg']; [split; simpl; lia|done|].
    simpl in Hg'. by rewrite Hg'.
  - by apply IH.
Qed.

Lemma find_overlaps_total (gs : Z) (placed : Py.dict Placement) (w : string)
    (grid : Grid) (dirs : Py.dict Direction) :
  square gs grid → 1 <= gs → is_Some (Py.get dirs w) →
  is_Some (_find_overlaps placed w grid dirs).
Proof.
  intros Hsq Hgs [d0 Hd0]. unfold _find_overlaps.
  assert (∀ p_row p_col p_d i j (o : list Placement),
            is_Some (overlap_at w grid dirs p_row p_col p_d i j o)) as Hat.
  { intros p_row p_col p_d i j o. unfold overlap_at. rewrite Hd0.
    destruct p_d; cbn -[_can_place_word];
      (destruct (_ && _) eqn:B; [|done]);
      apply andb_true_iff in B as [[_ Hr%bool_decide_eq_true]%andb_true_iff
                                     Hc%bool_decide_eq_true];
      rewrite (square_width gs) in Hc by done;
      destruct Hsq as [Hlen Hlines]; rewrite Hlen in Hr;
      (match goal with
       | |- context [_can_place_word ?g ?w' ?d' ?r ?c] =>
           destruct (can_place_total gs g w' d' r c) as [b Hb];
             [done..|rewrite Hb]
       end); done. }
  destruct (for_each_total (λ _ : list Placement, True)
              (λ (overlaps : list Placement) (entry : string * Placement),
                 let '(placed_word, (p_row, p_col, p_direction)) := entry in
                 Py.for_each (λ (overlaps : list Placement) (il : Z * ascii),
                   Py.for_each (λ (overlaps : list Placement) (jl : Z * ascii),
                     if bool_decide (il.2 = jl.2)
                     then overlap_at w grid dirs p_row p_col p_direction il.1 jl.1 overlaps
                     else Some overlaps)
                   overlaps (Py.enumerate placed_word))
                 overlaps (Py.enumerate w))
              placed []) as (o & Ho & _); [|done|by eexists].
  intros o1 [pw [[p_row p_col] p_d]] _ _.
  destruct (for_each_total (λ _ : list Placement, True)
              (λ (overlaps : list Placement) (il : Z * ascii),
                 Py.for_each (λ (overlaps : list Placement) (jl : Z * ascii),
                   if bool_decide (il.2 = jl.2)
                   then overlap_at w grid dirs p_row p_col p_d il.1 jl.1 overlaps
                   else Some overlaps)
                 overlaps (Py.enumerate pw))
              (Py.enumerate w) o1) as (o & Ho & _); [|done|by eexists].
  intros o2 il _ _.
  destruct (for_each_total (λ _ : list Placement, True)
              (λ (overlaps : list Placement) (jl : Z * ascii),
                 if bool_decide (il.2 = jl.2)
                 then overlap_at w grid dirs p_row p_col p_d il.1 jl.1 overlaps
                 else Some overlaps)
              (Py.enumerate pw) o2) as (o & Ho & _); [|done|by eexists].
  intros o3 jl _ _. case_bool_decide; [|by eexists].
  destruct (Hat p_row p_col p_d il.1 jl.1 o3) as [o Ho]. by exists o.
Qed.

Lemma scan_first_total (gs : Z) (grid : Grid) (w : string) (dirs : Py.dict Direction) :
  square gs grid → 1 <= gs → is_Some (Py.get dirs w) →
  is_Some (scan_first grid w dirs gs).
Proof.
  intros Hsq Hgs [d Hd]. unfold scan_first. rewrite Hd.
  destruct (Py.range gs) eqn:E; [done|]. rewrite <- E. cbn [mbind option_bind].
  apply (place_first_total gs); [done..|].
  apply Forall_forall. intros [[row col] d'] Hin.
  apply list_elem_of_bind in Hin as (row' & Hin & Hrow').
  apply list_elem_of_bind in Hin as (col' & Hin & Hcol').
  apply list_elem_of_singleton in Hin as [= -> -> ->].
  apply elem_of_range2 in Hrow', Hcol'. split; simpl.
  - destruct Hsq as [-> _]. lia.
  - rewrite (square_width gs) by done. lia.
Qed.

Lemma place_word_total {R : Type} `{!RandomSource R, !RandomLaws R} (gs : Z)
    (dirs : Py.dict Direction) (grid : Grid) (placed : Py.dict Placement) (rng : R)
    (w : string) :
  square gs grid → 1 <= gs → Py.slen w <= gs → is_Some (Py.get dirs w) →
  is_Some (place_word gs dirs (grid, placed, rng) w).
Proof.
  intros Hsq Hgs Hw Hd. unfold place_word.
  assert (∀ (att : option (Grid * Placement)) (r : R),
            is_Some (att ← match att with
                           | Some a => Some (Some a)
                           | None => scan_first grid w dirs gs
                           end;
                     match att with
                     | Some (g1, position) => Some (g1, Py.set placed w position, r)
                     | None => Some (grid, placed, r)
                     end)) as Hrest.
  { intros [[g1 pos]|] r; simpl; [done|].
    destruct (scan_first_total gs grid w dirs Hsq Hgs Hd) as [[[g1 pos]|] ->]; done. }
  destruct placed as [|entry placed0].
  - destruct Hd as [d Hd]. rewrite Hd. cbn [mbind option_bind].
    set (pos := match d with
                | across => (gs / 2, (gs - Py.slen w) / 2)
                | down => ((gs - Py.slen w) / 2, gs / 2)
                end).
    assert (0 <= pos.1 < gs ∧ 0 <= pos.2 < gs) as Hpos.
    { pose proof (Z.div_mod gs 2). pose proof (Z.mod_pos_bound gs 2).
      pose proof (Z.div_mod (gs - Py.slen w) 2).
      pose proof (Z.mod_pos_bound (gs - Py.slen w) 2).
      assert (0 <= Py.slen w) by (unfold Py.slen; lia).
      subst pos. destruct d; simpl; lia. }
    destruct pos as [row col]. simpl in Hpos.
    destruct (place_first_total gs grid w [(row, col, d)]) as [att Hatt]; [done..| |].
    { apply Forall_singleton. split; simpl.
      - destruct Hsq as [-> _]. lia.
      - rewrite (square_width gs) by done. lia. }
    rewrite Hatt. cbn [mbind option_bind]. apply Hrest.
  - destruct (find_overlaps_total gs (entry :: placed0) w grid dirs) as [possible Hfo];
      [done..|].
    rewrite Hfo. cbn [mbind option_bind].
    destruct (rand_shuffle rng possible) as [shuffled rng1] eqn:Esh.
    destruct (place_first_total gs grid w shuffled) as [att Hatt]; [done..| |].
    { apply find_overlaps_on_grid in Hfo.
      pose proof (rand_shuffle_perm _ rng possible) as Hperm. rewrite Esh in Hperm.
      simpl in Hperm. by rewrite Hperm. }
    rewrite Hatt. cbn [mbind option_bind]. apply Hrest.
Qed.

(** Generation returns a grid and an index whenever the word list has a
    word with a letter and every word has a direction. *)
Lemma generate_total {R : Type} `{!RandomSource R, !RandomLaws R} (ws : list string)
    (dirs : Py.dict Direction) (rng : R) :
  (∃ w, w ∈ ws ∧ w ≠ EmptyString) →
  (∀ w, w ∈ ws → is_Some (Py.get dirs w)) →
  is_Some (generate ws dirs rng).
Proof.
  intros (w0 & Hw0 & Hne) Hdirs. unfold generate.
  destruct (_determine_initial_grid_size ws) as [gs|] eqn:Egs.
  2:{ unfold _determine_initial_grid_size in Egs.
      destruct ws; [by apply elem_of_nil in Hw0|done]. }
  cbn [mbind option_bind].
  destruct (grid_size_spec _ _ Egs) as [Hnn Hfit].
  assert (1 <= gs) as Hgs.
  { specialize (Hfit w0 Hw0). destruct w0; [done|]. unfold Py.slen in Hfit.
    simpl in Hfit. lia. }
  destruct (for_each_total
              (λ st : Grid * Py.dict Placement * R,
                 shape st.1.1 = shape (_create_empty_grid gs))
              (place_word gs dirs) ws (_create_empty_grid gs, [], rng))
    as ([[grid1 placed] rng1] & Hloop & Hshape); [|done|].
  { intros [[g p] r] w Hw Hs. simpl in Hs.
    assert (square gs g) as Hsq
      by (apply shape_square; [done|]; by rewrite Hs, shape_empty_grid).
    destruct (place_word_total gs dirs g p r w) as [[[g' p'] r'] Hstep]; [auto..|].
    exists (g', p', r'). split; [done|]. simpl.
    apply place_word_cases in Hstep as [[-> _]|(cands & pos & Hc & Hpf & _)];
      [done| |done|by apply Hfit].
    apply place_first_Some in Hpf as (Hin & _ & Hplace).
    rewrite <- Hs. eapply place_shape; [|done]. by eapply Forall_forall in Hc. }
  rewrite Hloop. cbn [mbind option_bind]. simpl in Hshape.
  rewrite shape_empty_grid in Hshape.
  assert (rectangular grid1) as Hrect
    by (eapply square_rectangular; by apply shape_square).
  destruct (fill_spec grid1 Hrect rng1) as ([grid2 rng2] & -> & _). done.
Qed.

Lemma dict_get_set {V} (d : Py.dict V) (k k' : string) (v : V) :
  Py.get (Py.set d k v) k' = if decide (k = k') then Some v else Py.get d k'.
Proof.
  induction d as [|[k1 v1] d IH]; simpl.
  - by repeat case_decide.
  - destruct (decide (k1 = k)) as [->|E]; simpl.
    + by repeat case_decide.
    + rewrite IH. repeat case_decide; congruence.
Qed.

Lemma choose_directions_total {R : Type} `{!RandomSource R, !RandomLaws R}
    (ws : list string) (rng : R) :
  ∃ dirs rng', choose_directions ws rng = Some (dirs, rng')
               ∧ ∀ w, w ∈ ws → is_Some (Py.get dirs w).
Proof.
  unfold choose_directions.
  assert (∀ (l : list string) (st : Py.dict Direction * R),
            ∃ st', Py.for_each
                     (λ (st : Py.dict Direction * R) (word : string),
                        '(d, rng) ← rand_choice st.2 [across; down];
                        Some (Py.set st.1 word d, rng)) st l = Some st'
                   ∧ ∀ w, w ∈ l ∨ is_Some (Py.get st.1 w) → is_Some (Py.get st'.1 w)) as H.
  { induction l as [|w l IH]; intros [d r]; simpl.
    - eexists. split; [done|]. by intros w [?%elem_of_nil|?].
    - destruct (rand_choice_elem Direction r across [down]) as (x & r1 & -> & _). simpl.
      destruct (IH (Py.set d w x, r1)) as (st' & -> & Hst').
      exists st'. split; [done|]. intros w' [[->|Hin]%elem_of_cons|Hsome].
      + apply Hst'. right. simpl. rewrite dict_get_set, decide_True by done. eauto.
      + apply Hst'. by left.
      + apply Hst'. right. simpl. rewrite dict_get_set. by case_decide. }
  destruct (H ws ([], rng)) as ([dirs rng'] & Hfe & Hall).
  exists dirs, rng'. split; [done|]. intros w Hw. apply Hall. by left.
Qed.

Lemma upper_nonempty (s : string) : s ≠ EmptyString → upper s ≠ EmptyString.
Proof. by destruct s. Qed.

Lemma elem_of_insert_by_length (w v : string) (ws : list string) :
  v ∈ insert_by_length w ws ↔ v = w ∨ v ∈ ws.
Proof.
  induction ws as [|u ws IH]; simpl.
  - rewrite list_elem_of_singleton. split; [by left|]. by intros [?|?%elem_of_nil].
  - case_bool_decide; rewrite !elem_of_cons; [done|]. rewrite IH. tauto.
Qed.

Lemma elem_of_sorted_longest_first (v : string) (ws : list string) :
  v ∈ sorted_longest_first ws ↔ v ∈ ws.
Proof.
  unfold sorted_longest_first. induction ws as [|u ws IH]; simpl; [done|].
  rewrite elem_of_insert_by_length, IH, elem_of_cons. done.
Qed.

(** [reset] returns whenever the corpus has at least [num_words] words, one
    word at least is asked for, and no word of the corpus is empty. *)
Lemma reset_total {R : Type} `{!RandomSource R, !RandomLaws R} (self : Env) (rng : R) :
  (0 < num_words self ≤ length (word_list self))%nat →
  Forall (λ w, w ≠ EmptyString) (word_list self) →
  is_Some (reset self rng).
Proof.
  intros [Hpos Hle] Hne. unfold reset, _generate_word_search.
  destruct (rand_sample_total _ rng (word_list self) (num_words self) Hle)
    as [[sampled r1] Hs].
  rewrite Hs. cbn [mbind option_bind].
  apply rand_sample_sub in Hs as [Hlen Hsub].
  destruct (choose_directions_total (sorted_longest_first (map upper sampled)) r1)
    as (dirs & r2 & -> & Hdirs).
  cbn [mbind option_bind].
  destruct (generate_total (sorted_longest_first (map upper sampled)) dirs r2)
    as [[[grid placed] r3] ->]; [|done|done].
  destruct sampled as [|w0 sampled]; [simpl in Hlen; lia|].
  exists (upper w0). split.
  - apply elem_of_sorted_longest_first. by left.
  - apply upper_nonempty. rewrite Forall_forall in Hne. apply Hne.
    eapply elem_of_submseteq; [|done]. by left.
Qed.

(** [C3], amended.  Generation returns a grid whenever the word list has a
    word with a letter and every word has a direction.  Whenever it returns
    a grid, the word list is not empty and the grid is square with side
    [round(1.5 * m)], [m] being the length of the longest word and [round]
    rounding a half to the even neighbour: the side [n] is the integer nearest
    to [3m/2], and it is even when [3m/2] lies halfway between two integers. *)
Theorem C3_grid_square_half_even {R : Type} `{!RandomSource R, !RandomLaws R}
    (ws : list string) (dirs : Py.dict Direction) (rng : R) :
  ((∃ w, w ∈ ws ∧ w ≠ EmptyString) → (∀ w, w ∈ ws → is_Some (Py.get dirs w)) →
   is_Some (generate ws dirs rng))
  ∧ ∀ grid placed rng', generate ws dirs rng = Some (grid, placed, rng') →
      ∃ m n,
        ws ≠ []
        ∧ (∃ w, w ∈ ws ∧ Py.slen w = m) ∧ (∀ w, w ∈ ws → Py.slen w <= m)
        ∧ n = Py.round_three_halves m
        ∧ Z.abs (2 * n - 3 * m) <= 1 ∧ (Z.abs (2 * n - 3 * m) = 1 → Z.even n = true)
        ∧ square n grid.
Proof.
  split; [apply generate_total|].
  intros grid placed rng' (gs & Hgs & Hsq)%generate_square.
  unfold _determine_initial_grid_size in Hgs.
  destruct (Py.max (map Py.slen ws)) as [m|] eqn:Emax; simpl in Hgs; [|done].
  injection Hgs as <-. exists m, (Py.round_three_halves m).
  apply py_max_spec in Emax as [Hin Hall].
  apply list_elem_of_fmap in Hin as (w & Hw & Hin).
  split_and!; try done.
  - intros ->. by apply elem_of_nil in Hin.
  - by exists w.
  - intros w' Hw'. apply Hall, list_elem_of_fmap. by exists w'.
  - apply round_three_halves_nearest_even.
  - apply round_three_halves_nearest_even.
Qed.

(** ** A concrete episode *)

Lemma demo_reset : reset (__init__ demo_corpus) 0%nat = Some (demo_env, 75%nat).
Proof. by vm_compute. Qed.

Lemma demo_rectangular : rectangular (board demo_env).
Proof.
  intros line Hline. simpl in Hline.
  repeat (apply elem_of_cons in Hline as [->|Hline]; [reflexivity|]).
  by apply elem_of_nil in Hline.
Qed.

(** [C1] The failing input.  In the concrete episode CAT (3 letters) is
    placed across from row 0, column 0.  The span from (0, 0) to (0, 1) has
    2 cells and reads "CA"; [_check_word] returns true on it and adds CAT to
    [correct_words]. *)
Lemma C1_short_span_is_accepted :
  Py.get (placed_words demo_env) "CAT" = Some (0, 0, across)
  ∧ Py.slen "CAT" = 3
  ∧ span_length (0, 0, 0, 1) = 2
  ∧ _extract_word (board demo_env) 0 0 0 1 = Some "CA"%string
  ∧ _check_word demo_env (board demo_env) 0 0 0 1
    = Some (true, record_found demo_env "CAT" 0 0 0 1)
  ∧ "CAT"%string ∈ correct_words (record_found demo_env "CAT" 0 0 0 1).
Proof.
  split_and!; by vm_compute.
Qed.

(** [C3] The counterexample.  For the words CAT and DOG the longest word has
    3 letters, rounding a half up gives the side 5, and the generated grid
    has 4 rows. *)
Lemma C3_counterexample :
  round_half_up_three_halves 3 = 5
  ∧ ¬ (∀ grid placed rng',
         generate ["CAT"; "DOG"]%string [("CAT", across); ("DOG", down)]%string 0%nat
         = Some (grid, placed, rng') →
         square (round_half_up_three_halves 3) grid).
Proof.
  split; [done|]. intros H.
  destruct (generate ["CAT"; "DOG"]%string [("CAT", across); ("DOG", down)]%string 0%nat)
    as [[[grid placed] rng']|] eqn:E; [|by vm_compute in E].
  destruct (H grid placed rng' eq_refl) as [Hlen _].
  vm_compute in E. injection E as <- _ _. by vm_compute in Hlen.
Qed.

(** [C4] The counterexample.  In the concrete episode the guess from (0, 0)
    to (1, 1) is in bounds and neither horizontal nor vertical; the loop of
    [step] hands it to [_check_word], which returns false, and afterwards the
    span is logged in [incorrect_attempts] and one try is spent: neither
    [incorrect_attempts] nor the counter is what it was. *)
Lemma C4_counterexample :
  in_bounds (board demo_env) (0, 0, 1, 1) = true
  ∧ (0 ≠ 1 ∧ 0 ≠ 1)
  ∧ check_guess demo_env (0, 0, 1, 1) = Some (false, record_incorrect demo_env 0 0 1 1)
  ∧ process_match demo_env (0, 0, 1, 1)
    = Some (decrement_tries (record_incorrect demo_env 0 0 1 1), [], incorrect)
  ∧ incorrect_attempts (decrement_tries (record_incorrect demo_env 0 0 1 1))
    ≠ incorrect_attempts demo_env
  ∧ num_incorrect_tries (decrement_tries (record_incorrect demo_env 0 0 1 1))
    ≠ num_incorrect_tries demo_env.
Proof. split_and!; by vm_compute. Qed.

(** [C5] The counterexample.  The concrete episode has 20 tries left and
    nothing in its log.  The guess from (3, 1) to (5, 6) lies on the board and
    is neither horizontal nor vertical, so it is a malformed guess as the
    specification defines it, and it is no duplicate.  The loop of [step]
    spends a try on it: it is not true that the counter never decreases on
    an invalid guess. *)
Lemma C5_counterexample :
  spec_malformed_guess (board demo_env) (3, 1, 5, 6)
  ∧ ((3, 1, 5, 6) ∉ incorrect_attempts demo_env)
  ∧ num_incorrect_tries demo_env = 20
  ∧ process_match demo_env (3, 1, 5, 6)
    = Some (decrement_tries (record_incorrect demo_env 3 1 5 6), [], incorrect)
  ∧ num_incorrect_tries (decrement_tries (record_incorrect demo_env 3 1 5 6)) = 19
  ∧ ¬ (∀ self' calls v,
         process_match demo_env (3, 1, 5, 6) = Some (self', calls, v) →
         num_incorrect_tries demo_env <= num_incorrect_tries self').
Proof.
  assert (process_match demo_env (3, 1, 5, 6)
          = Some (decrement_tries (record_incorrect demo_env 3 1 5 6), [], incorrect))
    as Hpm by (by vm_compute).
  split_and!; [right; split; lia|by apply (bool_decide_unpack _)|done|done|done|].
  intros H. specialize (H _ _ _ Hpm). by vm_compute in H.
Qed.

(** [C7] The failing input.  On one environment object: a first [reset], a
    turn with the incorrect guess from (7, 7) to (7, 7), and a second [reset].
    The counter of tries is 19 after the second [reset]; the three
    collections are empty. *)
Lemma C7_second_reset_keeps_spent_tries :
  ∃ e1 r1 e2 calls e3 r3,
    reset (__init__ demo_corpus) 0%nat = Some (e1, r1)
    ∧ num_incorrect_tries e1 = 20
    ∧ step e1 [(7, 7, 7, 7)] = Some (e2, calls)
    ∧ reset e2 1%nat = Some (e3, r3)
    ∧ num_incorrect_tries e3 = 19
    ∧ correct_words e3 = ∅ ∧ highlighted_positions e3 = ∅
    ∧ incorrect_attempts e3 = [].
Proof.
  exists demo_env, 75%nat.
  destruct (step demo_env [(7, 7, 7, 7)]) as [[e2 calls]|] eqn:E2;
    [|by vm_compute in E2].
  destruct (reset e2 1%nat) as [[e3 r3]|] eqn:E3.
  2:{ vm_compute in E2. injection E2 as <- <-. by vm_compute in E3. }
  exists e2, calls, e3, r3.
  destruct (reset_session _ _ _ _ E3) as (Ht & Hc & Hh & Ha).
  vm_compute in E2. injection E2 as <- <-.
  split_and!; try done; apply demo_reset.
Qed.

(** ** The theorems on concrete inputs *)

Lemma C2_witness :
  0 <= 2 ∧ 0 <= 0
  ∧ read_word demo_generated.1.1 across 2 0 (Py.slen "CAT") = Some "CAT"%string.
Proof.
  apply (C2_placement_consistency demo_words demo_directions 0%nat demo_generated.2
           demo_generated.1.1 demo_generated.1.2).
  - repeat constructor; by intros [= ].
  - by vm_compute.
  - by apply (bool_decide_unpack _).
Defined.

Lemma C3_witness :
  ∃ m n,
    demo_words ≠ []
    ∧ (∃ w, w ∈ demo_words ∧ Py.slen w = m) ∧ (∀ w, w ∈ demo_words → Py.slen w <= m)
    ∧ n = Py.round_three_halves m
    ∧ Z.abs (2 * n - 3 * m) <= 1 ∧ (Z.abs (2 * n - 3 * m) = 1 → Z.even n = true)
    ∧ square n demo_generated.1.1.
Proof.
  apply (proj2 (C3_grid_square_half_even demo_words demo_directions 0%nat)
           demo_generated.1.1 demo_generated.1.2 demo_generated.2).
  by vm_compute.
Defined.

Lemma C4_witness :
  check_guess demo_env (0, 0, 1, 1) = Some (false, record_incorrect demo_env 0 0 1 1)
  ∧ ∃ self' calls v,
      process_match demo_env (0, 0, 1, 1) = Some (self', calls, v)
      ∧ correct_words self' = correct_words demo_env
      ∧ highlighted_positions self' = highlighted_positions demo_env
      ∧ ((0, 0, 1, 1) ∈ incorrect_attempts demo_env →
           v = already_attempted ∧ self' = demo_env)
      ∧ ((0, 0, 1, 1) ∉ incorrect_attempts demo_env →
           v = incorrect
           ∧ incorrect_attempts self' = incorrect_attempts demo_env ++ [(0, 0, 1, 1)]
           ∧ num_incorrect_tries self' = num_incorrect_tries demo_env - 1).
Proof.
  apply (C4_diagonal_guess_is_incorrect_attempt demo_env 0 0 1 1).
  - reflexivity.
  - lia.
  - lia.
Defined.

Lemma C5_witness :
  (∃ self' calls v,
     process_match demo_later (0, 0, 1, 1) = Some (self', calls, v)
     ∧ (v = out_of_bounds ↔ in_bounds (board demo_later) (0, 0, 1, 1) = false)
     ∧ (v = already_attempted ↔
          in_bounds (board demo_later) (0, 0, 1, 1) = true
          ∧ (0, 0, 1, 1) ∈ incorrect_attempts demo_later)
     ∧ (v = incorrect ↔
          in_bounds (board demo_later) (0, 0, 1, 1) = true
          ∧ ((0, 0, 1, 1) ∉ incorrect_attempts demo_later)
          ∧ ∃ s1, check_guess demo_later (0, 0, 1, 1) = Some (false, s1))
     ∧ (in_bounds (board demo_later) (0, 0, 1, 1) = true → 0 ≠ 1 → 0 ≠ 1 →
        ((0, 0, 1, 1) ∉ incorrect_attempts demo_later) → v = incorrect)
     ∧ (v = incorrect → num_incorrect_tries self' = num_incorrect_tries demo_later - 1)
     ∧ (v ≠ incorrect → num_incorrect_tries self' = num_incorrect_tries demo_later)
     ∧ (set_draw ∈ calls ↔
          num_incorrect_tries self' = 0
          ∧ num_incorrect_tries self' ≠ num_incorrect_tries demo_later))
  ∧ step demo_later [] = Some (demo_later, [set_invalid_move])
  ∧ ∀ ms self' calls, step demo_later ms = Some (self', calls) →
      (num_incorrect_tries self' = num_incorrect_tries demo_later
       ∨ num_incorrect_tries self' = num_incorrect_tries demo_later - 1)
      ∧ (set_draw ∈ calls ↔
           num_incorrect_tries self' = 0
           ∧ num_incorrect_tries self' ≠ num_incorrect_tries demo_later).
Proof.
  apply (C5_budget_monotone_and_draw (R := nat) (RandomLaws0 := lcg_laws)
           (__init__ demo_corpus) demo_env demo_later 0%nat 75%nat (([] ++ []) ++ [])
           0 0 1 1).
  - by vm_compute.
  - apply (run_step demo_env demo_found demo_later ([] ++ []) []
             [(0, 3, 0, 5); (7, 7, 7, 7)]).
    + apply (run_step demo_env demo_env demo_found [] [] [(0, 0, 0, 2)]).
      * apply run_nil.
      * by vm_compute.
    + by vm_compute.
Defined.

Lemma C6_witness :
  (size (correct_words demo_found) ≤ length (placed_words demo_found))%nat
  ∧ (set_winners ∈ [] ++ [] ↔
       size (correct_words demo_found) = length (placed_words demo_found))
  ∧ (set_winners ∉ [] ++ [] →
       (size (correct_words demo_found) < length (placed_words demo_found))%nat)
  ∧ ∀ ms s' calls', step demo_found ms = Some (s', calls') →
      (set_winners ∈ calls' ↔
         ms ≠ [] ∧ size (correct_words s') = length (placed_words s')).
Proof.
  apply (C6_win_exactly_when_all_found (__init__ demo_corpus) demo_env demo_found
           0%nat 75%nat ([] ++ [])).
  - by vm_compute.
  - apply (run_step demo_env demo_env demo_found [] [] [(0, 0, 0, 2)]).
    + apply run_nil.
    + by vm_compute.
Defined.

Lemma C9_witness :
  _check_word demo_env [["C"; "A"]; ["T"; "S"]]%char 0 0 0 1
  = _check_word demo_env [["X"; "Y"]; ["Z"; "W"]]%char 0 0 0 1.
Proof.
  apply (C9_check_word_ignores_letters demo_env
           [["C"; "A"]; ["T"; "S"]]%char [["X"; "Y"]; ["Z"; "W"]]%char 0 0 0 1).
  reflexivity.
Defined.

Lemma C10_witness :
  ((0, 0, 0, 2) ∉ incorrect_attempts demo_later)
  ∧ check_guess demo_later (0, 0, 0, 2) = Some (true, demo_later)
  ∧ process_match demo_later (0, 0, 0, 2) = Some (demo_later, [], correct).
Proof.
  apply (C10_repeated_correct_guess demo_env demo_found demo_later (0, 0, 0, 2)
           [] ([] ++ [])).
  - by vm_compute.
  - apply (run_step demo_found demo_found demo_later [] [] [(0, 3, 0, 5); (7, 7, 7, 7)]).
    + apply run_nil.
    + by vm_compute.
Defined.


(** * Further properties of the environment *)

(** ** The size of the grid, again *)

Lemma round_three_halves_gt (m : Z) : 1 <= m → m < Py.round_three_halves m.
Proof.
  intros Hm. unfold Py.round_three_halves.
  pose proof (Z.div_mod (3 * m) 2). pose proof (Z.mod_pos_bound (3 * m) 2).
  destruct (Z.even (3 * m)) eqn:E3.
  - apply Z.even_spec in E3 as [k Hk]. lia.
  - destruct (decide (m = 1)) as [->|Hne]; [done|].
    destruct (Z.even (3 * m / 2)); lia.
Qed.

(** [X1] [_determine_initial_grid_size] raises exactly on the empty word
    list.  Otherwise the side it returns is at least the length of every
    word and greater than the length of every word that has a letter, so the
    longest word never fills a whole row or column. *)
Theorem X1_grid_size_exceeds_words (ws : list string) :
  (_determine_initial_grid_size ws = None ↔ ws = [])
  ∧ ∀ n, _determine_initial_grid_size ws = Some n →
      ∀ w, w ∈ ws → Py.slen w <= n ∧ (w ≠ EmptyString → Py.slen w < n).
Proof.
  split.
  - unfold _determine_initial_grid_size. destruct ws; simpl; [done|].
    split; [done|]. done.
  - intros n Hn w Hw. destruct (grid_size_spec _ _ Hn) as [_ Hfit].
    split; [by apply Hfit|]. intros Hne.
    unfold _determine_initial_grid_size in Hn.
    destruct (Py.max (map Py.slen ws)) as [m|] eqn:E; simpl in Hn; [|done].
    injection Hn as <-. apply py_max_spec in E as [_ Hall].
    assert (Py.slen w <= m) by (apply Hall, list_elem_of_fmap; by exists w).
    assert (1 <= Py.slen w) by (destruct w; [done|]; unfold Py.slen; simpl; lia).
    pose proof (round_three_halves_gt m). lia.
Qed.

(** ** Legality, exactly *)

Lemma cells_free_iff (grid : Grid) (cells : list (Z * Z * ascii)) :
  cells_free grid cells = Some true ↔ Forall (free_for grid) cells.
Proof.
  induction cells as [|[[r c] l] cells IH]; simpl.
  - split; [by constructor|done].
  - rewrite Forall_cons. unfold free_for at 1. simpl.
    destruct (grid_get grid r c) as [x|]; simpl.
    + destruct (decide (x = empty_marker)) as [->|Hx].
      * rewrite (bool_decide_eq_false_2 (_ ≠ _)) by (by intros ?). simpl.
        rewrite IH. split; [by split; [left|]|by intros [_ ?]].
      * rewrite (bool_decide_eq_true_2 (x ≠ empty_marker)) by done. simpl.
        destruct (decide (x = l)) as [->|Hl].
        -- rewrite bool_decide_eq_false_2 by (by intros ?).
           rewrite IH. split; [by split; [right|]|by intros [_ ?]].
        -- rewrite bool_decide_eq_true_2 by done.
           split; [done|]. intros [[[= ?]|[= ?]] _]; done.
    + split; [done|]. by intros [[?|?] _].
Qed.

Lemma can_place_true_iff (grid : Grid) (w : string) (d : Direction) (row col : Z) :
  _can_place_word grid w d row col = Some true ↔
  within grid w d row col ∧ Forall (free_for grid) (word_cells d row col w).
Proof.
  rewrite <- cells_free_iff. unfold _can_place_word, within. destruct d.
  - destruct (Py.index grid 0) as [line0|]; simpl.
    + case_bool_decide.
      * split; [done|]. intros [(l & [= <-] & ?) _]. lia.
      * split; [|by intros [_ ?]]. intros Hf. split; [|done]. exists line0. split; [done|lia].
    + split; [done|]. by intros [(l & ? & _) _].
  - case_bool_decide.
    + split; [done|]. intros [? _]. lia.
    + split; [|by intros [_ ?]]. intros Hf. split; [lia|done].
Qed.

(** [X2] On a square grid and for an anchor on the grid [_can_place_word]
    returns, and it returns true exactly when the word ends within the grid
    and each cell it would cover holds the empty marker or the very letter
    the word puts there. *)
Theorem X2_can_place_exact (n : Z) (grid : Grid) (w : string) (d : Direction)
    (row col : Z) :
  square n grid → 0 <= row < n → 0 <= col < n →
  ∃ b, _can_place_word grid w d row col = Some b
       ∧ (b = true ↔
            match d with
            | across => col + Py.slen w <= n
            | down => row + Py.slen w <= n
            end
            ∧ ∀ r c l, (r, c, l) ∈ word_cells d row col w →
                grid_get grid r c = Some empty_marker ∨ grid_get grid r c = Some l).
Proof.
  intros Hsq Hrow Hcol.
  destruct (can_place_total n grid w d row col Hsq Hrow Hcol) as [b Hb].
  exists b. split; [done|].
  assert (b = true ↔ _can_place_word grid w d row col = Some true) as ->
    by (rewrite Hb; split; congruence).
  rewrite can_place_true_iff, Forall_forall.
  assert (within grid w d row col ↔
          match d with
          | across => col + Py.slen w <= n
          | down => row + Py.slen w <= n
          end) as ->.
  { unfold within. destruct d.
    - destruct (square_index_row n grid 0 Hsq) as (line0 & Hl & Hlen); [lia|].
      rewrite Hl, <- Hlen. split; [by intros (l & [= <-] & ?)|]. intros ?. by exists line0.
    - by destruct Hsq as [-> _]. }
  split; intros [Hw Hall]; (split; [done|]).
  - intros r c l Hin. apply (Hall (r, c, l) Hin).
  - intros [[r c] l] Hin. by apply Hall.
Qed.

Lemma X2_witness :
  ∃ b, _can_place_word demo_generated.1.1 "DOG" down 0 3 = Some b
       ∧ (b = true ↔
            0 + Py.slen "DOG" <= 4
            ∧ ∀ r c l, (r, c, l) ∈ word_cells down 0 3 "DOG" →
                grid_get demo_generated.1.1 r c = Some empty_marker
                ∨ grid_get demo_generated.1.1 r c = Some l).
Proof.
  apply (X2_can_place_exact 4 demo_generated.1.1 "DOG" down 0 3).
  - split; [reflexivity|]. intros line Hline. simpl in Hline.
    repeat (apply elem_of_cons in Hline as [->|Hline]; [reflexivity|]).
    by apply elem_of_nil in Hline.
  - lia.
  - lia.
Defined.

(** [X3] On the fresh grid of side [n] the legality check depends on the
    bounds only: for an anchor on the grid it returns true when the word ends
    within the grid and false when it does not. *)
Theorem X3_empty_grid_takes_what_fits (n : Z) (w : string) (d : Direction)
    (row col : Z) :
  0 <= row < n → 0 <= col < n →
  _can_place_word (_create_empty_grid n) w d row col
  = Some (bool_decide (match d with across => col | down => row end + Py.slen w <= n)).
Proof.
  intros Hrow Hcol.
  assert (square n (_create_empty_grid n)) as Hsq
    by (apply shape_square; [lia|apply shape_empty_grid]).
  destruct (can_place_total n _ w d row col Hsq Hrow Hcol) as [[|] Hb]; rewrite Hb.
  - apply can_place_true_iff in Hb as [Hw _]. f_equal. symmetry.
    apply bool_decide_eq_true_2. unfold within in Hw. destruct d.
    + destruct (square_index_row n _ 0 Hsq) as (line0 & Hl & Hlen); [lia|].
      destruct Hw as (l & Hl' & ?). rewrite Hl in Hl'. injection Hl' as <-. lia.
    + destruct Hsq as [Hlen _]. lia.
  - apply can_place_empty_grid in Hb; [|lia]. f_equal. symmetry.
    apply bool_decide_eq_false_2. destruct d; lia.
Qed.

Lemma X3_witness :
  _can_place_word (_create_empty_grid 4) "CAT" across 2 0
  = Some (bool_decide (0 + Py.slen "CAT" <= 4)).
Proof.
  apply (X3_empty_grid_takes_what_fits 4 "CAT" across 2 0); lia.
Defined.

(** ** Writing a word and reading it back *)

Lemma within_shape (g g' : Grid) (w : string) (d : Direction) (row col : Z) :
  shape g' = shape g → within g w d row col → within g' w d row col.
Proof.
  intros Hs. unfold within. destruct d.
  - intros (line0 & Hl & Hle). rewrite index_nonneg in Hl |- * by done.
    change (Z.to_nat 0) with 0%nat in *.
    assert (shape g' !! 0%nat = shape g !! 0%nat) as E by (by rewrite Hs).
    unfold shape in E. rewrite !list_lookup_fmap, Hl in E.
    destruct (g' !! 0%nat) as [l'|] eqn:E'; simpl in E; [|done].
    exists l'. split; [done|]. injection E as E. unfold Py.len in *. lia.
  - by rewrite (shape_len g g' Hs).
Qed.

Lemma grid_set_same (grid : Grid) (r c : Z) (x : ascii) :
  0 <= r → 0 <= c → grid_get grid r c = Some x → grid_set grid r c x = Some grid.
Proof.
  intros Hr Hc Hget.
  destruct (grid_set_total grid r c x Hr Hc) as [g' Hg']; [by rewrite Hget|].
  rewrite Hg'. f_equal.
  apply grid_set_nonneg in Hg' as (line & Hl & Hlt & ->); [|done..].
  rewrite grid_get_nonneg in Hget by done. rewrite Hl in Hget. simpl in Hget.
  rewrite (list_insert_id line) by done. by apply list_insert_id.
Qed.

Lemma write_cells_same (cells : list (Z * Z * ascii)) (grid : Grid) :
  (∀ r c l, (r, c, l) ∈ cells → 0 <= r ∧ 0 <= c ∧ grid_get grid r c = Some l) →
  Py.for_each (λ (g : Grid) (cl : Z * Z * ascii),
                 let '(r, c, letter) := cl in grid_set g r c letter) grid cells
  = Some grid.
Proof.
  induction cells as [|[[r c] l] cells IH]; intros H; simpl; [done|].
  destruct (H r c l) as (Hr & Hc & Hget); [by left|].
  rewrite grid_set_same by done. simpl. apply IH.
  intros r' c' l' Hin. apply H. by right.
Qed.

(** [X4] A word that [_can_place_word] allows at a proper anchor is written
    by [_place_word_on_grid] without an exception; the grid keeps its shape,
    reading it from the anchor along the direction gives the word, and the
    only cells that changed are cells of the word that held the empty
    marker: no letter that was on the grid is overwritten by another. *)
Theorem X4_place_writes_word_on_empty_cells (grid : Grid) (w : string)
    (d : Direction) (row col : Z) :
  0 <= row → 0 <= col →
  _can_place_word grid w d row col = Some true →
  ∃ grid', _place_word_on_grid grid w d row col = Some grid'
    ∧ shape grid' = shape grid
    ∧ read_word grid' d row col (Py.slen w) = Some w
    ∧ ∀ i j, cell grid' i j = cell grid i j
             ∨ (cell grid i j = Some empty_marker
                ∧ ∃ l, (Z.of_nat i, Z.of_nat j, l) ∈ word_cells d row col w
                       ∧ cell grid' i j = Some l).
Proof.
  intros Hrow Hcol Hcan.
  destruct (place_total grid w (row, col, d)) as [grid' Hplace]; [done..|].
  simpl in Hplace. exists grid'. split; [done|].
  assert (∀ r c l, (r, c, l) ∈ word_cells d row col w → 0 <= r ∧ 0 <= c) as Hnn
    by (intros r c l; by apply word_cells_nonneg).
  unfold _place_word_on_grid in Hplace.
  destruct (write_cells_frame _ _ _ Hnn Hplace) as [Hshape Hframe].
  split; [done|]. split.
  - apply fits_read_word. split_and!; [done..|]. simpl.
    eapply write_cells_reads; [done| |done].
    intros r c l l'. apply word_cells_functional.
  - intros i j.
    destruct (Hframe i j) as [E|(r & c & l & Hin & -> & -> & E)]; [by left|].
    destruct (Hnn _ _ _ Hin) as [Hr Hc].
    apply can_place_true in Hcan.
    destruct (cells_free_true _ _ Hcan _ _ _ Hin) as (x & Hx & [->| ->]).
    + right. rewrite <- grid_get_cell by done. split; [done|].
      exists l. by rewrite !Z2Nat.id by done.
    + left. by rewrite E, <- grid_get_cell.
Qed.

Lemma X4_witness :
  ∃ grid', _place_word_on_grid (_create_empty_grid 4) "CAT" across 2 0 = Some grid'
    ∧ shape grid' = shape (_create_empty_grid 4)
    ∧ read_word grid' across 2 0 (Py.slen "CAT") = Some "CAT"%string
    ∧ ∀ i j, cell grid' i j = cell (_create_empty_grid 4) i j
             ∨ (cell (_create_empty_grid 4) i j = Some empty_marker
                ∧ ∃ l, (Z.of_nat i, Z.of_nat j, l) ∈ word_cells across 2 0 "CAT"
                       ∧ cell grid' i j = Some l).
Proof.
  apply (X4_place_writes_word_on_empty_cells (_create_empty_grid 4) "CAT" across 2 0).
  - lia.
  - lia.
  - reflexivity.
Defined.

(** [X5] A word that stands on the grid may be placed where it stands:
    after [_place_word_on_grid] wrote a word, [_can_place_word] allows the
    same word at the same anchor again, and writing it again returns the
    grid unchanged. *)
Theorem X5_placing_again_changes_nothing (grid grid' : Grid) (w : string)
    (d : Direction) (row col : Z) :
  0 <= row → 0 <= col →
  _can_place_word grid w d row col = Some true →
  _place_word_on_grid grid w d row col = Some grid' →
  _can_place_word grid' w d row col = Some true
  ∧ _place_word_on_grid grid' w d row col = Some grid'.
Proof.
  intros Hrow Hcol Hcan Hplace.
  assert (∀ r c l, (r, c, l) ∈ word_cells d row col w → 0 <= r ∧ 0 <= c) as Hnn
    by (intros r c l; by apply word_cells_nonneg).
  unfold _place_word_on_grid in Hplace.
  destruct (write_cells_frame _ _ _ Hnn Hplace) as [Hshape _].
  assert (∀ r c l, (r, c, l) ∈ word_cells d row col w → grid_get grid' r c = Some l)
    as Hread.
  { eapply write_cells_reads; [done| |done]. intros r c l l'. apply word_cells_functional. }
  split.
  - apply can_place_true_iff. apply can_place_true_iff in Hcan as [Hw _].
    split; [by eapply within_shape|].
    apply Forall_forall. intros [[r c] l] Hin. right. by apply Hread.
  - apply write_cells_same. intros r c l Hin.
    destruct (Hnn _ _ _ Hin). split_and!; [done..|]. by apply Hread.
Qed.

Lemma X5_witness :
  _can_place_word demo_generated.1.1 "DOG" down 0 3 = Some true
  ∧ _place_word_on_grid demo_generated.1.1 "DOG" down 0 3 = Some demo_generated.1.1.
Proof.
  apply (X5_placing_again_changes_nothing demo_generated.1.1 _ "DOG" down 0 3).
  - lia.
  - lia.
  - reflexivity.
  - reflexivity.
Defined.

(** ** Overlap candidates cross a placed word *)

Lemma find_overlaps_cross (placed : Py.dict Placement) (w : string)
    (grid : Grid) (dirs : Py.dict Direction) (overlaps : list Placement) :
  _find_overlaps placed w grid dirs = Some overlaps →
  Forall (λ pos : Placement,
    on_grid grid pos
    ∧ Py.get dirs w = Some pos.2
    ∧ _can_place_word grid w pos.2 pos.1.1 pos.1.2 = Some true
    ∧ ∃ pw ppos, (pw, ppos) ∈ placed ∧ ppos.2 ≠ pos.2
        ∧ ∃ r c l, (r, c, l) ∈ word_cells pos.2 pos.1.1 pos.1.2 w
                   ∧ (r, c, l) ∈ word_cells ppos.2 ppos.1.1 ppos.1.2 pw) overlaps.
Proof.
  set (P := λ pos : Placement,
    on_grid grid pos
    ∧ Py.get dirs w = Some pos.2
    ∧ _can_place_word grid w pos.2 pos.1.1 pos.1.2 = Some true
    ∧ ∃ pw ppos, (pw, ppos) ∈ placed ∧ ppos.2 ≠ pos.2
        ∧ ∃ r c l, (r, c, l) ∈ word_cells pos.2 pos.1.1 pos.1.2 w
                   ∧ (r, c, l) ∈ word_cells ppos.2 ppos.1.1 ppos.1.2 pw).
  unfold _find_overlaps.
  apply (for_each_inv (Forall P)); [|done].
  intros o1 [pw [[p_row p_col] p_d]] o1' Hpw H1.
  apply (for_each_inv (Forall P)); [|done].
  intros o2 [i l] o2' Hi H2.
  apply (for_each_inv (Forall P)); [|done].
  intros o3 [j l'] o3' Hj H3. simpl.
  case_bool_decide as El; [subst l'|by intros [= <-]].
  unfold overlap_at.
  destruct p_d; (destruct (Py.get dirs w) as [d|] eqn:Ed; cbn -[_can_place_word]; [|done]);
    (destruct (_ && _) eqn:B; [|by intros [= <-]]);
    apply andb_true_iff in B as [[Hd%bool_decide_eq_true Hr%bool_decide_eq_true]%andb_true_iff
                                 Hc%bool_decide_eq_true];
    (destruct (_can_place_word _ _ _ _ _) as [[|]|] eqn:Ecan; cbn; [|by intros [= <-]|done]);
    intros [= <-]; (apply Forall_app; split; [done|]);
    apply Forall_singleton; subst d; unfold P; simpl;
    (split_and!; [done..|]).
  - exists pw, (p_row, p_col, across). split_and!; [done..|]. simpl.
    exists p_row, (p_col + j), l. split; apply elem_of_word_cells.
    + exists i. split; [done|]. f_equal. lia.
    + by exists j.
  - exists pw, (p_row, p_col, down). split_and!; [done..|]. simpl.
    exists (p_row + j), p_col, l. split; apply elem_of_word_cells.
    + exists i. split; [done|]. f_equal. lia.
    + by exists j.
Qed.

(** [X6] Every anchor that [_find_overlaps] proposes for a word lies on the
    grid, has the direction assigned to the word, has passed
    [_can_place_word], and makes the word cross a placed word of the other
    direction in a cell where the two have the same letter. *)
Theorem X6_overlap_candidates_cross (placed : Py.dict Placement) (w : string)
    (grid : Grid) (dirs : Py.dict Direction) (overlaps : list Placement)
    (pos : Placement) :
  _find_overlaps placed w grid dirs = Some overlaps →
  pos ∈ overlaps →
  on_grid grid pos
  ∧ Py.get dirs w = Some pos.2
  ∧ _can_place_word grid w pos.2 pos.1.1 pos.1.2 = Some true
  ∧ ∃ pw ppos, (pw, ppos) ∈ placed ∧ ppos.2 ≠ pos.2
      ∧ ∃ r c l, (r, c, l) ∈ word_cells pos.2 pos.1.1 pos.1.2 w
                 ∧ (r, c, l) ∈ word_cells ppos.2 ppos.1.1 ppos.1.2 pw.
Proof.
  intros Hfind Hpos. apply find_overlaps_cross in Hfind.
  by eapply Forall_forall in Hfind.
Qed.

Lemma X6_witness :
  on_grid (<[2%nat := ["C"; "A"; "T"; "."]%char]> (_create_empty_grid 4)) (1, 2, down)
  ∧ Py.get [("AT"%string, down)] "AT" = Some down
  ∧ _can_place_word (<[2%nat := ["C"; "A"; "T"; "."]%char]> (_create_empty_grid 4))
      "AT" down 1 2 = Some true
  ∧ ∃ pw ppos, (pw, ppos) ∈ [("CAT"%string, (2, 0, across))] ∧ ppos.2 ≠ down
      ∧ ∃ r c l, (r, c, l) ∈ word_cells down 1 2 "AT"
                 ∧ (r, c, l) ∈ word_cells ppos.2 ppos.1.1 ppos.1.2 pw.
Proof.
  apply (X6_overlap_candidates_cross [("CAT"%string, (2, 0, across))] "AT"
           (<[2%nat := ["C"; "A"; "T"; "."]%char]> (_create_empty_grid 4))
           [("AT"%string, down)] [(2, 1, down); (1, 2, down)] (1, 2, down)).
  - reflexivity.
  - apply (bool_decide_unpack _). reflexivity.
Defined.

(** ** Where the words of the index stand *)

Lemma scan_first_cases_dir (grid : Grid) (w : string) (dirs : Py.dict Direction) (gs : Z)
    (att : option (Grid * Placement)) :
  scan_first grid w dirs gs = Some att →
  att = None
  ∨ ∃ cands, Forall (λ p : Placement, proper_anchor p ∧ Py.get dirs w = Some p.2) cands
             ∧ place_first grid w cands = Some att.
Proof.
  unfold scan_first.
  destruct (Py.get dirs w) as [d|] eqn:Ed; simpl.
  - set (cands := row ← Py.range gs; col ← Py.range gs; [(row, col, d)]).
    assert (Forall (λ p : Placement, proper_anchor p ∧ Some d = Some p.2) cands) as Hc.
    { apply Forall_forall. intros [[row col] d'] Hin.
      apply list_elem_of_bind in Hin as (row' & Hin & Hrow').
      apply list_elem_of_bind in Hin as (col' & Hin & Hcol').
      apply list_elem_of_singleton in Hin as [= -> -> ->].
      apply elem_of_range2 in Hrow', Hcol'. split; [|done]. split; simpl; lia. }
    clearbody cands. destruct (Py.range gs); [intros [= <-]; by left|].
    intros H. right. by exists cands.
  - destruct (Py.range gs); [intros [= <-]; by left|done].
Qed.

Lemma place_word_cases_dir {R : Type} `{!RandomSource R, !RandomLaws R} (gs : Z)
    (dirs : Py.dict Direction) (grid grid' : Grid) (placed placed' : Py.dict Placement)
    (rng rng' : R) (w : string) :
  0 <= gs → Py.slen w <= gs →
  place_word gs dirs (grid, placed, rng) w = Some (grid', placed', rng') →
  (grid' = grid ∧ placed' = placed)
  ∨ ∃ cands pos,
      Forall (λ p : Placement, proper_anchor p ∧ Py.get dirs w = Some p.2) cands
      ∧ place_first grid w cands = Some (Some (grid', pos))
      ∧ placed' = Py.set placed w pos.
Proof.
  intros Hgs Hw. unfold place_word.
  set (Q := λ p : Placement, proper_anchor p ∧ Py.get dirs w = Some p.2).
  assert (∀ (att : option (Grid * Placement)) (r : R) cands0,
            Forall Q cands0 →
            place_first grid w cands0 = Some att →
            (att ← match att with
                   | Some a => Some (Some a)
                   | None => scan_first grid w dirs gs
                   end;
             match att with
             | Some (g1, position) => Some (g1, Py.set placed w position, r)
             | None => Some (grid, placed, r)
             end) = Some (grid', placed', rng') →
            (grid' = grid ∧ placed' = placed)
            ∨ ∃ cands pos, Forall Q cands
                           ∧ place_first grid w cands = Some (Some (grid', pos))
                           ∧ placed' = Py.set placed w pos) as Hrest.
  { intros [[g1 pos]|] r cands0 Hc0 Hpf; simpl.
    - intros [= <- <- <-]. right. by exists cands0, pos.
    - destruct (scan_first grid w dirs gs) as [att|] eqn:Escan; simpl; [|done].
      apply scan_first_cases_dir in Escan as [->|(cands & Hc & Hpf')].
      + intros [= <- <- <-]. by left.
      + destruct att as [[g1 pos]|]; intros [= <- <- <-]; [|by left].
        right. by exists cands, pos. }
  destruct placed as [|entry placed0].
  - destruct (Py.get dirs w) as [d|] eqn:Ed; cbn [mbind option_bind]; [|done].
    set (pos := match d with
                | across => (gs / 2, (gs - Py.slen w) / 2)
                | down => ((gs - Py.slen w) / 2, gs / 2)
                end).
    destruct pos as [row col] eqn:Epos.
    destruct (place_first grid w [(row, col, d)]) as [att|] eqn:Epf; [|done].
    cbn [mbind option_bind]. apply Hrest with (cands0 := [(row, col, d)]); [|done].
    apply Forall_singleton. split; [|done]. unfold proper_anchor. simpl.
    assert (0 <= gs / 2) by (apply Z.div_pos; lia).
    assert (0 <= (gs - Py.slen w) / 2) by (apply Z.div_pos; lia).
    subst pos. destruct d; simplify_eq; lia.
  - destruct (_find_overlaps (entry :: placed0) w grid dirs) as [possible|] eqn:Efo;
      [|done].
    cbn [mbind option_bind].
    destruct (rand_shuffle rng possible) as [shuffled rng1] eqn:Esh.
    destruct (place_first grid w shuffled) as [att|] eqn:Epf; [|done].
    cbn [mbind option_bind]. apply Hrest with (cands0 := shuffled); [|done].
    apply find_overlaps_cross in Efo.
    pose proof (rand_shuffle_perm _ rng possible) as Hperm. rewrite Esh in Hperm.
    simpl in Hperm. rewrite Hperm.
    eapply Forall_impl; [done|]. intros p (Hon & Hd & _). split; [|done].
    by eapply on_grid_proper.
Qed.

Lemma square_grid_get_inv (gs : Z) (grid : Grid) (r c : Z) :
  square gs grid → 0 <= r → 0 <= c → is_Some (grid_get grid r c) →
  r < gs ∧ c < gs.
Proof.
  intros [Hlen Hlines] Hr Hc. rewrite grid_get_nonneg by done.
  destruct (grid !! Z.to_nat r) as [line|] eqn:E; simpl; [|by intros [? ?]].
  intros [x Hx]. apply lookup_lt_Some in Hx. apply lookup_lt_Some in E as Hr'.
  assert (Py.len line = gs) as Hl by (apply Hlines; by eapply list_elem_of_lookup_2).
  unfold Py.len in *. lia.
Qed.

Lemma square_shape (gs : Z) (grid : Grid) :
  square gs grid → shape grid = replicate (Z.to_nat gs) (Z.to_nat gs).
Proof.
  intros [Hl Hlines]. unfold shape. apply list_eq. intros i.
  rewrite list_lookup_fmap.
  destruct (grid !! i) as [line|] eqn:E; simpl.
  - symmetry. apply lookup_replicate. apply lookup_lt_Some in E as Hi.
    unfold Py.len in *. split; [|lia].
    assert (Py.len line = gs) as Hll by (apply Hlines; by eapply list_elem_of_lookup_2).
    unfold Py.len in Hll. lia.
  - symmetry. apply lookup_replicate_None. apply lookup_ge_None in E.
    unfold Py.len in *. lia.
Qed.

Section Index.
Context {R : Type} `{!RandomSource R, !RandomLaws R}.
Variables (ws : list string) (dirs : Py.dict Direction) (gs : Z).
Hypothesis gs_nonneg : 0 <= gs.
Hypothesis gs_fits : ∀ w, w ∈ ws → Py.slen w <= gs.

Lemma place_words_stand (grid0 grid : Grid) (placed0 placed : Py.dict Placement)
    (rng rng' : R) :
  square gs grid0 →
  stand ws dirs gs placed0 →
  Py.for_each (place_word gs dirs) (grid0, placed0, rng) ws = Some (grid, placed, rng') →
  stand ws dirs gs placed.
Proof.
  intros Hsq H0 Hloop.
  cut (shape grid = shape grid0 ∧ stand ws dirs gs placed); [tauto|].
  revert Hloop.
  apply (for_each_inv (λ st : Grid * Py.dict Placement * R,
           shape st.1.1 = shape grid0 ∧ stand ws dirs gs st.1.2)); [|done].
  intros [[g p] r] w [[g' p'] r'] Hw [Hs Hst] Hstep. simpl in *.
  apply place_word_cases_dir in Hstep as [[-> ->]|(cands & pos & Hcands & Hpf & ->)];
    [done| |done|by apply gs_fits].
  apply place_first_Some in Hpf as (Hin & Hcan & Hplace).
  eapply Forall_forall in Hcands as [Hanchor Hd]; [|done].
  split; [by rewrite (place_shape g g' w pos)|].
  intros w' pos' [[= -> ->]|Hold]%elem_of_dict_set; [|by apply Hst].
  split_and!; [done..|].
  intros r0 c0 l Hcell.
  destruct pos as [[row col] d]. destruct Hanchor as [Hrow Hcol]. simpl in *.
  destruct (word_cells_nonneg _ _ _ _ _ _ _ Hrow Hcol Hcell) as [Hr0 Hc0].
  apply can_place_true in Hcan.
  destruct (cells_free_true _ _ Hcan _ _ _ Hcell) as (x & Hx & _).
  assert (square gs g) as Hsqg
    by (apply shape_square; [done|]; rewrite Hs; by apply square_shape).
  destruct (square_grid_get_inv gs g r0 c0 Hsqg Hr0 Hc0) as [? ?]; [by rewrite Hx|].
  lia.
Qed.

End Index.

(** [X7] Every entry of the index that generation returns is a word of the
    list, lies along the direction assigned to that word, and covers cells of
    the grid only: generation never changes the direction of a word and
    never lets a word run over the edge. *)
Theorem X7_index_entries_stand_on_grid {R : Type} `{!RandomSource R, !RandomLaws R}
    (ws : list string) (dirs : Py.dict Direction) (rng rng' : R) (grid : Grid)
    (placed : Py.dict Placement) (w : string) (pos : Placement) :
  generate ws dirs rng = Some (grid, placed, rng') →
  (w, pos) ∈ placed →
  w ∈ ws
  ∧ Py.get dirs w = Some pos.2
  ∧ ∃ n, square n grid
         ∧ ∀ r c l, (r, c, l) ∈ word_cells pos.2 pos.1.1 pos.1.2 w →
                    0 <= r < n ∧ 0 <= c < n.
Proof.
  intros Hgen Hin.
  destruct (generate_square _ _ _ _ _ _ Hgen) as (gs & Hgs & Hsq).
  apply generate_inv in Hgen as (gs' & grid1 & rng1 & Hgs' & Hloop & _).
  rewrite Hgs in Hgs'. injection Hgs' as <-.
  destruct (grid_size_spec _ _ Hgs) as [Hnn Hfit].
  apply place_words_stand in Hloop; [|done..| |].
  - destruct (Hloop _ _ Hin) as (Hw & Hd & _ & Hcells).
    split_and!; [done..|]. by exists gs.
  - apply shape_square; [done|apply shape_empty_grid].
  - by intros w' pos' ?%elem_of_nil.
Qed.

Lemma X7_witness :
  "DOG"%string ∈ demo_words
  ∧ Py.get demo_directions "DOG" = Some down
  ∧ ∃ n, square n demo_generated.1.1
         ∧ ∀ r c l, (r, c, l) ∈ word_cells down 0 3 "DOG" → 0 <= r < n ∧ 0 <= c < n.
Proof.
  apply (X7_index_entries_stand_on_grid (R := nat) (RandomLaws0 := lcg_laws)
           demo_words demo_directions 0%nat
           demo_generated.2 demo_generated.1.1 demo_generated.1.2 "DOG" (0, 3, down)).
  - reflexivity.
  - apply (bool_decide_unpack _). reflexivity.
Defined.

(** ** The first word *)

Lemma place_word_centre {R : Type} `{!RandomSource R, !RandomLaws R} (gs : Z)
    (dirs : Py.dict Direction) (w : string) (rng rng' : R) (grid' : Grid)
    (placed' : Py.dict Placement) :
  0 <= gs → Py.slen w <= gs →
  place_word gs dirs (_create_empty_grid gs, [], rng) w = Some (grid', placed', rng') →
  ∃ d, Py.get dirs w = Some d ∧ placed' = [(w, centre gs w d)].
Proof.
  intros Hgs Hw. unfold place_word.
  destruct (Py.get dirs w) as [d|]; cbn [mbind option_bind]; [|done].
  set (pos := match d with
              | across => (gs / 2, (gs - Py.slen w) / 2)
              | down => ((gs - Py.slen w) / 2, gs / 2)
              end).
  assert (match d with
          | across => pos.2 + Py.slen w <= gs
          | down => pos.1 + Py.slen w <= gs
          end) as Hpos.
  { pose proof (Z.div_mod (gs - Py.slen w) 2).
    pose proof (Z.mod_pos_bound (gs - Py.slen w) 2).
    subst pos. destruct d; simpl; lia. }
  assert (centre gs w d = (pos.1, pos.2, d)) as Hc by (subst pos; by destruct d).
  destruct pos as [row col]. simpl in Hpos, Hc.
  unfold place_first.
  destruct (_can_place_word (_create_empty_grid gs) w d row col) as [[|]|] eqn:Ecan;
    cbn [mbind option_bind]; [| |done].
  - destruct (_place_word_on_grid _ w d row col) as [g1|]; cbn [mbind option_bind];
      [|done].
    intros [= <- <- <-]. exists d. by rewrite Hc.
  - apply can_place_empty_grid in Ecan; [|done]. destruct d; lia.
Qed.

(** [X8] Generation always places the first word of the list: it is the
    first key of the index, and unless the same word occurs again in the list
    it stands in the middle of the grid, centred along its direction. *)
Theorem X8_first_word_in_the_centre {R : Type} `{!RandomSource R, !RandomLaws R}
    (ws : list string) (dirs : Py.dict Direction) (rng rng' : R) (grid : Grid)
    (placed : Py.dict Placement) :
  generate ws dirs rng = Some (grid, placed, rng') →
  ∃ w0 rest gs d,
    ws = w0 :: rest
    ∧ _determine_initial_grid_size ws = Some gs
    ∧ Py.get dirs w0 = Some d
    ∧ placed.*1 !! 0%nat = Some w0
    ∧ (w0 ∉ rest → Py.get placed w0 = Some (centre gs w0 d)).
Proof.
  intros (gs & grid1 & rng1 & Hgs & Hloop & _)%generate_inv.
  destruct (grid_size_spec _ _ Hgs) as [Hnn Hfit].
  destruct ws as [|w0 rest]; [done|].
  cbn [Py.for_each] in Hloop.
  destruct (place_word gs dirs (_create_empty_grid gs, [], rng) w0)
    as [[[g1 p1] r1]|] eqn:E1; cbn [mbind option_bind] in Hloop; [|done].
  apply place_word_centre in E1 as (d & Hd & ->); [|done|apply Hfit; by left].
  exists w0, rest, gs, d. split_and!; [done..| |].
  - revert Hloop.
    apply (for_each_inv
             (λ st : Grid * Py.dict Placement * R, st.1.2.*1 !! 0%nat = Some w0)
             (place_word gs dirs) rest _ (grid1, placed, rng1)); [|done].
    intros [[g p] r] w' [[g' p'] r'] Hw' Hhd Hstep. simpl in *.
    apply place_word_cases in Hstep as [[-> ->]|(cands & pos & _ & _ & ->)];
      [done| |done|apply Hfit; by right].
    rewrite dict_set_keys. case_decide; [done|].
    by apply lookup_app_l_Some.
  - intros Hnotin. revert Hloop.
    apply (for_each_inv
             (λ st : Grid * Py.dict Placement * R,
                Py.get st.1.2 w0 = Some (centre gs w0 d))
             (place_word gs dirs) rest _ (grid1, placed, rng1)).
    + intros [[g p] r] w' [[g' p'] r'] Hw' Hget Hstep. simpl in *.
      apply place_word_cases in Hstep as [[-> ->]|(cands & pos & _ & _ & ->)];
        [done| |done|apply Hfit; by right].
      rewrite dict_get_set. case_decide; [|done]. by subst w'.
    + simpl. by rewrite decide_True.
Qed.

Lemma X8_witness :
  ∃ w0 rest gs d,
    demo_words = w0 :: rest
    ∧ _determine_initial_grid_size demo_words = Some gs
    ∧ Py.get demo_directions w0 = Some d
    ∧ demo_generated.1.2.*1 !! 0%nat = Some w0
    ∧ (w0 ∉ rest → Py.get demo_generated.1.2 w0 = Some (centre gs w0 d)).
Proof.
  apply (X8_first_word_in_the_centre (R := nat) (RandomLaws0 := lcg_laws)
           demo_words demo_directions 0%nat demo_generated.2 demo_generated.1.1).
  reflexivity.
Defined.

(** ** The words of an episode *)

Lemma reset_inv {R : Type} `{!RandomSource R, !RandomLaws R} (self self' : Env)
    (rng rng' : R) :
  reset self rng = Some (self', rng') →
  ∃ sampled r1 r2,
    rand_sample rng (word_list self) (num_words self) = Some (sampled, r1)
    ∧ words self' = sorted_longest_first (map upper sampled)
    ∧ choose_directions (words self') r1 = Some (directions self', r2)
    ∧ generate (words self') (directions self') r2
      = Some (board self', placed_words self', rng')
    ∧ word_list self' = word_list self
    ∧ num_words self' = num_words self.
Proof.
  unfold reset, _generate_word_search.
  destruct (rand_sample rng (word_list self) (num_words self)) as [[sampled r1]|];
    cbn [mbind option_bind]; [|done].
  destruct (choose_directions _ r1) as [[dirs r2]|] eqn:Edirs;
    cbn [mbind option_bind]; [|done].
  destruct (generate _ dirs r2) as [[[grid placed] r3]|] eqn:Egen;
    cbn [mbind option_bind]; [|done].
  intros [= <- <-]. simpl. by exists sampled, r1, r2.
Qed.

Lemma insert_by_length_perm (w : string) (ws : list string) :
  insert_by_length w ws ≡ₚ w :: ws.
Proof.
  induction ws as [|v ws IH]; simpl; [done|].
  case_bool_decide; [done|]. rewrite IH. apply Permutation_swap.
Qed.

Lemma sorted_longest_first_perm (ws : list string) : sorted_longest_first ws ≡ₚ ws.
Proof.
  unfold sorted_longest_first. induction ws as [|w ws IH]; simpl; [done|].
  by rewrite insert_by_length_perm, IH.
Qed.

Lemma insert_by_length_sorted (w : string) (ws : list string) :
  longest_first ws → longest_first (insert_by_length w ws).
Proof.
  unfold longest_first. induction 1 as [|v ws Hs IH Hall]; simpl.
  - by repeat constructor.
  - case_bool_decide as Hle.
    + constructor; [by constructor|]. constructor; [done|].
      eapply Forall_impl; [done|]. simpl. lia.
    + constructor; [done|]. apply Forall_forall. intros x Hx.
      apply elem_of_insert_by_length in Hx as [->|Hx]; [lia|].
      by eapply Forall_forall in Hall.
Qed.

Lemma sorted_longest_first_sorted (ws : list string) :
  longest_first (sorted_longest_first ws).
Proof.
  unfold sorted_longest_first. induction ws as [|w ws IH]; simpl.
  - constructor.
  - by apply insert_by_length_sorted.
Qed.

Lemma choose_directions_keys {R : Type} `{!RandomSource R, !RandomLaws R}
    (ws : list string) (rng rng' : R) (dirs : Py.dict Direction) :
  choose_directions ws rng = Some (dirs, rng') →
  ∀ w, is_Some (Py.get dirs w) ↔ w ∈ ws.
Proof.
  unfold choose_directions.
  assert (∀ (l : list string) (st st' : Py.dict Direction * R),
            Py.for_each
              (λ (st : Py.dict Direction * R) (word : string),
                 '(d, rng) ← rand_choice st.2 [across; down];
                 Some (Py.set st.1 word d, rng)) st l = Some st' →
            ∀ w, is_Some (Py.get st'.1 w) ↔ w ∈ l ∨ is_Some (Py.get st.1 w)) as H.
  { induction l as [|w l IH]; intros [d r] st'; simpl.
    - intros [= <-] w. split; [by right|]. by intros [?%elem_of_nil|?].
    - destruct (rand_choice r [across; down]) as [[x r1]|]; simpl; [|done].
      intros Hl w'. rewrite (IH _ _ Hl w'). simpl.
      rewrite dict_get_set, elem_of_cons. case_decide as E.
      + subst w'. split; [by left; left|]. intros _. right. eauto.
      + split; [intros [?|?]; [by left; right|by right]|].
        intros [[?|?]|?]; [by subst|by left|by right]. }
  intros Hfe w. rewrite (H _ _ _ Hfe w). simpl.
  split; [|by left]. by intros [?|[? [=]]].
Qed.

(** [X9] Whether [reset] returns depends on the size of the corpus: over a
    corpus without an empty word, [reset] builds an episode exactly when at
    least one word is asked for and the corpus holds as many words as are
    asked for; otherwise it raises. *)
Theorem X9_reset_returns_iff_corpus_suffices {R : Type}
    `{!RandomSource R, !RandomLaws R} (self : Env) (rng : R) :
  Forall (λ w, w ≠ EmptyString) (word_list self) →
  is_Some (reset self rng) ↔ (0 < num_words self ≤ length (word_list self))%nat.
Proof.
  intros Hne. split; [|intros ?; by apply reset_total].
  intros [[self' rng'] Hreset].
  apply reset_inv in Hreset as (sampled & r1 & r2 & Hs & Hws & _ & Hgen & _).
  apply rand_sample_sub in Hs as [Hlen Hsub].
  apply submseteq_length in Hsub. split; [|lia].
  apply generate_inv in Hgen as (gs & _ & _ & Hgs & _).
  rewrite Hws in Hgs. destruct sampled as [|w sampled]; [done|]. simpl in Hlen. lia.
Qed.

Lemma X9_witness :
  is_Some (reset (__init__ demo_corpus) 0%nat)
  ↔ (0 < num_words (__init__ demo_corpus) ≤ length (word_list (__init__ demo_corpus)))%nat.
Proof.
  apply (X9_reset_returns_iff_corpus_suffices (R := nat) (RandomLaws0 := lcg_laws)
           (__init__ demo_corpus) 0%nat).
  apply (bool_decide_unpack _). reflexivity.
Defined.

(** [X10] The words of an episode.  After [reset] the attribute [words]
    holds [num_words] words, they are the upper-case forms of words drawn
    from the corpus without repetition of a position, they are ordered
    longest first, and [directions] assigns a direction to these words and
    to no other. *)
Theorem X10_reset_words {R : Type} `{!RandomSource R, !RandomLaws R}
    (self self' : Env) (rng rng' : R) :
  reset self rng = Some (self', rng') →
  length (words self') = num_words self
  ∧ (∃ sampled, sampled ⊆+ word_list self ∧ words self' ≡ₚ upper <$> sampled)
  ∧ longest_first (words self')
  ∧ ∀ w, is_Some (Py.get (directions self') w) ↔ w ∈ words self'.
Proof.
  intros (sampled & r1 & r2 & Hs & Hws & Hdirs & _)%reset_inv.
  apply rand_sample_sub in Hs as [Hlen Hsub].
  assert (words self' ≡ₚ upper <$> sampled) as Hperm
    by (rewrite Hws; apply sorted_longest_first_perm).
  split_and!.
  - by rewrite Hperm, length_fmap.
  - by exists sampled.
  - rewrite Hws. apply sorted_longest_first_sorted.
  - by eapply choose_directions_keys.
Qed.

Lemma X10_witness :
  length (words demo_env) = num_words (__init__ demo_corpus)
  ∧ (∃ sampled, sampled ⊆+ word_list (__init__ demo_corpus)
                ∧ words demo_env ≡ₚ upper <$> sampled)
  ∧ longest_first (words demo_env)
  ∧ ∀ w, is_Some (Py.get (directions demo_env) w) ↔ w ∈ words demo_env.
Proof.
  apply (X10_reset_words (R := nat) (RandomLaws0 := lcg_laws)
           (__init__ demo_corpus) demo_env 0%nat 75%nat).
  reflexivity.
Defined.

(** ** A guess read backwards *)

Lemma extract_word_reversed (grid : Grid) (sr sc er ec : Z) :
  _extract_word grid er ec sr sc = _extract_word grid sr sc er ec.
Proof.
  unfold _extract_word.
  destruct (decide (sr = er)) as [->|Hr].
  - rewrite !bool_decide_eq_true_2 by done. by rewrite Z.min_comm, Z.max_comm.
  - rewrite (bool_decide_eq_false_2 (sr = er)), (bool_decide_eq_false_2 (er = sr)) by done.
    destruct (decide (sc = ec)) as [->|Hc].
    + rewrite !bool_decide_eq_true_2 by done. by rewrite Z.min_comm, Z.max_comm.
    + by rewrite (bool_decide_eq_false_2 (sc = ec)), (bool_decide_eq_false_2 (ec = sc)).
Qed.

Lemma highlight_word_reversed (h : gset (Z * Z)) (sr sc er ec : Z) :
  _highlight_word h er ec sr sc = _highlight_word h sr sc er ec.
Proof.
  unfold _highlight_word.
  destruct (decide (sr = er)) as [->|Hr].
  - rewrite !bool_decide_eq_true_2 by done. by rewrite Z.min_comm, Z.max_comm.
  - rewrite (bool_decide_eq_false_2 (sr = er)), (bool_decide_eq_false_2 (er = sr)) by done.
    destruct (decide (sc = ec)) as [->|Hc].
    + rewrite !bool_decide_eq_true_2 by done. by rewrite Z.min_comm, Z.max_comm.
    + by rewrite (bool_decide_eq_false_2 (sc = ec)), (bool_decide_eq_false_2 (ec = sc)).
Qed.

Lemma span_length_reversed (g : Span) : span_length (reversed g) = span_length g.
Proof.
  destruct g as [[[sr sc] er] ec]. unfold span_length, reversed.
  repeat case_bool_decide; lia.
Qed.

Lemma extract_word_span_length (grid : Grid) (sr sc er ec : Z) (w : string) :
  _extract_word grid sr sc er ec = Some w →
  Py.slen w = span_length (sr, sc, er, ec) ∨ (sr ≠ er ∧ sc ≠ ec ∧ w = EmptyString).
Proof.
  unfold _extract_word, span_length.
  repeat case_bool_decide.
  - destruct (mapM _ _) as [cs|] eqn:E; simpl; [|done]. intros [= <-]. left.
    apply length_mapM in E. rewrite slen_join. unfold Py.len. rewrite <- E.
    rewrite length_range2. lia.
  - destruct (mapM _ _) as [cs|] eqn:E; simpl; [|done]. intros [= <-]. left.
    apply length_mapM in E. rewrite slen_join. unfold Py.len. rewrite <- E.
    rewrite length_range2. lia.
  - intros [= <-]. by right.
Qed.

Lemma matches_position_reversed (grid : Grid) (w : string) (row col : Z) (d : Direction)
    (sr sc er ec : Z) :
  _extract_word grid sr sc er ec = Some w →
  _matches_position w row col d er ec sr sc = _matches_position w row col d sr sc er ec.
Proof.
  intros [Hlen|(Hr & Hc & ->)]%extract_word_span_length.
  - apply eq_true_iff_eq.
    rewrite (matches_position_extracted w row col d sr sc er ec) by done.
    rewrite (matches_position_extracted w row col d er ec sr sc)
      by (rewrite Hlen; symmetry; apply (span_length_reversed (sr, sc, er, ec))).
    split; intros [(?&?&?&?)|(?&?&?&?)]; [left|right|left|right];
      (split_and!; [done|lia..]).
  - unfold _matches_position, Py.slen. simpl.
    repeat (case_bool_decide; simpl); try done; lia.
Qed.

Lemma first_match_reversed (grid : Grid) (placed : Py.dict Placement) (w : string)
    (sr sc er ec : Z) :
  _extract_word grid sr sc er ec = Some w →
  first_match placed w er ec sr sc = first_match placed w sr sc er ec.
Proof.
  intros Hw. unfold first_match.
  induction placed as [|[pw [[row col] d]] placed IH]; [done|]. simpl.
  by rewrite (matches_position_reversed grid w row col d sr sc er ec Hw), IH.
Qed.

(** [X11] The direction in which a guess is read does not matter to the
    verifier.  With the two ends of the span exchanged, [_extract_word]
    returns the same text, [_highlight_word] adds the same cells, and
    [_check_word] gives the same verdict (or raises alike); when the verdict
    is true, the same word is recorded and the same cells are highlighted. *)
Theorem X11_guess_read_backwards (self : Env) (grid : Grid) (sr sc er ec : Z) :
  _extract_word grid er ec sr sc = _extract_word grid sr sc er ec
  ∧ _highlight_word (highlighted_positions self) er ec sr sc
    = _highlight_word (highlighted_positions self) sr sc er ec
  ∧ fst <$> _check_word self grid er ec sr sc = fst <$> _check_word self grid sr sc er ec
  ∧ ∀ self', _check_word self grid sr sc er ec = Some (true, self') →
             _check_word self grid er ec sr sc = Some (true, self').
Proof.
  split; [apply extract_word_reversed|].
  split; [apply highlight_word_reversed|].
  unfold _check_word. rewrite extract_word_reversed.
  destruct (_extract_word grid sr sc er ec) as [w|] eqn:Hw; simpl; [|done].
  rewrite (first_match_reversed grid _ w sr sc er ec Hw).
  destruct (first_match _ w sr sc er ec) as [[pw pos]|]; simpl; [|done].
  split; [done|]. intros self' [= <-]. do 2 f_equal.
  unfold record_found. by rewrite highlight_word_reversed.
Qed.

Lemma in_bounds_reversed (grid : Grid) (g : Span) :
  in_bounds grid (reversed g) = in_bounds grid g.
Proof.
  destruct g as [[[sr sc] er] ec]. unfold in_bounds, reversed.
  repeat case_bool_decide; simpl; try done; lia.
Qed.

(** [X12] The log of incorrect attempts, however, keeps the ends in the
    order given.  After an incorrect guess, the same span with its ends
    exchanged is not rejected as already attempted: unless it was logged
    before, it is verified, found incorrect again, logged as a further
    attempt, and costs a second try. *)
Theorem X12_backwards_guess_costs_again (s s1 : Env) (g : Span)
    (calls : list StateCall) :
  process_match s g = Some (s1, calls, incorrect) →
  reversed g ≠ g →
  (reversed g ∉ incorrect_attempts s) →
  ∃ s2 calls',
    process_match s1 (reversed g) = Some (s2, calls', incorrect)
    ∧ num_incorrect_tries s2 = num_incorrect_tries s - 2
    ∧ incorrect_attempts s2 = incorrect_attempts s ++ [g; reversed g].
Proof.
  intros Hpm Hne Hnew.
  apply process_match_cases in Hpm
    as [([= ] & _)|[([= ] & _)|[([= ] & _)|(_ & Hb & Hna & s' & Hcg & -> & ->)]]].
  destruct g as [[[sr sc] er] ec]. unfold check_guess in Hcg.
  apply check_word_cases in Hcg as (w & Hw & [([= ] & _)|(_ & Hfm & ->)]).
  unfold process_match.
  cbn [board decrement_tries record_incorrect incorrect_attempts].
  rewrite in_bounds_reversed, Hb. cbn [negb].
  rewrite bool_decide_eq_false_2.
  2:{ intros [Hin|Hin%list_elem_of_singleton]%elem_of_app; [done|]. by apply Hne. }
  unfold check_guess, reversed, _check_word.
  cbn [board decrement_tries record_incorrect placed_words].
  rewrite extract_word_reversed, Hw. cbn [mbind option_bind].
  rewrite (first_match_reversed (board s) _ w sr sc er ec Hw), Hfm.
  eexists _, _. split; [reflexivity|]. simpl. split; [lia|].
  by rewrite <- app_assoc.
Qed.

Lemma X12_witness :
  ∃ s2 calls',
    process_match (decrement_tries (record_incorrect demo_env 7 6 7 7)) (reversed (7, 6, 7, 7))
    = Some (s2, calls', incorrect)
    ∧ num_incorrect_tries s2 = num_incorrect_tries demo_env - 2
    ∧ incorrect_attempts s2 = incorrect_attempts demo_env ++ [(7, 6, 7, 7); reversed (7, 6, 7, 7)].
Proof.
  apply (X12_backwards_guess_costs_again demo_env _ (7, 6, 7, 7) []).
  - reflexivity.
  - apply (bool_decide_unpack _). reflexivity.
  - apply (bool_decide_unpack _). reflexivity.
Defined.

(** ** What the turns of an episode keep *)

Lemma elem_of_span_cells (r c sr sc er ec : Z) :
  (r, c) ∈ span_cells (sr, sc, er, ec) ↔
  (sr = er ∧ r = sr ∧ Z.min sc ec <= c <= Z.max sc ec)
  ∨ (sr ≠ er ∧ sc = ec ∧ c = sc ∧ Z.min sr er <= r <= Z.max sr er).
Proof.
  unfold span_cells, _highlight_word.
  case_bool_decide as Hr; [|case_bool_decide as Hc].
  - rewrite foldl_add_cells, elem_of_union, elem_of_list_to_set, list_elem_of_fmap.
    split.
    + intros [(k & [= -> ->] & Hk%elem_of_range2)|?%elem_of_empty]; [|done].
      left. split_and!; [done..|lia|lia].
    + intros [(_ & -> & Hc)|(? & _)]; [|done]. left. exists c. split; [done|].
      apply elem_of_range2. lia.
  - rewrite foldl_add_cells, elem_of_union, elem_of_list_to_set, list_elem_of_fmap.
    split.
    + intros [(k & [= -> ->] & Hk%elem_of_range2)|?%elem_of_empty]; [|done].
      right. split_and!; [done..|lia|lia].
    + intros [(? & _)|(_ & _ & -> & Hc')]; [done|]. left. exists r. split; [done|].
      apply elem_of_range2. lia.
  - rewrite elem_of_empty. split; [done|]. intros [(? & _)|(_ & ? & _)]; done.
Qed.

Lemma hit_on_line (grid : Grid) (placed : Py.dict Placement) (sr sc er ec : Z)
    (pw : string) :
  hit grid placed (sr, sc, er, ec) pw →
  ∃ row col d, (pw, (row, col, d)) ∈ placed
    ∧ ((d = across ∧ sr = er ∧ row = sr ∧ col = Z.min sc ec)
       ∨ (d = down ∧ sc = ec ∧ col = sc ∧ row = Z.min sr er)).
Proof.
  intros (w & [[row col] d] & Hw & Hfm).
  exists row, col, d. split; [by eapply first_match_elem_of|].
  apply extract_word_span_length in Hw as [Hlen|(Hr & Hc & ->)].
  - apply (matches_position_extracted w row col d sr sc er ec Hlen).
    unfold first_match in Hfm. by apply find_some in Hfm as [_ Hm].
  - by rewrite first_match_diagonal in Hfm.
Qed.

Lemma process_match_frame (s s' : Env) (g : Span) (calls : list StateCall) (v : Verdict) :
  process_match s g = Some (s', calls, v) →
  board s' = board s ∧ game_board s' = game_board s
  ∧ placed_words s' = placed_words s
  ∧ words s' = words s ∧ directions s' = directions s
  ∧ word_list s' = word_list s ∧ num_words s' = num_words s.
Proof.
  intros Hpm.
  apply process_match_cases in Hpm
    as [(-> & _ & -> & ->)|[(-> & _ & _ & -> & ->)|
        [(-> & _ & _ & Hcw & ->)|(-> & _ & _ & s1 & Hcw & -> & ->)]]]; try done.
  - by apply check_guess_true in Hcw as (pw' & _ & ->).
  - by apply (check_guess_false _ _ _ EmptyString) in Hcw as (_ & ->).
Qed.

(** [X13] Turns never touch the puzzle.  Whatever the actions, a sequence of
    turns leaves the board, the grid kept by the environment, the index of
    placed words, the words, their directions, the corpus and the number of
    words as they were; the found words and the highlighted cells only grow,
    the log of incorrect attempts is only extended at its end, and the
    counter of tries never rises. *)
Theorem X13_turns_keep_the_puzzle (s s' : Env) (calls : list StateCall) :
  run s calls s' →
  board s' = board s ∧ game_board s' = game_board s
  ∧ placed_words s' = placed_words s
  ∧ words s' = words s ∧ directions s' = directions s
  ∧ word_list s' = word_list s ∧ num_words s' = num_words s
  ∧ correct_words s ⊆ correct_words s'
  ∧ highlighted_positions s ⊆ highlighted_positions s'
  ∧ incorrect_attempts s `prefix_of` incorrect_attempts s'
  ∧ num_incorrect_tries s' <= num_incorrect_tries s.
Proof.
  apply (run_inv (λ s', 
    board s' = board s ∧ game_board s' = game_board s
    ∧ placed_words s' = placed_words s
    ∧ words s' = words s ∧ directions s' = directions s
    ∧ word_list s' = word_list s ∧ num_words s' = num_words s
    ∧ correct_words s ⊆ correct_words s'
    ∧ highlighted_positions s ⊆ highlighted_positions s'
    ∧ incorrect_attempts s `prefix_of` incorrect_attempts s'
    ∧ num_incorrect_tries s' <= num_incorrect_tries s)).
  - intros s1 g s2 calls1 v (H1 & H2 & H3 & H4 & H5 & H6 & H7 & Hcw & Hhl & Hia & Hn) Hpm.
    destruct (process_match_frame _ _ _ _ _ Hpm) as (F1 & F2 & F3 & F4 & F5 & F6 & F7).
    rewrite F1, F2, F3, F4, F5, F6, F7. split_and!; try done.
    + apply process_match_index in Hpm as (_ & Hsub & _). set_solver.
    + apply process_match_cases in Hpm
        as [(-> & _ & -> & ->)|[(-> & _ & _ & -> & ->)|
            [(-> & _ & _ & Hcg & ->)|(-> & _ & _ & s3 & Hcg & -> & ->)]]]; try done.
      * apply check_guess_true in Hcg as (pw' & _ & ->). simpl.
        rewrite highlight_word_union. set_solver.
      * by apply (check_guess_false _ _ _ EmptyString) in Hcg as (_ & ->).
    + apply process_match_cases in Hpm
        as [(-> & _ & -> & ->)|[(-> & _ & _ & -> & ->)|
            [(-> & _ & _ & Hcg & ->)|(-> & _ & _ & s3 & Hcg & -> & ->)]]]; try done.
      * by apply check_guess_true in Hcg as (pw' & _ & ->).
      * apply (check_guess_false _ _ _ EmptyString) in Hcg as (_ & ->). simpl.
        etrans; [done|]. by apply prefix_app_r.
    + apply process_match_tries in Hpm as (Hi & Hni & _).
      destruct (decide (v = incorrect)) as [E|E]; [rewrite (Hi E)|rewrite (Hni E)]; lia.
  - split_and!; done.
Qed.

Lemma X13_witness :
  board demo_later = board demo_found ∧ game_board demo_later = game_board demo_found
  ∧ placed_words demo_later = placed_words demo_found
  ∧ words demo_later = words demo_found ∧ directions demo_later = directions demo_found
  ∧ word_list demo_later = word_list demo_found ∧ num_words demo_later = num_words demo_found
  ∧ correct_words demo_found ⊆ correct_words demo_later
  ∧ highlighted_positions demo_found ⊆ highlighted_positions demo_later
  ∧ incorrect_attempts demo_found `prefix_of` incorrect_attempts demo_later
  ∧ num_incorrect_tries demo_later <= num_incorrect_tries demo_found.
Proof.
  apply (X13_turns_keep_the_puzzle demo_found demo_later ([] ++ [])).
  apply (run_step demo_found demo_found demo_later [] [] [(0, 3, 0, 5); (7, 7, 7, 7)]).
  - apply run_nil.
  - by vm_compute.
Defined.

(** [X14] Every try that is spent is on record: along the turns of an
    episode, the counter of tries and the length of the log of incorrect
    attempts add up to the same number.  The counter has no floor: turns
    after the counter reached zero still spend tries. *)
Theorem X14_tries_and_log_add_up (s s' : Env) (calls : list StateCall) :
  run s calls s' →
  num_incorrect_tries s' + Py.len (incorrect_attempts s')
  = num_incorrect_tries s + Py.len (incorrect_attempts s).
Proof.
  apply (run_inv (λ s', num_incorrect_tries s' + Py.len (incorrect_attempts s')
                        = num_incorrect_tries s + Py.len (incorrect_attempts s)));
    [|done].
  intros s1 g s2 calls1 v <- Hpm.
  apply process_match_cases in Hpm
    as [(-> & _ & -> & ->)|[(-> & _ & _ & -> & ->)|
        [(-> & _ & _ & Hcg & ->)|(-> & _ & _ & s3 & Hcg & -> & ->)]]]; try done.
  - by apply check_guess_true in Hcg as (pw' & _ & ->).
  - apply (check_guess_false _ _ _ EmptyString) in Hcg as (_ & ->). simpl.
    unfold Py.len. rewrite length_app. simpl. lia.
Qed.

Lemma X14_witness :
  num_incorrect_tries demo_later + Py.len (incorrect_attempts demo_later)
  = num_incorrect_tries demo_found + Py.len (incorrect_attempts demo_found).
Proof.
  apply (X14_tries_and_log_add_up demo_found demo_later ([] ++ [])).
  apply (run_step demo_found demo_found demo_later [] [] [(0, 3, 0, 5); (7, 7, 7, 7)]).
  - apply run_nil.
  - by vm_compute.
Defined.

(** ** The log and the highlights *)

Lemma log_sound_process_match (b : Grid) (p : Py.dict Placement) (s s' : Env)
    (g : Span) (calls : list StateCall) (v : Verdict) :
  log_sound b p s → process_match s g = Some (s', calls, v) → log_sound b p s'.
Proof.
  intros (Hb & Hp & Hnd & Hall) Hpm.
  apply process_match_cases in Hpm
    as [(-> & _ & -> & ->)|[(-> & _ & _ & -> & ->)|
        [(-> & _ & _ & Hcg & ->)|(-> & Hin & Hna & s1 & Hcg & -> & ->)]]]; try done.
  - by apply check_guess_true in Hcg as (pw' & _ & ->).
  - assert (∀ pw, ¬ hit b p g pw) as Hmiss.
    { intros pw. destruct (check_guess_false _ _ _ pw Hcg) as [Hm _].
      by rewrite Hb, Hp in Hm. }
    apply (check_guess_false _ _ _ EmptyString) in Hcg as (_ & ->).
    destruct g as [[[sr sc] er] ec]. split_and!; simpl; try done.
    + apply NoDup_app. split_and!; [done| |apply NoDup_singleton].
      intros x Hx ->%list_elem_of_singleton. done.
    + apply Forall_app. split; [done|]. apply Forall_singleton.
      split; [by rewrite <- Hb|done].
Qed.

(** [X15] The log of incorrect attempts is sound.  In every state that
    turns lead to after a [reset], no span occurs twice in the log, and each
    logged span lies on the board and is one that the verifier accepts as no
    word: a logged span is never a correct one. *)
Theorem X15_log_of_incorrect_attempts {R : Type} `{!RandomSource R, !RandomLaws R}
    (self s0 s : Env) (rng rng' : R) (calls : list StateCall) :
  reset self rng = Some (s0, rng') →
  run s0 calls s →
  NoDup (incorrect_attempts s)
  ∧ ∀ g, g ∈ incorrect_attempts s →
      in_bounds (board s) g = true
      ∧ ∃ s', check_guess s g = Some (false, s').
Proof.
  intros Hreset Hrun.
  assert (log_sound (board s0) (placed_words s0) s) as (Hb & Hp & Hnd & Hall).
  { apply (run_inv (log_sound (board s0) (placed_words s0))) with s0 calls; [| |done].
    - intros; by eapply log_sound_process_match.
    - apply reset_session in Hreset as (_ & _ & _ & Hlog).
      split_and!; [done..|by rewrite Hlog; constructor|by rewrite Hlog]. }
  split; [done|]. intros g Hg.
  eapply Forall_forall in Hall as [Hin Hmiss]; [|done].
  rewrite Hb. split; [done|].
  assert (rectangular (board s)) as Hrect.
  { rewrite Hb. apply reset_spec in Hreset as (_ & _ & _ & _ & _ & r0 & r1 & Hgen).
    apply generate_square in Hgen as (gs & _ & Hsq). by eapply square_rectangular. }
  destruct (check_guess_total s g Hrect) as ([|] & s' & Hcg); [by rewrite Hb| |by eauto].
  apply check_guess_true in Hcg as (pw & Hhit & _).
  rewrite Hb, Hp in Hhit. by apply Hmiss in Hhit.
Qed.

Lemma X15_witness :
  NoDup (incorrect_attempts demo_later)
  ∧ ∀ g, g ∈ incorrect_attempts demo_later →
      in_bounds (board demo_later) g = true
      ∧ ∃ s', check_guess demo_later g = Some (false, s').
Proof.
  apply (X15_log_of_incorrect_attempts (R := nat) (RandomLaws0 := lcg_laws)
           (__init__ demo_corpus) demo_env demo_later 0%nat 75%nat (([] ++ []) ++ [])).
  - by vm_compute.
  - apply (run_step demo_env demo_found demo_later ([] ++ []) []
             [(0, 3, 0, 5); (7, 7, 7, 7)]).
    + apply (run_step demo_env demo_env demo_found [] [] [(0, 0, 0, 2)]).
      * apply run_nil.
      * by vm_compute.
    + by vm_compute.
Defined.

Lemma highlights_sound_process_match (b : Grid) (p : Py.dict Placement) (s s' : Env)
    (g : Span) (calls : list StateCall) (v : Verdict) :
  highlights_sound b p s → process_match s g = Some (s', calls, v) →
  highlights_sound b p s'.
Proof.
  intros (Hb & Hp & Hall) Hpm.
  apply process_match_cases in Hpm
    as [(-> & _ & -> & ->)|[(-> & _ & _ & -> & ->)|
        [(-> & Hin & _ & Hcg & ->)|(-> & _ & _ & s1 & Hcg & -> & ->)]]]; try done.
  - apply check_guess_true in Hcg as (pw & Hhit & ->).
    destruct g as [[[sr sc] er] ec]. rewrite Hb, Hp in Hhit. rewrite Hb in Hin.
    split_and!; simpl; [done..|].
    intros r c. rewrite highlight_word_union, elem_of_union.
    intros [Hnew|Hold].
    + unfold in_bounds in Hin.
      apply andb_true_iff in Hin as [[[Hsr%bool_decide_eq_true Hsc%bool_decide_eq_true]%andb_true_iff
                                       Her%bool_decide_eq_true]%andb_true_iff
                                     Hec%bool_decide_eq_true].
      apply elem_of_span_cells in Hnew.
      split; [destruct Hnew as [(? & ? & ?)|(? & ? & ? & ?)]; lia|].
      split; [destruct Hnew as [(? & ? & ?)|(? & ? & ? & ?)]; lia|].
      apply hit_on_line in Hhit as (row & col & d & Hentry & Hline).
      exists pw, (row, col, d). split; [done|]. split; [set_solver|].
      unfold behind_anchor. simpl.
      destruct Hline as [(-> & -> & -> & ->)|(-> & -> & -> & ->)];
        destruct Hnew as [(? & ? & ?)|(? & ? & ? & ?)]; try done; lia.
    + destruct (Hall r c Hold) as (Hr & Hc & pw' & pos & Hentry & Hfound & Hline).
      split; [done|]. split; [done|].
      exists pw', pos. split; [done|]. split; [set_solver|done].
  - apply (check_guess_false _ _ _ EmptyString) in Hcg as (_ & ->).
    split_and!; simpl; done.
Qed.

(** [X16] The highlighted cells.  In every state that turns lead to after a
    [reset], each highlighted cell is a cell of the board and lies on the
    line of a found word of the index, at the anchor of that word or behind
    it.  (It need not be a cell of the word: a span from the anchor is
    accepted whatever its length, and all its cells are highlighted.) *)
Theorem X16_highlighted_cells {R : Type} `{!RandomSource R, !RandomLaws R}
    (self s0 s : Env) (rng rng' : R) (calls : list StateCall) (r c : Z) :
  reset self rng = Some (s0, rng') →
  run s0 calls s →
  (r, c) ∈ highlighted_positions s →
  0 <= r < Py.len (board s) ∧ 0 <= c < width (board s)
  ∧ ∃ pw pos, (pw, pos) ∈ placed_words s ∧ pw ∈ correct_words s
              ∧ behind_anchor r c pos.
Proof.
  intros Hreset Hrun Hrc.
  assert (highlights_sound (board s0) (placed_words s0) s) as (Hb & Hp & Hall).
  { apply (run_inv (highlights_sound (board s0) (placed_words s0))) with s0 calls;
      [| |done].
    - intros; by eapply highlights_sound_process_match.
    - apply reset_session in Hreset as (_ & _ & Hhl & _).
      split_and!; [done..|]. intros r' c'. rewrite Hhl. by intros ?%elem_of_empty. }
  rewrite Hb, Hp. by apply Hall.
Qed.

Lemma X16_witness :
  0 <= 0 < Py.len (board demo_later) ∧ 0 <= 4 < width (board demo_later)
  ∧ ∃ pw pos, (pw, pos) ∈ placed_words demo_later ∧ pw ∈ correct_words demo_later
              ∧ behind_anchor 0 4 pos.
Proof.
  apply (X16_highlighted_cells (R := nat) (RandomLaws0 := lcg_laws)
           (__init__ demo_corpus) demo_env demo_later 0%nat 75%nat (([] ++ []) ++ []) 0 4).
  - by vm_compute.
  - apply (run_step demo_env demo_found demo_later ([] ++ []) []
             [(0, 3, 0, 5); (7, 7, 7, 7)]).
    + apply (run_step demo_env demo_env demo_found [] [] [(0, 0, 0, 2)]).
      * apply run_nil.
      * by vm_compute.
    + by vm_compute.
  - apply (bool_decide_unpack _). by vm_compute.
Defined.

(** ** The span of a placed word *)

Lemma enumerate_from_lookup (i k : Z) (s : string) :
  i <= k < i + Py.slen s → ∃ x, (k, x) ∈ Py.enumerate_from i s.
Proof.
  revert i. induction s as [|c s IH]; intros i; unfold Py.slen; simpl.
  - lia.
  - intros Hk. destruct (decide (k = i)) as [->|Hne].
    + exists c. by left.
    + destruct (IH (i + 1)) as [x Hx]; [unfold Py.slen; lia|].
      exists x. by right.
Qed.

Lemma slen_pos (w : string) : w ≠ EmptyString → 1 <= Py.slen w.
Proof. destruct w; [done|]. unfold Py.slen. simpl. lia. Qed.

Lemma generate_stand {R : Type} `{!RandomSource R, !RandomLaws R}
    (ws : list string) (dirs : Py.dict Direction) (rng rng' : R) (grid : Grid)
    (placed : Py.dict Placement) :
  generate ws dirs rng = Some (grid, placed, rng') →
  ∃ gs, square gs grid ∧ stand ws dirs gs placed.
Proof.
  intros Hgen.
  destruct (generate_square _ _ _ _ _ _ Hgen) as (gs & Hgs & Hsq).
  apply generate_inv in Hgen as (gs' & grid1 & rng1 & Hgs' & Hloop & _).
  rewrite Hgs in Hgs'. injection Hgs' as <-.
  destruct (grid_size_spec _ _ Hgs) as [Hnn Hfit].
  exists gs. split; [done|].
  apply place_words_stand in Hloop; [done..| |].
  - apply shape_square; [done|apply shape_empty_grid].
  - by intros w' pos' ?%elem_of_nil.
Qed.

Lemma word_span_in_bounds (gs : Z) (grid : Grid) (w : string) (pos : Placement) :
  square gs grid → w ≠ EmptyString →
  (∀ r c l, (r, c, l) ∈ word_cells pos.2 pos.1.1 pos.1.2 w → 0 <= r < gs ∧ 0 <= c < gs) →
  in_bounds grid (word_span w pos) = true.
Proof.
  intros Hsq Hne%slen_pos Hcells. destruct pos as [[row col] d]. simpl in Hcells.
  destruct (enumerate_from_lookup 0 0 w) as [x0 H0]; [lia|].
  destruct (enumerate_from_lookup 0 (Py.slen w - 1) w) as [x1 H1]; [lia|].
  assert (∃ r0 c0 r1 c1, word_span w (row, col, d) = (r0, c0, r1, c1)
            ∧ (0 <= r0 < gs ∧ 0 <= c0 < gs) ∧ (0 <= r1 < gs ∧ 0 <= c1 < gs))
    as (r0 & c0 & r1 & c1 & -> & Hs & He).
  { destruct d; simpl; eexists _, _, _, _; (split; [done|]); split.
    - apply (Hcells _ _ x0), elem_of_word_cells. exists 0. split; [done|]. f_equal. lia.
    - apply (Hcells _ _ x1), elem_of_word_cells. exists (Py.slen w - 1).
      split; [done|]. f_equal. lia.
    - apply (Hcells _ _ x0), elem_of_word_cells. exists 0. split; [done|]. f_equal. lia.
    - apply (Hcells _ _ x1), elem_of_word_cells. exists (Py.slen w - 1).
      split; [done|]. f_equal. lia. }
  unfold in_bounds. rewrite (square_width gs grid Hsq) by lia.
  destruct Hsq as [-> _].
  rewrite !bool_decide_eq_true_2 by lia. done.
Qed.

Lemma exact_span_hit (grid : Grid) (placed : Py.dict Placement) (w : string)
    (pos : Placement) (g : Span) :
  rectangular grid → in_bounds grid g = true →
  (w, pos) ∈ placed → w ≠ EmptyString →
  g = word_span w pos ∨ g = reversed (word_span w pos) →
  ∃ pw ppos, (pw, ppos) ∈ placed ∧ ppos.1 = pos.1
             ∧ (1 < Py.slen w → ppos.2 = pos.2)
             ∧ hit grid placed g pw.
Proof.
  intros Hrect Hin Hentry Hne%slen_pos Hg.
  destruct g as [[[sr sc] er] ec].
  destruct (extract_word_in_bounds _ _ _ _ _ Hrect Hin) as (w' & Hw' & Hlen).
  destruct pos as [[row col] d].
  assert (((d = across ∧ sr = er ∧ row = sr ∧ col = Z.min sc ec)
           ∨ (d = down ∧ sc = ec ∧ col = sc ∧ row = Z.min sr er))
          ∧ Z.abs (er - sr) + Z.abs (ec - sc) = Py.slen w - 1) as [Hline Hspan].
  { destruct d; simpl in Hg; destruct Hg as [[= -> -> -> ->]|[= -> -> -> ->]];
      (split; [|lia]); [left|left|right|right]; (split_and!; [done..|lia]). }
  destruct (first_match placed w' sr sc er ec) as [[pw [[row' col'] d']]|] eqn:Hfm.
  - exists pw, (row', col', d').
    assert (hit grid placed (sr, sc, er, ec) pw) as Hhit by (by exists w', (row', col', d')).
    apply first_match_elem_of in Hfm as Hin'.
    unfold first_match in Hfm. apply find_some in Hfm as [_ Hm].
    apply (matches_position_extracted w' row' col' d' sr sc er ec Hlen) in Hm.
    split; [done|]. simpl.
    split; [|split; [|done]].
    + destruct Hline as [(_ & ? & -> & ->)|(_ & ? & -> & ->)];
        destruct Hm as [(_ & ? & -> & ->)|(_ & ? & -> & ->)]; f_equal; lia.
    + intros Hlong.
      destruct Hline as [(-> & ? & _ & _)|(-> & ? & _ & _)];
        destruct Hm as [(-> & ? & _ & _)|(-> & ? & _ & _)]; try done; lia.
  - exfalso. unfold first_match in Hfm. apply list_elem_of_In in Hentry.
    pose proof (find_none _ _ Hfm _ Hentry) as Hno. simpl in Hno.
    apply (matches_position_extracted w' row col d sr sc er ec Hlen) in Hline.
    congruence.
Qed.

Lemma reset_run_log_sound {R : Type} `{!RandomSource R, !RandomLaws R}
    (self s0 s : Env) (rng rng' : R) (calls : list StateCall) :
  reset self rng = Some (s0, rng') → run s0 calls s →
  log_sound (board s0) (placed_words s0) s.
Proof.
  intros Hreset Hrun.
  apply (run_inv (log_sound (board s0) (placed_words s0))) with s0 calls; [| |done].
  - intros; by eapply log_sound_process_match.
  - apply reset_session in Hreset as (_ & _ & _ & Hlog).
    split_and!; [done..|by rewrite Hlog; constructor|by rewrite Hlog].
Qed.

(** [X17] The span of a placed word is a correct guess, at any time.  In
    every state that turns lead to after a [reset], the guess that names the
    first and the last cell of a placed word (of at least one letter), in
    either order, lies on the board, is not rejected as already attempted,
    and is verified as correct: a word of the index with the same anchor
    (and, when the word has more than one letter, the same direction) is
    recorded as found, no try is spent and no call is made on the state. *)
Theorem X17_exact_span_is_accepted {R : Type} `{!RandomSource R, !RandomLaws R}
    (self s0 s : Env) (rng rng' : R) (calls : list StateCall)
    (w : string) (pos : Placement) (g : Span) :
  reset self rng = Some (s0, rng') →
  run s0 calls s →
  (w, pos) ∈ placed_words s →
  w ≠ EmptyString →
  g = word_span w pos ∨ g = reversed (word_span w pos) →
  ∃ pw ppos, (pw, ppos) ∈ placed_words s ∧ ppos.1 = pos.1
        ∧ (1 < Py.slen w → ppos.2 = pos.2)
        ∧ process_match s g
          = Some (record_found s pw g.1.1.1 g.1.1.2 g.1.2 g.2, [], correct).
Proof.
  intros Hreset Hrun Hentry Hne Hg.
  destruct (reset_run_log_sound _ _ _ _ _ _ Hreset Hrun) as (Hb & Hp & _ & Hall).
  apply reset_inv in Hreset as (_ & _ & r2 & _ & _ & _ & Hgen & _).
  apply generate_stand in Hgen as (gs & Hsq & Hstand).
  rewrite <- Hb in Hsq. rewrite <- Hp in Hstand.
  destruct (Hstand _ _ Hentry) as (_ & _ & _ & Hcells).
  pose proof (word_span_in_bounds gs (board s) w pos Hsq Hne Hcells) as Hin.
  assert (in_bounds (board s) g = true) as Hing
    by (destruct Hg as [->| ->]; [done|by rewrite in_bounds_reversed]).
  destruct (exact_span_hit (board s) (placed_words s) w pos g)
    as (pw & ppos & Hpw & Hanchor & Hdir & Hhit);
    [by eapply square_rectangular|done..|].
  exists pw, ppos. split_and!; [done..|].
  unfold process_match. rewrite Hing. cbn [negb].
  rewrite bool_decide_eq_false_2.
  - by rewrite (hit_check_guess _ _ _ Hhit).
  - intros Hlogged. eapply Forall_forall in Hall as [_ Hmiss]; [|done].
    apply (Hmiss pw). by rewrite <- Hb, <- Hp.
Qed.

Lemma X17_witness :
  ∃ pw ppos, (pw, ppos) ∈ placed_words demo_later ∧ ppos.1 = (1, 4, down).1
        ∧ (1 < Py.slen "QUEEN" → ppos.2 = (1, 4, down).2)
        ∧ process_match demo_later (reversed (word_span "QUEEN" (1, 4, down)))
          = Some (record_found demo_later pw
                    (reversed (word_span "QUEEN" (1, 4, down))).1.1.1
                    (reversed (word_span "QUEEN" (1, 4, down))).1.1.2
                    (reversed (word_span "QUEEN" (1, 4, down))).1.2
                    (reversed (word_span "QUEEN" (1, 4, down))).2, [], correct).
Proof.
  apply (X17_exact_span_is_accepted (R := nat) (RandomLaws0 := lcg_laws)
           (__init__ demo_corpus) demo_env demo_later 0%nat 75%nat (([] ++ []) ++ [])
           "QUEEN" (1, 4, down) (reversed (word_span "QUEEN" (1, 4, down)))).
  - by vm_compute.
  - apply (run_step demo_env demo_found demo_later ([] ++ []) []
             [(0, 3, 0, 5); (7, 7, 7, 7)]).
    + apply (run_step demo_env demo_env demo_found [] [] [(0, 0, 0, 2)]).
      * apply run_nil.
      * by vm_compute.
    + by vm_compute.
  - apply (bool_decide_unpack _). by vm_compute.
  - apply (bool_decide_unpack _). by vm_compute.
  - right. reflexivity.
Defined.

(** ** A word behind another on the same anchor *)

Lemma find_first {A} (f : A → bool) (l : list A) (x : A) :
  find f l = Some x →
  ∃ i, l !! i = Some x ∧ f x = true
       ∧ ∀ k y, (k < i)%nat → l !! k = Some y → f y = false.
Proof.
  induction l as [|a l IH]; simpl; [done|].
  destruct (f a) eqn:Ea.
  - intros [= <-]. exists 0%nat. split_and!; [done..|]. lia.
  - intros (i & Hi & Hx & Hbefore)%IH. exists (S i). split_and!; [done..|].
    intros [|k] y Hk; simpl; [by intros [= <-]|]. apply Hbefore. lia.
Qed.

Lemma shadowed_not_hit (grid : Grid) (p : Py.dict Placement) (g : Span) (w : string) :
  NoDup p.*1 → shadowed p w → ¬ hit grid p g w.
Proof.
  intros Hnd (i & j & w1 & pos & Hij & Hi & Hj). unfold Py.dict in Hi, Hj.
  destruct g as [[[sr sc] er] ec]. intros (w' & pos' & _ & Hfm).
  unfold first_match in Hfm.
  apply find_first in Hfm as (i0 & Hi0 & Hm & Hbefore).
  assert (i0 = j) as E.
  { apply (NoDup_lookup p.*1 i0 j w Hnd); rewrite list_lookup_fmap;
      [by rewrite Hi0|by rewrite Hj]. }
  subst i0.
  rewrite Hj in Hi0. injection Hi0 as <-.
  specialize (Hbefore i (w1, pos) Hij Hi).
  destruct pos as [[row col] d]. simpl in *. congruence.
Qed.

Lemma shadowed_process_match (p : Py.dict Placement) (w : string) (s s' : Env)
    (g : Span) (calls : list StateCall) (v : Verdict) :
  NoDup p.*1 → shadowed p w →
  placed_words s = p ∧ (w ∉ correct_words s) →
  process_match s g = Some (s', calls, v) →
  placed_words s' = p ∧ (w ∉ correct_words s').
Proof.
  intros Hnd Hsh [Hp Hw] Hpm.
  apply process_match_cases in Hpm
    as [(-> & _ & -> & ->)|[(-> & _ & _ & -> & ->)|
        [(-> & _ & _ & Hcg & ->)|(-> & _ & _ & s1 & Hcg & -> & ->)]]]; try done.
  - apply check_guess_true in Hcg as (pw & Hhit & ->). simpl. split; [done|].
    rewrite Hp in Hhit.
    intros [->%elem_of_singleton|?]%elem_of_union; [|done].
    by eapply shadowed_not_hit.
  - by apply (check_guess_false _ _ _ EmptyString) in Hcg as (_ & ->).
Qed.

Lemma missing_word_size (s : Env) (w : string) :
  index_ok s → w ∈ (placed_words s).*1 → (w ∉ correct_words s) →
  (size (correct_words s) < length (placed_words s))%nat.
Proof.
  intros [Hnd Hsub] Hkey Hw.
  assert (correct_words s ⊆ list_to_set (placed_words s).*1 ∖ {[ w ]}) as Hsub'
    by set_solver.
  apply subseteq_size in Hsub'.
  rewrite size_difference in Hsub' by set_solver.
  rewrite size_singleton, size_list_to_set, length_fmap in Hsub' by done.
  assert (0 < length (placed_words s))%nat; [|lia].
  rewrite <- (length_fmap fst). destruct ((placed_words s).*1); [|simpl; lia].
  by apply elem_of_nil in Hkey.
Qed.

(** [X18] A word in the shadow of another is never found.  When generation
    has placed a word on the anchor and along the direction of a word that
    stands before it in the index, then the verifier, which takes the first
    entry of the index that the span matches, credits every span from that
    anchor to the earlier word: in no state that turns lead to after the
    [reset] is the later word among the found words, and [set_winners] is
    never called. *)
Theorem X18_shadowed_word_is_never_found {R : Type} `{!RandomSource R, !RandomLaws R}
    (self s0 s : Env) (rng rng' : R) (calls : list StateCall) (w : string) :
  reset self rng = Some (s0, rng') →
  run s0 calls s →
  shadowed (placed_words s0) w →
  (w ∉ correct_words s) ∧ (set_winners ∉ calls).
Proof.
  intros Hreset Hrun Hsh.
  apply reset_spec in Hreset as (_ & Hc0 & _ & _ & _ & r0 & r1 & Hgen).
  apply generate_index in Hgen as [Hne Hnd].
  assert (index_ok s0) as Hok0 by (split; [done|rewrite Hc0; set_solver]).
  assert (w ∈ (placed_words s0).*1) as Hkey.
  { destruct Hsh as (i & j & w1 & pos & _ & _ & Hj).
    apply list_elem_of_fmap. exists (w, pos). split; [done|].
    by eapply list_elem_of_lookup_2. }
  assert ((placed_words s = placed_words s0 ∧ (w ∉ correct_words s))
          ∧ index_ok s ∧ (set_winners ∉ calls)) as [[_ Hw] [_ Hcalls]]; [|done].
  induction Hrun as [s|s s1 s2 calls calls1 ms Hrun IH Hstep].
  - split_and!; [done|rewrite Hc0; set_solver|done|by intros ?%elem_of_nil].
  - destruct (IH Hc0 Hne Hnd Hsh Hok0 Hkey) as (HJ & Hok1 & Hcalls1).
    assert (placed_words s2 = placed_words s ∧ (w ∉ correct_words s2)) as HJ2.
    { apply (step_inv (λ s', placed_words s' = placed_words s ∧ (w ∉ correct_words s')))
        with ms s1 calls1; [|done|done].
      intros; by eapply shadowed_process_match. }
    apply step_win in Hstep as (Hp & Hsub & Hi & Hnil & Hwin).
    specialize (Hi Hok1). destruct HJ as [HpJ HwJ].
    split; [split; [by rewrite Hp|by destruct HJ2]|]. split; [done|].
    intros [?|Hin]%elem_of_app; [done|].
    apply Hwin in Hin as [_ Hall].
    destruct HJ2 as [Hp2 Hw2].
    pose proof (missing_word_size s2 w Hi) as Hlt.
    rewrite Hp, HpJ in Hlt. specialize (Hlt Hkey Hw2). rewrite Hp2 in Hall. lia.
Qed.

Lemma X18_witness :
  ("AT"%string ∉ correct_words demo_shadow_later) ∧ (set_winners ∉ [] ++ []).
Proof.
  apply (X18_shadowed_word_is_never_found (R := nat) (RandomLaws0 := lcg_laws)
           (__init__ demo_shadow_corpus) demo_shadow_env demo_shadow_later
           5%nat 45%nat ([] ++ []) "AT").
  - by vm_compute.
  - apply (run_step demo_shadow_env demo_shadow_env demo_shadow_later [] []
             [(2, 0, 2, 1)]).
    + apply run_nil.
    + by vm_compute.
  - exists 0%nat, 2%nat, "ATE"%string, (2, 0, across).
    split; [lia|]. split; reflexivity.
Defined.

(** ** The cells of the placed words *)

Lemma elem_of_get_positions (self : Env) (r c : Z) :
  (r, c) ∈ _get_positions self ↔
  ∃ w pos l, (w, pos) ∈ placed_words self
             ∧ (r, c, l) ∈ word_cells pos.2 pos.1.1 pos.1.2 w.
Proof.
  unfold _get_positions.
  assert (∀ (placed : Py.dict Placement) (acc : gset (Z * Z)),
            (r, c) ∈ foldl (λ (positions : gset (Z * Z)) (entry : string * Placement),
                     let '(word, (row, col, direction)) := entry in
                     match direction with
                     | across =>
                         foldl (λ ps i, {[ (row, col + i) ]} ∪ ps) positions
                               (Py.range (Py.slen word))
                     | down =>
                         foldl (λ ps i, {[ (row + i, col) ]} ∪ ps) positions
                               (Py.range (Py.slen word))
                     end) acc placed
            ↔ (r, c) ∈ acc
              ∨ ∃ w pos l, (w, pos) ∈ placed
                           ∧ (r, c, l) ∈ word_cells pos.2 pos.1.1 pos.1.2 w) as H.
  { induction placed as [|[w [[row col] d]] placed IH]; intros acc; simpl.
    - split; [by left|]. intros [?|(w & pos & l & ?%elem_of_nil & _)]; done.
    - rewrite IH. clear IH.
      assert ((r, c) ∈ match d with
                       | across =>
                           foldl (λ ps i, {[ (row, col + i) ]} ∪ ps) acc
                                 (Py.range (Py.slen w))
                       | down =>
                           foldl (λ ps i, {[ (row + i, col) ]} ∪ ps) acc
                                 (Py.range (Py.slen w))
                       end
              ↔ (r, c) ∈ acc ∨ ∃ l, (r, c, l) ∈ word_cells d row col w) as ->.
      { destruct d; rewrite foldl_add_cells, elem_of_union, elem_of_list_to_set,
          list_elem_of_fmap; unfold Py.range; split.
        - intros [(i & [= -> ->] & Hi%elem_of_range2)|?]; [|by left]. right.
          destruct (enumerate_from_lookup 0 i w) as [l Hl]; [lia|].
          exists l. apply elem_of_word_cells. by exists i.
        - intros [?|(l & (i & Hi & [= -> ->])%elem_of_word_cells)]; [by right|].
          left. exists i. split; [done|].
          apply elem_of_enumerate_from in Hi. apply elem_of_range2. lia.
        - intros [(i & [= -> ->] & Hi%elem_of_range2)|?]; [|by left]. right.
          destruct (enumerate_from_lookup 0 i w) as [l Hl]; [lia|].
          exists l. apply elem_of_word_cells. by exists i.
        - intros [?|(l & (i & Hi & [= -> ->])%elem_of_word_cells)]; [by right|].
          left. exists i. split; [done|].
          apply elem_of_enumerate_from in Hi. apply elem_of_range2. lia. }
      split.
      + intros [[?|(l & Hl)]|(w' & pos & l & Hin & Hl)]; [by left| |].
        * right. exists w, (row, col, d), l. split; [by left|done].
        * right. exists w', pos, l. split; [by right|done].
      + intros [?|(w' & pos & l & [[= -> ->]|Hin]%elem_of_cons & Hl)].
        * by left; left.
        * left; right. by exists l.
        * right. by exists w', pos, l. }
  rewrite H. split; [|by right]. by intros [?%elem_of_empty|?].
Qed.

(** [X19] [_get_positions] returns the cells that the placed words cover: a
    cell is in the set exactly when some entry of the index covers it from
    its anchor along its direction.  In every state that turns lead to after
    a [reset], all these cells are cells of the board. *)
Theorem X19_positions_of_placed_words {R : Type} `{!RandomSource R, !RandomLaws R}
    (self s0 s : Env) (rng rng' : R) (calls : list StateCall) (r c : Z) :
  reset self rng = Some (s0, rng') →
  run s0 calls s →
  ((r, c) ∈ _get_positions s ↔
     ∃ w pos l, (w, pos) ∈ placed_words s
                ∧ (r, c, l) ∈ word_cells pos.2 pos.1.1 pos.1.2 w)
  ∧ ((r, c) ∈ _get_positions s →
       0 <= r < Py.len (board s) ∧ 0 <= c < width (board s)).
Proof.
  intros Hreset Hrun. split; [apply elem_of_get_positions|].
  intros (w & pos & l & Hentry & Hcell)%elem_of_get_positions.
  destruct (reset_run_log_sound _ _ _ _ _ _ Hreset Hrun) as (Hb & Hp & _).
  apply reset_inv in Hreset as (_ & _ & r2 & _ & _ & _ & Hgen & _).
  apply generate_stand in Hgen as (gs & Hsq & Hstand).
  rewrite Hp in Hentry. destruct (Hstand _ _ Hentry) as (_ & _ & _ & Hcells).
  destruct (Hcells _ _ _ Hcell) as [Hr Hc].
  rewrite Hb, (square_width gs _ Hsq) by lia. by destruct Hsq as [-> _].
Qed.

Lemma X19_witness :
  ((3, 4) ∈ _get_positions demo_found ↔
     ∃ w pos l, (w, pos) ∈ placed_words demo_found
                ∧ (3, 4, l) ∈ word_cells pos.2 pos.1.1 pos.1.2 w)
  ∧ ((3, 4) ∈ _get_positions demo_found →
       0 <= 3 < Py.len (board demo_found) ∧ 0 <= 4 < width (board demo_found)).
Proof.
  apply (X19_positions_of_placed_words (R := nat) (RandomLaws0 := lcg_laws)
           (__init__ demo_corpus) demo_env demo_found 0%nat 75%nat ([] ++ []) 3 4).
  - by vm_compute.
  - apply (run_step demo_env demo_env demo_found [] [] [(0, 0, 0, 2)]).
    + apply run_nil.
    + by vm_compute.
Defined.

(** ** The rendered board *)

Lemma string_length_app (s t : string) :
  String.length (s +:+ t) = (String.length s + String.length t)%nat.
Proof. induction s as [|c s IH]; simpl; [done|]. by rewrite IH. Qed.

Lemma render_cell_length (h : gset (Z * Z)) (show_words : bool) (i j : nat) (val : ascii) :
  String.length (render_cell h show_words i j val) = 4%nat.
Proof. unfold render_cell. case_bool_decide; [destruct show_words|]; done. Qed.

Lemma render_cell_plain (h h' : gset (Z * Z)) (i j : nat) (val : ascii) :
  render_cell h false i j val = render_cell h' false i j val.
Proof. unfold render_cell. by repeat case_bool_decide. Qed.

Lemma render_cell_no_highlight (show_words : bool) (i j : nat) (val : ascii) :
  render_cell ∅ show_words i j val = render_cell ∅ false i j val.
Proof. unfold render_cell. case_bool_decide as H; [by apply elem_of_empty in H|done]. Qed.

Lemma render_row_length (h : gset (Z * Z)) (show_words : bool) (i : nat)
    (line : list ascii) :
  String.length (render_row h show_words i line)
  = (String.length (fmt02 i) + 2 + 4 * length line)%nat.
Proof.
  unfold render_row.
  assert (∀ (l : list (nat * ascii)) (acc : string),
            String.length
              (foldl (λ (row_str : string) (jv : nat * ascii),
                        row_str +:+ render_cell h show_words i jv.1 jv.2) acc l)
            = (String.length acc + 4 * length l)%nat) as H.
  { induction l as [|jv l IH]; intros acc; simpl; [lia|].
    rewrite IH, string_length_app, render_cell_length. lia. }
  rewrite H, length_imap, !string_length_app. simpl. lia.
Qed.

Lemma render_row_ext (h h' : gset (Z * Z)) (b b' : bool) (i : nat) (line : list ascii) :
  (∀ j val, render_cell h b i j val = render_cell h' b' i j val) →
  render_row h b i line = render_row h' b' i line.
Proof.
  intros Hcell. unfold render_row.
  generalize ("R" +:+ fmt02 i +:+ " ").
  generalize (imap (λ (j : nat) (val : ascii), (j, val)) line).
  induction l as [|jv l IH]; intros acc; simpl; [done|]. by rewrite Hcell, IH.
Qed.

Lemma render_lines_ext (s s' : Env) (b b' : bool) (grid : Grid) :
  (∀ i j val, render_cell (highlighted_positions s) b i j val
              = render_cell (highlighted_positions s') b' i j val) →
  render_lines s grid b = render_lines s' grid b'.
Proof.
  intros Hcell. unfold render_lines. f_equal.
  apply imap_ext. intros i line _. apply render_row_ext. intros j val. apply Hcell.
Qed.

(** [X20] The rendered board.  [_render_board] joins one header line and one
    line for each row of the grid, and the line of row [i] is as long as its
    label, two further characters and four characters for each cell, whether
    cells are highlighted or not.  Without [show_words] the rendering does not
    depend on the highlighted cells, and as long as no cell is highlighted
    the rendering is the same with and without [show_words]: the board that
    [reset] hands to the state is the board shown in the prompt. *)
Theorem X20_rendered_board (self self' : Env) (grid : Grid) (show_words : bool) :
  _render_board self grid show_words
  = String.concat newline (render_lines self grid show_words)
  ∧ length (render_lines self grid show_words) = S (length grid)
  ∧ (∀ i line, grid !! i = Some line →
       ∃ row_str, render_lines self grid show_words !! S i = Some row_str
                  ∧ String.length row_str
                    = (String.length (fmt02 i) + 2 + 4 * length line)%nat)
  ∧ _render_board self grid false = _render_board self' grid false
  ∧ (highlighted_positions self = ∅ →
       _render_board self grid true = _render_board self grid false).
Proof.
  split; [done|]. split; [by unfold render_lines; simpl; rewrite length_imap|].
  split; [|split].
  - intros i line Hline. eexists. split.
    + unfold render_lines. simpl. by rewrite list_lookup_imap, Hline.
    + apply render_row_length.
  - unfold _render_board. f_equal. apply render_lines_ext.
    intros i j val. apply render_cell_plain.
  - intros Hh. unfold _render_board. f_equal. apply render_lines_ext.
    intros i j val. rewrite Hh. apply render_cell_no_highlight.
Qed.

(** ** Turns return *)




(** ** The board of an episode *)

(** [X22] The board that [reset] builds is complete.  The board handed to
    the state is the grid the environment keeps, it is a square whose side
    exceeds the length of every word of the episode that has a letter, and
    none of its cells holds the empty marker. *)
Theorem X22_board_after_reset {R : Type} `{!RandomSource R, !RandomLaws R}
    (self s0 : Env) (rng rng' : R) :
  reset self rng = Some (s0, rng') →
  board s0 = game_board s0
  ∧ ∃ n, square n (board s0)
         ∧ (∀ w, w ∈ words s0 → w ≠ EmptyString → Py.slen w < n)
         ∧ ∀ r c, 0 <= r < n → 0 <= c < n →
             ∃ x, grid_get (board s0) r c = Some x ∧ x ≠ empty_marker.
Proof.
  intros Hreset.
  apply reset_spec in Hreset as (_ & _ & _ & _ & Hboard & r0 & r1 & Hgen).
  split; [done|].
  destruct (generate_square _ _ _ _ _ _ Hgen) as (gs & Hgs & Hsq).
  exists gs. split; [done|]. split.
  - intros w Hw Hne. unfold _determine_initial_grid_size in Hgs.
    destruct (Py.max (map Py.slen (words s0))) as [m|] eqn:E; simpl in Hgs; [|done].
    injection Hgs as <-. apply py_max_spec in E as [_ Hall].
    assert (Py.slen w <= m) by (apply Hall, list_elem_of_fmap; by exists w).
    pose proof (slen_pos w Hne). pose proof (round_three_halves_gt m). lia.
  - intros r c Hr Hc.
    destruct (square_grid_get gs _ r c Hsq Hr Hc) as [x Hx]. exists x. split; [done|].
    apply generate_inv in Hgen as (gs' & grid1 & rng1 & Hgs' & Hloop & Hfill).
    rewrite Hgs in Hgs'. injection Hgs' as <-.
    destruct (grid_size_spec _ _ Hgs) as [Hnn Hfit].
    apply place_words_shape in Hloop; [|done..].
    rewrite shape_empty_grid in Hloop.
    assert (rectangular grid1) as Hrect
      by (eapply square_rectangular; by apply shape_square).
    destruct (fill_spec grid1 Hrect rng1) as (st' & Hst' & Hs & Hcells).
    rewrite Hfill in Hst'. injection Hst' as <-. simpl in Hs, Hcells.
    rewrite grid_get_cell in Hx by lia.
    assert (is_Some (cell grid1 (Z.to_nat r) (Z.to_nat c))) as [x1 Hx1].
    { apply rectangular_cell; [done|].
      assert (square gs grid1) as Hsq1 by (by apply shape_square).
      rewrite (square_width gs grid1 Hsq1) by lia. destruct Hsq1 as [-> _]. lia. }
    destruct (Hcells _ _ _ Hx1) as (y & Hy & Hf & _).
    rewrite Hx in Hy. injection Hy as <-.
    eapply filled_from_no_marker. by apply Hf.
Qed.

Lemma X22_witness :
  board demo_env = game_board demo_env
  ∧ ∃ n, square n (board demo_env)
         ∧ (∀ w, w ∈ words demo_env → w ≠ EmptyString → Py.slen w < n)
         ∧ ∀ r c, 0 <= r < n → 0 <= c < n →
             ∃ x, grid_get (board demo_env) r c = Some x ∧ x ≠ empty_marker.
Proof.
  apply (X22_board_after_reset (R := nat) (RandomLaws0 := lcg_laws)
           (__init__ demo_corpus) demo_env 0%nat 75%nat).
  by vm_compute.
Defined.
